(** * CSAFE protocol client for Concept2 performance monitors

    Shallow embedding of the frame codec, the response parser and the
    command builders of package [csafe] (csafe/commands.go and the
    constants file of the package), and of the transaction engine and
    the command surface of package [pm5] (pm5.go and the proprietary
    get commands).

    Go's [byte] is a [Z] in [0, 256); conversions [byte(n)] are written
    out as [n mod 256].  A [[]byte] is a [list Z]; Go's [nil] slice and
    the empty slice are both [[]].  Lengths and offsets that the code
    keeps non-negative are [nat]; indices that start at [-1] are [Z]. *)

From Stdlib Require Import ZArith List Bool Lia.
Import ListNotations.
Open Scope Z_scope.

(** [l[lo:hi]] of Go, for [lo <= hi <= len(l)]. *)
Definition slice {A : Type} (lo hi : nat) (l : list A) : list A :=
  firstn (hi - lo) (skipn lo l).

(* ================================================================= *)
(** ** Package csafe *)

Module csafe.

Definition byte := Z.

Definition is_byte (b : Z) : Prop := 0 <= b < 256.

(** Frame flags. *)
Definition ExtendedFrameStartFlag : byte := 0xF0.
Definition StandardFrameStartFlag : byte := 0xF1.
Definition StopFrameFlag : byte := 0xF2.
Definition ByteStuffingFlag : byte := 0xF3.

Definition MaxFrameLength : nat := 120.
Definition MinInterframeGapMs : Z := 50.

(** Status byte bit masks. *)
Definition StatusFrameToggleMask : byte := 0x80.
Definition StatusPrevFrameStatusMask : byte := 0x30.
Definition StatusStateMask : byte := 0x0F.

Definition PrevFrameStatusOK : byte := 0x00.
Definition PrevFrameStatusReject : byte := 0x10.
Definition PrevFrameStatusBad : byte := 0x20.
Definition PrevFrameStatusNotReady : byte := 0x30.

(** Wrapper and proprietary opcodes used by the command surface. *)
Definition CmdSetUserCfg1 : byte := 0x1A.
Definition CmdSetPMCfg : byte := 0x76.
Definition CmdSetPMData : byte := 0x77.
Definition CmdGetPMCfg : byte := 0x7E.
Definition CmdGetPMData : byte := 0x7F.

Definition PMCmdGetFWVersion : byte := 0x80.
Definition PMCmdGetBatteryLevelPercent : byte := 0x97.
Definition PMCmdGetErgMachineType : byte := 0xED.
Definition PMCmdGetWorkTime : byte := 0xA0.
Definition PMCmdGetDragFactor : byte := 0xC1.
Definition PMCmdGetErrorValue : byte := 0xC9.
Definition PMCmdGetRestTime : byte := 0xCF.

(** Public opcodes, proprietary set opcodes and enumeration values used
    by the rest of the command surface. *)
Definition CmdGetCalories : byte := 0xA3.
Definition CmdGetHorizontal : byte := 0xA1.
Definition CmdGetPace : byte := 0xA6.
Definition CmdGetCadence : byte := 0xA7.
Definition CmdGetPower : byte := 0xB4.
Definition CmdGetHRCur : byte := 0xB0.
Definition CmdSetTWork : byte := 0x20.
Definition CmdSetHorizontal : byte := 0x21.
Definition CmdSetCalories : byte := 0x23.
Definition CmdSetProgram : byte := 0x24.
Definition CmdSetPower : byte := 0x34.
Definition UnitsMeter : byte := 0x24.
Definition UnitsWatt : byte := 0x58.

Definition PMCmdGetForcePlotData : byte := 0x6B.
Definition PMCmdSetWorkoutType : byte := 0x01.
Definition PMCmdSetWorkoutDuration : byte := 0x03.
Definition PMCmdSetRestDuration : byte := 0x04.
Definition PMCmdSetSplitDuration : byte := 0x05.
Definition PMCmdSetScreenState : byte := 0x13.
Definition PMCmdConfigureWorkout : byte := 0x14.

Definition WorkoutTypeJustRowNoSplits : byte := 0.
Definition WorkoutTypeJustRowSplits : byte := 1.
Definition WorkoutTypeFixedDistNoSplits : byte := 2.
Definition WorkoutTypeFixedDistSplits : byte := 3.
Definition WorkoutTypeFixedTimeNoSplits : byte := 4.
Definition WorkoutTypeFixedTimeSplits : byte := 5.
Definition WorkoutTypeFixedTimeInterval : byte := 6.
Definition WorkoutTypeFixedDistInterval : byte := 7.
Definition WorkoutTypeFixedCalorieSplits : byte := 10.

Definition DurationTypeTime : byte := 0x00.
Definition DurationTypeCalories : byte := 0x40.
Definition DurationTypeDistance : byte := 0x80.

Definition ScreenTypeWorkout : byte := 1.
Definition ScreenValueWorkoutPrepareToRowWorkout : byte := 1.
Definition ScreenValueWorkoutTerminateWorkout : byte := 2.

Inductive error : Type :=
| ErrFrameTooShort
| ErrInvalidStartFlag
| ErrInvalidStopFlag
| ErrInvalidChecksum
| ErrFrameTooLong
| ErrInvalidStuffByte.

Inductive result (A : Type) : Type :=
| Ok (a : A)
| Err (e : error).
Arguments Ok {A} a.
Arguments Err {A} e.

Record Frame : Type := mkFrame {
  Extended : bool;
  Destination : byte;
  Source : byte;
  Contents : list byte
}.

#[warnings="-register-all"]
Inductive CommandResponse : Type := mkCommandResponse {
  Command : byte;
  ByteCount : byte;
  Data : list byte;
  PMResponses : list CommandResponse
}.

Record Response : Type := mkResponse {
  Status : byte;
  FrameToggle : bool;
  PrevFrameStatus : byte;
  StateMachine : byte;
  CommandData : list CommandResponse
}.

(** [checksum ^= b] over a byte slice, starting from [byte(0)]. *)
Definition xorAll (bs : list byte) : byte := fold_left Z.lxor bs 0.

(** [stuffAndWrite]: the buffer is threaded explicitly; [buf.WriteByte]
    appends at the end. *)
Definition stuffAndWrite (buf : list byte) (b : byte) : list byte :=
  if b =? ExtendedFrameStartFlag then buf ++ [ByteStuffingFlag; 0x00]
  else if b =? StandardFrameStartFlag then buf ++ [ByteStuffingFlag; 0x01]
  else if b =? StopFrameFlag then buf ++ [ByteStuffingFlag; 0x02]
  else if b =? ByteStuffingFlag then buf ++ [ByteStuffingFlag; 0x03]
  else buf ++ [b].

Definition EncodeFrame (f : Frame) : result (list byte) :=
  let buf :=
    if Extended f
    then stuffAndWrite (stuffAndWrite [ExtendedFrameStartFlag] (Destination f))
                       (Source f)
    else [StandardFrameStartFlag] in
  let checksum := xorAll (Contents f) in
  let buf := fold_left stuffAndWrite (Contents f) buf in
  let buf := stuffAndWrite buf checksum in
  let result := buf ++ [StopFrameFlag] in
  if (MaxFrameLength <? length result)%nat then Err ErrFrameTooLong
  else Ok result.

(** [unstuffBytes]: the loop over [i], with [data] standing for
    [data[i:]] and [acc] for the [result] slice built so far. *)
Fixpoint unstuffLoop (data acc : list byte) : result (list byte) :=
  match data with
  | [] => Ok acc
  | b :: rest =>
      if b =? ByteStuffingFlag then
        match rest with
        | [] => Err ErrInvalidStuffByte
        | c :: rest' =>
            if c =? 0x00 then unstuffLoop rest' (acc ++ [ExtendedFrameStartFlag])
            else if c =? 0x01 then unstuffLoop rest' (acc ++ [StandardFrameStartFlag])
            else if c =? 0x02 then unstuffLoop rest' (acc ++ [StopFrameFlag])
            else if c =? 0x03 then unstuffLoop rest' (acc ++ [ByteStuffingFlag])
            else Err ErrInvalidStuffByte
        end
      else unstuffLoop rest (acc ++ [b])
  end.

Definition unstuffBytes (data : list byte) : result (list byte) :=
  unstuffLoop data [].

Definition DecodeFrame (data : list byte) : result Frame :=
  if (length data <? 4)%nat then Err ErrFrameTooShort
  else
    let start := nth 0 data 0 in
    if negb ((start =? ExtendedFrameStartFlag) || (start =? StandardFrameStartFlag))
    then Err ErrInvalidStartFlag
    else
      let extended := start =? ExtendedFrameStartFlag in
      if negb (nth (length data - 1) data 0 =? StopFrameFlag)
      then Err ErrInvalidStopFlag
      else
        match unstuffBytes (slice 1 (length data - 1) data) with
        | Err e => Err e
        | Ok unstuffed =>
            if (length unstuffed <? 1)%nat then Err ErrFrameTooShort
            else if extended && (length unstuffed <? 3)%nat then Err ErrFrameTooShort
            else
              let destination := if extended then nth 0 unstuffed 0 else 0 in
              let source := if extended then nth 1 unstuffed 0 else 0 in
              let offset := if extended then 2%nat else 0%nat in
              if (length unstuffed <=? offset)%nat then Err ErrFrameTooShort
              else
                let checksumIdx := (length unstuffed - 1)%nat in
                let receivedChecksum := nth checksumIdx unstuffed 0 in
                let contents := slice offset checksumIdx unstuffed in
                let calculatedChecksum := xorAll contents in
                if negb (calculatedChecksum =? receivedChecksum)
                then Err ErrInvalidChecksum
                else Ok (mkFrame extended destination source contents)
        end.

Definition isPMWrapper (cmd : byte) : bool :=
  (cmd =? 0x76) || (cmd =? 0x77) || (cmd =? 0x7E) || (cmd =? 0x7F).

(** The data bytes and the next offset of a record whose opcode and
    byte count have been consumed ([offset] points past the count). *)
Definition takeData (contents : list byte) (offset : nat) (byteCount : byte)
  : list byte * nat :=
  if 0 <? byteCount then
    if (length contents <? offset + Z.to_nat byteCount)%nat
    then (skipn offset contents, length contents)
    else (slice offset (offset + Z.to_nat byteCount) contents,
          (offset + Z.to_nat byteCount)%nat)
  else ([], offset).

(** The loop of [parsePMWrapperData].  Every iteration consumes at least
    the opcode, so [length data] iterations exhaust the buffer; [fuel]
    bounds the iterations. *)
Fixpoint pmWrapperLoop (fuel : nat) (data : list byte) (offset : nat)
    (responses : list CommandResponse) : list CommandResponse :=
  match fuel with
  | O => responses
  | S fuel' =>
      if (offset <? length data)%nat then
        let cmd := nth offset data 0 in
        let offset := (offset + 1)%nat in
        if (length data <=? offset)%nat then
          responses ++ [mkCommandResponse cmd 0 [] []]
        else
          let byteCount := nth offset data 0 in
          let offset := (offset + 1)%nat in
          let '(cmdData, offset) := takeData data offset byteCount in
          pmWrapperLoop fuel' data offset
            (responses ++ [mkCommandResponse cmd byteCount cmdData []])
      else responses
  end.

Definition parsePMWrapperData (data : list byte) : list CommandResponse :=
  pmWrapperLoop (length data) data 0 [].

(** The loop of [ParseResponse], same shape, with the nested parse of
    wrapper records. *)
Fixpoint responseLoop (fuel : nat) (contents : list byte) (offset : nat)
    (commandData : list CommandResponse) : list CommandResponse :=
  match fuel with
  | O => commandData
  | S fuel' =>
      if (offset <? length contents)%nat then
        let cmd := nth offset contents 0 in
        let offset := (offset + 1)%nat in
        if (length contents <=? offset)%nat then
          commandData ++ [mkCommandResponse cmd 0 [] []]
        else
          let byteCount := nth offset contents 0 in
          let offset := (offset + 1)%nat in
          let '(data, offset) := takeData contents offset byteCount in
          let pmResponses :=
            if isPMWrapper cmd && (0 <? length data)%nat
            then parsePMWrapperData data else [] in
          responseLoop fuel' contents offset
            (commandData ++ [mkCommandResponse cmd byteCount data pmResponses])
      else commandData
  end.

Definition ParseResponse (contents : list byte) : result Response :=
  if (length contents <? 1)%nat then Err ErrFrameTooShort
  else
    let status := nth 0 contents 0 in
    Ok (mkResponse status
          (negb (Z.land status StatusFrameToggleMask =? 0))
          (Z.land status StatusPrevFrameStatusMask)
          (Z.land status StatusStateMask)
          (responseLoop (length contents) contents 1 [])).

(** [BuildCommand cmd data...]. *)
Definition BuildCommand (cmd : byte) (data : list byte) : list byte :=
  if negb (Z.land cmd 0x80 =? 0) && (length data =? 0)%nat then [cmd]
  else cmd :: (Z.of_nat (length data) mod 256) :: data.

(** [BuildPMCommand wrapper commands...]. *)
Definition BuildPMCommand (wrapper : byte) (commands : list (list byte))
  : list byte :=
  let totalSize := fold_left (fun n cmd => (n + length cmd)%nat) commands 0%nat in
  wrapper :: (Z.of_nat totalSize mod 256)
          :: fold_left (fun acc cmd => acc ++ cmd) commands [].

End csafe.

(* ================================================================= *)
(** ** Package pm5 *)

Module pm5.
Import csafe.

(** Errors reported by the HID device; the library only wraps them. *)
Inductive DeviceError : Type := DevErr (code : nat).

(** The package's sentinel errors and the [fmt.Errorf] wrappers of
    [Connect], [Disconnect] and [sendCommand]. *)
Inductive error : Type :=
| ErrNotConnected
| ErrInvalidResponse
| ErrCommandFailed
| OpenFailed (e : DeviceError)
| CloseFailed (e : DeviceError)
| EncodeFailed (e : csafe.error)
| WriteFailed (e : DeviceError)
| ReadFailed (e : DeviceError)
| DecodeFailed (e : csafe.error)
| ParseFailed (e : csafe.error).

(** [time.Time] is a number of nanoseconds since the zero [Time];
    [time.Duration] is a number of nanoseconds in an [int64]. *)
Definition Millisecond : Z := 1000000.
Definition maxDuration : Z := 2 ^ 63 - 1.
Definition minDuration : Z := - 2 ^ 63.

(** [t.Sub(u)], which saturates at the ends of [Duration]. *)
Definition Sub (t u : Z) : Z := Z.max minDuration (Z.min maxDuration (t - u)).

(** Arithmetic on [Duration] wraps around in [int64]. *)
Definition wrap64 (z : Z) : Z := (z + 2 ^ 63) mod 2 ^ 64 - 2 ^ 63.

Record PM5 : Type := mkPM5 {
  connected : bool;
  frameToggle : bool;
  interframeDur : Z;
  lastCommand : Z
}.

(** [New]: detached, zero [lastCommand]. *)
Definition New : PM5 :=
  mkPM5 false false (MinInterframeGapMs * Millisecond) 0.

(** What the session does to the device and to the calling thread, in
    order.  A write carries the clock at its start and at its return. *)
Inductive Event : Type :=
| EvOpen
| EvClose
| EvSleep (d : Z)
| EvWrite (starts ends : Z) (encoded : list byte)
| EvRead (timeout : Z).

(** [Connect]; [openResult] is what [device.Open] returns if called. *)
Definition Connect (p : PM5) (openResult : option DeviceError)
  : PM5 * list Event * option error :=
  if connected p then (p, [], None)
  else
    match openResult with
    | Some e => (p, [EvOpen], Some (OpenFailed e))
    | None =>
        (mkPM5 true (frameToggle p) (interframeDur p) (lastCommand p),
         [EvOpen], None)
    end.

(** [Disconnect]; [closeResult] is what [device.Close] returns if called. *)
Definition Disconnect (p : PM5) (closeResult : option DeviceError)
  : PM5 * list Event * option error :=
  if negb (connected p) then (p, [], None)
  else
    match closeResult with
    | Some e => (p, [EvClose], Some (CloseFailed e))
    | None =>
        (mkPM5 false (frameToggle p) (interframeDur p) (lastCommand p),
         [EvClose], None)
    end.

(** The environment of one [sendCommand]: the clock when [time.Since]
    is evaluated, the non-negative latencies that separate the later
    steps, and the answers of the device.  [time.Sleep(d)] returns
    [oversleep] after the [d] it was asked for, at once if [d <= 0];
    [writeStartDelay] runs from the gate to the call of [Write],
    [writeDuration] to its return, [nowDelay] to the [time.Now()] that
    follows. *)
Record World : Type := mkWorld {
  sinceAt : Z;
  oversleep : Z;
  writeStartDelay : Z;
  writeDuration : Z;
  writeResult : option DeviceError;
  nowDelay : Z;
  readResult : DeviceError + list byte
}.

Definition latencies_ok (w : World) : Prop :=
  0 <= oversleep w /\ 0 <= writeStartDelay w /\
  0 <= writeDuration w /\ 0 <= nowDelay w.

(** The three shapes of [sendCommand]'s return: [(nil, err)],
    [(resp, ErrCommandFailed)] and [(resp, nil)]. *)
Inductive Outcome : Type :=
| Failed (e : error)
| Rejected (resp : Response)
| Done (resp : Response).

(** The inter-frame gate of [sendCommand]: the argument of [time.Sleep],
    if it is called. *)
Definition gateSleep (p : PM5) (now : Z) : option Z :=
  let elapsed := Sub now (lastCommand p) in
  if elapsed <? interframeDur p then Some (wrap64 (interframeDur p - elapsed))
  else None.

(** The [for i, b := range data] loop that finds the frame boundaries:
    [data] stands for [data[i:]]; the result is [(startIdx, stopIdx)]. *)
Fixpoint scanLoop (data : list byte) (i : Z) (startIdx : Z) : Z * Z :=
  match data with
  | [] => (startIdx, -1)
  | b :: rest =>
      let startIdx :=
        if (b =? StandardFrameStartFlag) || (b =? ExtendedFrameStartFlag)
        then i else startIdx in
      if (b =? StopFrameFlag) && (0 <=? startIdx) then (startIdx, i)
      else scanLoop rest (i + 1) startIdx
  end.

(** Frame extraction: the slice handed to [DecodeFrame], or [None] when
    the code returns [ErrInvalidResponse]. *)
Definition extractFrame (data : list byte) : option (list byte) :=
  let '(startIdx, stopIdx) := scanLoop data 0 (-1) in
  if (startIdx <? 0) || (stopIdx <? 0) then None
  else Some (slice (Z.to_nat startIdx) (Z.to_nat (stopIdx + 1)) data).

(** Decode, parse and status check at the end of [sendCommand], on the
    extracted slice. *)
Definition decodeAndParse (framed : list byte) : Outcome :=
  match DecodeFrame framed with
  | Err e => Failed (DecodeFailed e)
  | Ok respFrame =>
      match ParseResponse (Contents respFrame) with
      | Err e => Failed (ParseFailed e)
      | Ok resp =>
          if PrevFrameStatus resp =? PrevFrameStatusReject
          then Rejected resp else Done resp
      end
  end.

(** What [sendCommand] makes of the bytes read from the device. *)
Definition interpret (data : list byte) : Outcome :=
  match extractFrame data with
  | None => Failed ErrInvalidResponse
  | Some framed => decodeAndParse framed
  end.

(** [sendCommand]: returns the session, the trace and the outcome.  The
    two [fmt.Printf] of the frames are left out. *)
Definition sendCommand (p : PM5) (w : World) (contents : list byte)
  : PM5 * list Event * Outcome :=
  if negb (connected p) then (p, [], Failed ErrNotConnected)
  else
    let '(slept, t) :=
      match gateSleep p (sinceAt w) with
      | Some d => ([EvSleep d], sinceAt w + Z.max 0 d + oversleep w)
      | None => ([], sinceAt w)
      end in
    match EncodeFrame (mkFrame false 0 0 contents) with
    | Err e => (p, slept, Failed (EncodeFailed e))
    | Ok encoded =>
        let starts := t + writeStartDelay w in
        let ends := starts + writeDuration w in
        let wrote := slept ++ [EvWrite starts ends encoded] in
        match writeResult w with
        | Some e => (p, wrote, Failed (WriteFailed e))
        | None =>
            let p := mkPM5 (connected p) (frameToggle p) (interframeDur p)
                           (ends + nowDelay w) in
            let tr := wrote ++ [EvRead (500 * Millisecond)] in
            match readResult w with
            | inl e => (p, tr, Failed (ReadFailed e))
            | inr data => (p, tr, interpret data)
            end
        end
    end.

Definition sendPMCommand (p : PM5) (w : World) (wrapper : byte)
    (pmCmds : list (list byte)) : PM5 * list Event * Outcome :=
  sendCommand p w (BuildPMCommand wrapper pmCmds).

(** The loop shared by the proprietary get commands:
    [for _, cr := range resp.CommandData] returning at the first [cr]
    with [cr.Command == cmd && len(cr.Data) >= width]. *)
Definition firstData (cmd : byte) (width : nat)
    (commandData : list CommandResponse) : option (list byte) :=
  match find (fun cr => (Command cr =? cmd) && (width <=? length (Data cr))%nat)
             commandData with
  | Some cr => Some (Data cr)
  | None => None
  end.

(** The body shared by the proprietary get commands: build the short
    command, exchange it inside [wrapper], return the error of the
    exchange if any, else decode the first matching record. *)
Definition pmGet {A : Type} (wrapper cmd : byte) (width : nat)
    (decode : list byte -> A) (zero : A) (p : PM5) (w : World)
  : PM5 * list Event * (A * option error) :=
  let pmCmd := BuildCommand cmd [] in
  let '(p, tr, out) := sendPMCommand p w wrapper [pmCmd] in
  match out with
  | Failed e => (p, tr, (zero, Some e))
  | Rejected _ => (p, tr, (zero, Some ErrCommandFailed))
  | Done resp =>
      match firstData cmd width (CommandData resp) with
      | Some d => (p, tr, (decode d, None))
      | None => (p, tr, (zero, Some ErrInvalidResponse))
      end
  end.

Definition uint16 (n : Z) : Z := n mod 2 ^ 16.
Definition uint32 (n : Z) : Z := n mod 2 ^ 32.

Definition data0 (d : list byte) : Z := nth 0 d 0.

(** [uint32(d[0])<<24 | uint32(d[1])<<16 | uint32(d[2])<<8 | uint32(d[3])]. *)
Definition read32 (d : list byte) : Z :=
  Z.lor (Z.lor (Z.lor (uint32 (Z.shiftl (nth 0 d 0) 24))
                      (uint32 (Z.shiftl (nth 1 d 0) 16)))
               (uint32 (Z.shiftl (nth 2 d 0) 8)))
        (nth 3 d 0).

Definition GetBatteryLevel :=
  pmGet CmdGetPMCfg PMCmdGetBatteryLevelPercent 1 data0 0.

Definition GetErgMachineType :=
  pmGet CmdGetPMCfg PMCmdGetErgMachineType 1 data0 0.

Definition GetDragFactor :=
  pmGet CmdGetPMData PMCmdGetDragFactor 1 data0 0.

Definition GetPMWorkTime :=
  pmGet CmdGetPMData PMCmdGetWorkTime 4 read32 0.

(** [uint16(cr.Data[0]) | uint16(cr.Data[1])<<8]. *)
Definition GetRestTime :=
  pmGet CmdGetPMData PMCmdGetRestTime 2
    (fun d => Z.lor (nth 0 d 0) (uint16 (Z.shiftl (nth 1 d 0) 8))) 0.

(** [uint16(cr.Data[0])<<8 | uint16(cr.Data[1])]. *)
Definition GetErrorValue :=
  pmGet CmdGetPMData PMCmdGetErrorValue 2
    (fun d => Z.lor (uint16 (Z.shiftl (nth 0 d 0) 8)) (nth 1 d 0)) 0.

(** [GetFirmwareVersion]: the same exchange, but an answer with fewer
    than two records is refused before the records are searched; the
    16 bytes copied into [Version] are returned. *)
Definition GetFirmwareVersion (p : PM5) (w : World)
  : PM5 * list Event * (option (list byte) * option error) :=
  let pmCmd := BuildCommand PMCmdGetFWVersion [] in
  let '(p, tr, out) := sendPMCommand p w CmdGetPMCfg [pmCmd] in
  match out with
  | Failed e => (p, tr, (None, Some e))
  | Rejected _ => (p, tr, (None, Some ErrCommandFailed))
  | Done resp =>
      if (length (CommandData resp) <? 2)%nat
      then (p, tr, (None, Some ErrInvalidResponse))
      else
        match firstData PMCmdGetFWVersion 16 (CommandData resp) with
        | Some d => (p, tr, (Some (firstn 16 d), None))
        | None => (p, tr, (None, Some ErrInvalidResponse))
        end
  end.

(* ----------------------------------------------------------------- *)
(** *** Data conversion utilities (data.go) *)

(** [byte(x)] of an unsigned integer. *)
Definition toByte (n : Z) : byte := n mod 256.

Definition Uint16ToBytes (v : Z) : list byte :=
  [toByte (Z.land v 0xFF); toByte (Z.land (Z.shiftr v 8) 0xFF)].

Definition Uint24ToBytes (v : Z) : list byte :=
  [toByte (Z.land v 0xFF);
   toByte (Z.land (Z.shiftr v 8) 0xFF);
   toByte (Z.land (Z.shiftr v 16) 0xFF)].

Definition Uint32ToBytes (v : Z) : list byte :=
  [toByte (Z.land v 0xFF);
   toByte (Z.land (Z.shiftr v 8) 0xFF);
   toByte (Z.land (Z.shiftr v 16) 0xFF);
   toByte (Z.land (Z.shiftr v 24) 0xFF)].

Definition BytesToUint16 (b : list byte) : Z :=
  if (length b <? 2)%nat then 0
  else Z.lor (nth 0 b 0) (uint16 (Z.shiftl (nth 1 b 0) 8)).

Definition BytesToUint24 (b : list byte) : Z :=
  if (length b <? 3)%nat then 0
  else Z.lor (Z.lor (nth 0 b 0) (uint32 (Z.shiftl (nth 1 b 0) 8)))
             (uint32 (Z.shiftl (nth 2 b 0) 16)).

Definition BytesToUint32 (b : list byte) : Z :=
  if (length b <? 4)%nat then 0
  else Z.lor (Z.lor (Z.lor (nth 0 b 0) (uint32 (Z.shiftl (nth 1 b 0) 8)))
                    (uint32 (Z.shiftl (nth 2 b 0) 16)))
             (uint32 (Z.shiftl (nth 3 b 0) 24)).

Definition BytesToUint16BE (b : list byte) : Z :=
  if (length b <? 2)%nat then 0
  else Z.lor (uint16 (Z.shiftl (nth 0 b 0) 8)) (nth 1 b 0).

Definition BytesToUint32BE (b : list byte) : Z :=
  if (length b <? 4)%nat then 0
  else Z.lor (Z.lor (Z.lor (uint32 (Z.shiftl (nth 0 b 0) 24))
                           (uint32 (Z.shiftl (nth 1 b 0) 16)))
                    (uint32 (Z.shiftl (nth 2 b 0) 8)))
             (nth 3 b 0).

(** [time.Duration(hundredths) * 10 * time.Millisecond], in [int64]. *)
Definition HundredthsToTime (hundredths : Z) : Z :=
  wrap64 (wrap64 (hundredths * 10) * Millisecond).

(** [uint32(d.Milliseconds() / 10)]; [int64] division truncates toward
    zero. *)
Definition TimeToHundredths (d : Z) : Z :=
  uint32 (Z.quot (Z.quot d 1000000) 10).

(* ----------------------------------------------------------------- *)
(** *** Public get and set commands (pm5.go) *)

(** The body shared by [GetCalories], [GetHorizontal], [GetPace],
    [GetCadence], [GetPower] and [GetHeartRate]: exchange the short
    command and decode [resp.CommandData[0].Data], whatever its opcode,
    if there is a first record with at least [width] data bytes. *)
Definition publicGet {A : Type} (cmd : byte) (width : nat)
    (decode : list byte -> A) (zero : A) (p : PM5) (w : World)
  : PM5 * list Event * (A * option error) :=
  let '(p, tr, out) := sendCommand p w [cmd] in
  match out with
  | Failed e => (p, tr, (zero, Some e))
  | Rejected _ => (p, tr, (zero, Some ErrCommandFailed))
  | Done resp =>
      match CommandData resp with
      | [] => (p, tr, (zero, Some ErrInvalidResponse))
      | cr :: _ =>
          if (length (Data cr) <? width)%nat
          then (p, tr, (zero, Some ErrInvalidResponse))
          else (p, tr, (decode (Data cr), None))
      end
  end.

(** [uint16(data[0]) | uint16(data[1])<<8]. *)
Definition read16le (data : list byte) : Z :=
  Z.lor (nth 0 data 0) (uint16 (Z.shiftl (nth 1 data 0) 8)).

Definition GetCalories := publicGet CmdGetCalories 2 read16le 0.
Definition GetHorizontal := publicGet CmdGetHorizontal 2 read16le 0.
Definition GetPace := publicGet CmdGetPace 2 read16le 0.
Definition GetCadence := publicGet CmdGetCadence 2 read16le 0.
Definition GetPower := publicGet CmdGetPower 2 read16le 0.
Definition GetHeartRate := publicGet CmdGetHRCur 1 data0 0.

(** The [error] a set command returns from [sendCommand]'s result. *)
Definition errOf (out : Outcome) : option error :=
  match out with
  | Failed e => Some e
  | Rejected _ => Some ErrCommandFailed
  | Done _ => None
  end.

Definition sendOnly (r : PM5 * list Event * Outcome)
  : PM5 * list Event * option error :=
  let '(p, tr, out) := r in (p, tr, errOf out).

Definition SetTWork (p : PM5) (w : World) (hours minutes seconds : byte) :=
  sendOnly (sendCommand p w (BuildCommand CmdSetTWork [hours; minutes; seconds])).

Definition SetHorizontal (p : PM5) (w : World) (distance : Z) :=
  sendOnly (sendCommand p w
    (BuildCommand CmdSetHorizontal
       [toByte (Z.land distance 0xFF);
        toByte (Z.land (Z.shiftr distance 8) 0xFF);
        UnitsMeter])).

Definition SetCalories (p : PM5) (w : World) (calories : Z) :=
  sendOnly (sendCommand p w
    (BuildCommand CmdSetCalories
       [toByte (Z.land calories 0xFF);
        toByte (Z.land (Z.shiftr calories 8) 0xFF)])).

Definition SetPower (p : PM5) (w : World) (watts : Z) :=
  sendOnly (sendCommand p w
    (BuildCommand CmdSetPower
       [toByte (Z.land watts 0xFF);
        toByte (Z.land (Z.shiftr watts 8) 0xFF);
        UnitsWatt])).

(* ----------------------------------------------------------------- *)
(** *** Proprietary set commands and workout helpers
        (pm5_proprietary_set.go) *)

(** The four bytes [byte((d>>24)&0xFF), ..., byte(d&0xFF)] that the set
    commands spell out for a [uint32]. *)
Definition msb4 (d : Z) : list byte :=
  [toByte (Z.land (Z.shiftr d 24) 0xFF);
   toByte (Z.land (Z.shiftr d 16) 0xFF);
   toByte (Z.land (Z.shiftr d 8) 0xFF);
   toByte (Z.land d 0xFF)].

(** [byte((s>>8)&0xFF), byte(s&0xFF)] for a [uint16]. *)
Definition msb2 (s : Z) : list byte :=
  [toByte (Z.land (Z.shiftr s 8) 0xFF); toByte (Z.land s 0xFF)].

Definition SetWorkoutDuration (p : PM5) (w : World) (durationType : byte)
    (duration : Z) :=
  sendOnly (sendPMCommand p w CmdSetPMCfg
    [BuildCommand PMCmdSetWorkoutDuration (durationType :: msb4 duration)]).

Definition SetRestDuration (p : PM5) (w : World) (seconds : Z) :=
  sendOnly (sendPMCommand p w CmdSetPMCfg
    [BuildCommand PMCmdSetRestDuration (msb2 seconds)]).

(** The tail shared by the workout helpers: enable, then the
    prepare-to-row screen. *)
Definition enableAndShow : list (list byte) :=
  [BuildCommand PMCmdConfigureWorkout [0x01];
   BuildCommand PMCmdSetScreenState
     [ScreenTypeWorkout; ScreenValueWorkoutPrepareToRowWorkout]].

(** The body shared by [StartFixedDistanceWorkout],
    [StartFixedTimeWorkout] and [StartFixedCalorieWorkout]: the inner
    commands, the split one only for a positive split. *)
Definition fixedWorkoutCmds (noSplits splits durationType : byte)
    (goal split : Z) : list (list byte) :=
  let workoutType := if 0 <? split then splits else noSplits in
  let pmCmds :=
    [BuildCommand PMCmdSetWorkoutType [workoutType];
     BuildCommand PMCmdSetWorkoutDuration (durationType :: msb4 goal)] in
  let pmCmds :=
    if 0 <? split
    then pmCmds ++
         [BuildCommand PMCmdSetSplitDuration (durationType :: msb4 split)]
    else pmCmds in
  pmCmds ++ enableAndShow.

Definition StartFixedDistanceWorkout (p : PM5) (w : World)
    (distance splitDistance : Z) :=
  sendOnly (sendPMCommand p w CmdSetPMCfg
    (fixedWorkoutCmds WorkoutTypeFixedDistNoSplits WorkoutTypeFixedDistSplits
       DurationTypeDistance distance splitDistance)).

Definition StartFixedTimeWorkout (p : PM5) (w : World)
    (duration splitDuration : Z) :=
  sendOnly (sendPMCommand p w CmdSetPMCfg
    (fixedWorkoutCmds WorkoutTypeFixedTimeNoSplits WorkoutTypeFixedTimeSplits
       DurationTypeTime duration splitDuration)).

Definition StartFixedCalorieWorkout (p : PM5) (w : World)
    (calories splitCalories : Z) :=
  sendOnly (sendPMCommand p w CmdSetPMCfg
    (fixedWorkoutCmds WorkoutTypeJustRowNoSplits WorkoutTypeFixedCalorieSplits
       DurationTypeCalories calories splitCalories)).

(** The body shared by the two interval helpers. *)
Definition intervalWorkoutCmds (workoutType durationType : byte)
    (goal restSeconds : Z) : list (list byte) :=
  [BuildCommand PMCmdSetWorkoutType [workoutType];
   BuildCommand PMCmdSetWorkoutDuration (durationType :: msb4 goal);
   BuildCommand PMCmdSetRestDuration (msb2 restSeconds)] ++ enableAndShow.

Definition StartFixedDistanceIntervalWorkout (p : PM5) (w : World)
    (distance restSeconds : Z) :=
  sendOnly (sendPMCommand p w CmdSetPMCfg
    (intervalWorkoutCmds WorkoutTypeFixedDistInterval DurationTypeDistance
       distance restSeconds)).

Definition StartFixedTimeIntervalWorkout (p : PM5) (w : World)
    (duration restSeconds : Z) :=
  sendOnly (sendPMCommand p w CmdSetPMCfg
    (intervalWorkoutCmds WorkoutTypeFixedTimeInterval DurationTypeTime
       duration restSeconds)).

(* ----------------------------------------------------------------- *)
(** *** Force curve (proprietary get commands) *)

(** [l[i] = x] for [i < len(l)]. *)
Fixpoint setNth {A : Type} (i : nat) (x : A) (l : list A) : list A :=
  match l, i with
  | [], _ => []
  | _ :: t, O => x :: t
  | h :: t, S i' => h :: setNth i' x t
  end.

(** The loop that fills [words]; it runs at most [numWords] times. *)
Fixpoint forcePlotLoop (fuel i numWords : nat) (data : list byte)
    (words : list Z) : list Z :=
  match fuel with
  | O => words
  | S fuel' =>
      if (i <? numWords)%nat && (1 + i * 2 + 1 <? length data)%nat then
        forcePlotLoop fuel' (i + 1) numWords data
          (setNth i (Z.lor (uint16 (Z.shiftl (nth (1 + i * 2) data 0) 8))
                           (nth (1 + i * 2 + 1) data 0))
                  words)
      else words
  end.

(** What [GetForcePlotData] returns for the record it selected. *)
Definition forcePlotWords (data : list byte) : list Z :=
  let bytesRead := nth 0 data 0 in
  if bytesRead =? 0 then []
  else
    let numWords := Z.to_nat (bytesRead / 2) in
    let numWords := if (16 <? numWords)%nat then 16%nat else numWords in
    forcePlotLoop numWords 0 numWords data (repeat 0 numWords).

Definition GetForcePlotData (p : PM5) (w : World) (blockSize : byte)
  : PM5 * list Event * (option (list Z) * option error) :=
  let blockSize := if 32 <? blockSize then 32 else blockSize in
  let pmCmd := BuildCommand PMCmdGetForcePlotData [blockSize] in
  let '(p, tr, out) := sendPMCommand p w CmdSetUserCfg1 [pmCmd] in
  match out with
  | Failed e => (p, tr, (None, Some e))
  | Rejected _ => (p, tr, (None, Some ErrCommandFailed))
  | Done resp =>
      match firstData PMCmdGetForcePlotData 1 (CommandData resp) with
      | Some d => (p, tr, (Some (forcePlotWords d), None))
      | None => (p, tr, (None, Some ErrInvalidResponse))
      end
  end.

End pm5.

(* ================================================================= *)
(** ** Package device: the mock device and the HID report framing *)

Module device.
Import csafe.

Inductive error : Type :=
| ErrDeviceNotFound
| ErrDeviceNotOpen
| ErrDeviceAlreadyOpen
| ErrWriteFailed
| ErrReadFailed
| ErrTimeout
| HIDWriteFailed (code : nat)
| HIDReadFailed (code : nat).

Record MockDevice : Type := mkMockDevice {
  isOpen : bool;
  responses : list (list byte);
  respIdx : nat;
  written : list (list byte)
}.

Definition NewMockDevice : MockDevice := mkMockDevice false [] 0 [].

Definition QueueResponse (m : MockDevice) (data : list byte) : MockDevice :=
  mkMockDevice (isOpen m) (responses m ++ [data]) (respIdx m) (written m).

Definition GetWritten (m : MockDevice) : list (list byte) := written m.

Definition Open (m : MockDevice) : MockDevice * option error :=
  if isOpen m then (m, Some ErrDeviceAlreadyOpen)
  else (mkMockDevice true (responses m) (respIdx m) (written m), None).

Definition Close (m : MockDevice) : MockDevice * option error :=
  (mkMockDevice false (responses m) (respIdx m) (written m), None).

Definition Write (m : MockDevice) (data : list byte)
  : MockDevice * (nat * option error) :=
  if negb (isOpen m) then (m, (0%nat, Some ErrDeviceNotOpen))
  else (mkMockDevice (isOpen m) (responses m) (respIdx m) (written m ++ [data]),
        (length data, None)).

Definition Read (m : MockDevice) : MockDevice * (error + list byte) :=
  if negb (isOpen m) then (m, inl ErrDeviceNotOpen)
  else if (length (responses m) <=? respIdx m)%nat then (m, inl ErrTimeout)
  else (mkMockDevice (isOpen m) (responses m) (respIdx m + 1) (written m),
        inr (nth (respIdx m) (responses m) [])).

(** A call of one of the mock device's methods, and what it returned. *)
Inductive Call : Type :=
| CallQueueResponse (data : list byte)
| CallOpen
| CallClose
| CallWrite (data : list byte)
| CallRead.

Inductive Reply : Type :=
| RetNothing
| RetError (err : option error)
| RetWrite (n : nat) (err : option error)
| RetRead (r : error + list byte).

Definition call (m : MockDevice) (c : Call) : MockDevice * Reply :=
  match c with
  | CallQueueResponse data => (QueueResponse m data, RetNothing)
  | CallOpen => let '(m', e) := Open m in (m', RetError e)
  | CallClose => let '(m', e) := Close m in (m', RetError e)
  | CallWrite data => let '(m', (n, e)) := Write m data in (m', RetWrite n e)
  | CallRead => let '(m', r) := Read m in (m', RetRead r)
  end.

(** A sequence of calls on the same device, the mutex serialising them. *)
Fixpoint calls (m : MockDevice) (cs : list Call) : MockDevice * list Reply :=
  match cs with
  | [] => (m, [])
  | c :: cs' =>
      let '(m1, r) := call m c in
      let '(m2, rs) := calls m1 cs' in
      (m2, r :: rs)
  end.

Definition ReportID2Size : nat := 121.

(** The report [USBDevice.Write] hands to the HID library: report id 2,
    at most 120 data bytes, zeros up to 121 bytes. *)
Definition buildReport (data : list byte) : list byte :=
  let n := if (120 <? length data)%nat then 120%nat else length data in
  0x02 :: firstn n data ++ repeat 0 (ReportID2Size - 1 - n).

(** [USBDevice.Write] on a device whose open flag is [opened];
    [hidWrite] is what [d.device.Write(report)] returns.  The result is
    the report handed over, if any, and Go's [(int, error)]. *)
Definition USBWrite (opened : bool) (hidWrite : nat + Z) (data : list byte)
  : option (list byte) * (nat * option error) :=
  if negb opened then (None, (0%nat, Some ErrDeviceNotOpen))
  else
    let n := if (120 <? length data)%nat then 120%nat else length data in
    match hidWrite with
    | inl code => (Some (buildReport data), (0%nat, Some (HIDWriteFailed code)))
    | inr wr =>
        if 0 <? wr then (Some (buildReport data), (n, None))
        else (Some (buildReport data), (0%nat, Some ErrWriteFailed))
    end.

(** [USBDevice.Read]; [hidRead] is what [ReadWithTimeout] returns: an
    error, or the count [n] and the 121-byte buffer. *)
Definition USBRead (opened : bool) (hidRead : nat + (Z * list byte))
  : error + list byte :=
  if negb opened then inl ErrDeviceNotOpen
  else
    match hidRead with
    | inl code => inl (HIDReadFailed code)
    | inr (n, buf) =>
        if n =? 0 then inl ErrTimeout
        else if 1 <? n then inr (slice 1 (Z.to_nat n) buf)
        else inl ErrReadFailed
    end.

End device.

(* ================================================================= *)
(** ** Notions used to state the properties *)

Import csafe pm5.

(** The bytes [stuffAndWrite] appends for [b]. *)
Definition stuff (b : byte) : list byte := stuffAndWrite [] b.

Definition isSentinel (b : byte) : bool :=
  (b =? ExtendedFrameStartFlag) || (b =? StandardFrameStartFlag) ||
  (b =? StopFrameFlag) || (b =? ByteStuffingFlag).

Definition isStart (b : byte) : bool :=
  (b =? StandardFrameStartFlag) || (b =? ExtendedFrameStartFlag).

Definition isStop (b : byte) : bool := b =? StopFrameFlag.

(** A frame as the Go type admits it: byte-sized fields, and no
    addresses on a standard frame (the zero values of the struct). *)
Definition wellFormed (f : Frame) : Prop :=
  is_byte (Destination f) /\ is_byte (Source f) /\
  Forall is_byte (Contents f) /\
  (Extended f = false -> Destination f = 0 /\ Source f = 0).

(** The XOR of a sequence of bytes, said without the code's loop and
    without an exclusive-or operator: bit [i] of the XOR is set exactly
    when an odd number of the bytes have bit [i] set. *)
Definition oddCount (i : Z) (bs : list byte) : bool :=
  Nat.odd (length (filter (fun b => Z.testbit b i) bs)).

Definition isXorOf (c : byte) (bs : list byte) : Prop :=
  forall i : Z, Z.testbit c i = oddCount i bs.

(** The unstuffed interior of a frame: addresses if extended, contents,
    checksum. *)
Definition payload (f : Frame) : list byte :=
  (if Extended f then [Destination f; Source f] else []) ++
  Contents f ++ [xorAll (Contents f)].

(** The bytes [EncodeFrame] builds, before the length check. *)
Definition encoded (f : Frame) : list byte :=
  (if Extended f then ExtendedFrameStartFlag else StandardFrameStartFlag)
    :: flat_map stuff (payload f) ++ [StopFrameFlag].

(** An interior made of raw non-sentinel bytes and of escape pairs
    [0xF3, k] with [k] in [0x00..0x03], and of nothing else. *)
Inductive Stuffed : list byte -> Prop :=
| Stuffed_nil : Stuffed []
| Stuffed_raw b rest :
    isSentinel b = false -> Stuffed rest -> Stuffed (b :: rest)
| Stuffed_pair k rest :
    0 <= k <= 3 -> Stuffed rest -> Stuffed (ByteStuffingFlag :: k :: rest).

(** The nested parse that [ParseResponse] attaches to a record that
    [parsePMWrapperData] would return bare. *)
Definition attachPM (cr : CommandResponse) : CommandResponse :=
  mkCommandResponse (Command cr) (ByteCount cr) (Data cr)
    (if isPMWrapper (Command cr) && (0 <? length (Data cr))%nat
     then parsePMWrapperData (Data cr) else []).

(** The clock at the start and at the return of the device write of a
    trace, and the sleep requested in it. *)
Definition writeOf (tr : list Event) : option (Z * Z) :=
  match find (fun ev => match ev with EvWrite _ _ _ => true | _ => false end) tr with
  | Some (EvWrite starts ends _) => Some (starts, ends)
  | _ => None
  end.

Definition sleepOf (tr : list Event) : option Z :=
  match find (fun ev => match ev with EvSleep _ => true | _ => false end) tr with
  | Some (EvSleep d) => Some d
  | _ => None
  end.

(** Most significant byte first. *)
Definition bigEndian (bs : list byte) : Z :=
  fold_left (fun acc b => acc * 256 + b) bs 0.

(** An interior that [unstuffBytes] accepts: bytes other than the
    escape byte, and pairs of the escape byte and one of [0x00..0x03]. *)
Inductive Unstuffable : list byte -> Prop :=
| Unstuffable_nil : Unstuffable []
| Unstuffable_raw b rest :
    b <> ByteStuffingFlag -> Unstuffable rest -> Unstuffable (b :: rest)
| Unstuffable_pair k rest :
    0 <= k <= 3 -> Unstuffable rest ->
    Unstuffable (ByteStuffingFlag :: k :: rest).

(** The wire form of a parsed record. *)
Definition recordBytes (cr : CommandResponse) : list byte :=
  Command cr :: ByteCount cr :: Data cr.

(** The frame handed to the device in a trace. *)
Definition writtenOf (tr : list Event) : option (list byte) :=
  match find (fun ev => match ev with EvWrite _ _ _ => true | _ => false end) tr with
  | Some (EvWrite _ _ encoded) => Some encoded
  | _ => None
  end.

(** The data of the writes of a session that returned no error. *)
Fixpoint writesDone (cs : list device.Call) (rs : list device.Reply)
  : list (list byte) :=
  match cs, rs with
  | device.CallWrite data :: cs', device.RetWrite _ None :: rs' =>
      data :: writesDone cs' rs'
  | _ :: cs', _ :: rs' => writesDone cs' rs'
  | _, _ => []
  end.

(** The data the reads of a session returned. *)
Fixpoint readsDone (rs : list device.Reply) : list (list byte) :=
  match rs with
  | device.RetRead (inr data) :: rs' => data :: readsDone rs'
  | _ :: rs' => readsDone rs'
  | [] => []
  end.

(** The responses queued during a session. *)
Fixpoint queuedBy (cs : list device.Call) : list (list byte) :=
  match cs with
  | device.CallQueueResponse data :: cs' => data :: queuedBy cs'
  | _ :: cs' => queuedBy cs'
  | [] => []
  end.

(** Least significant byte first. *)
Definition littleEndian (bs : list byte) : Z :=
  fold_right (fun b acc => b + 256 * acc) 0 bs.

(** A buffer made of complete [opcode, byte_count, data] records. *)
Inductive Records : list byte -> Prop :=
| Records_nil : Records []
| Records_cons cmd byteCount data rest :
    0 <= byteCount ->
    length data = Z.to_nat byteCount ->
    Records rest ->
    Records (cmd :: byteCount :: data ++ rest).

(* ================================================================= *)
(** ** Frame codec *)

Lemma stuffAndWrite_app buf b : stuffAndWrite buf b = buf ++ stuff b.
Proof.
  unfold stuff, stuffAndWrite.
  repeat match goal with |- context [if ?c then _ else _] => destruct c end;
    reflexivity.
Qed.

Lemma fold_stuffAndWrite l : forall buf,
  fold_left stuffAndWrite l buf = buf ++ flat_map stuff l.
Proof.
  induction l as [|b l IH]; intros buf; simpl.
  - now rewrite app_nil_r.
  - rewrite IH, stuffAndWrite_app, <- app_assoc. reflexivity.
Qed.

Lemma stuff_cases b :
  (isSentinel b = false /\ stuff b = [b]) \/
  (exists k, 0 <= k <= 3 /\ b = 0xF0 + k /\ stuff b = [ByteStuffingFlag; k]).
Proof.
  unfold stuff, stuffAndWrite, isSentinel.
  unfold ExtendedFrameStartFlag, StandardFrameStartFlag, StopFrameFlag,
    ByteStuffingFlag.
  destruct (b =? 240) eqn:E0; [right; exists 0; simpl; repeat split; lia|].
  destruct (b =? 241) eqn:E1; [right; exists 1; simpl; repeat split; lia|].
  destruct (b =? 242) eqn:E2; [right; exists 2; simpl; repeat split; lia|].
  destruct (b =? 243) eqn:E3; [right; exists 3; simpl; repeat split; lia|].
  left. split; reflexivity.
Qed.

Lemma unstuffLoop_stuff b rest acc :
  unstuffLoop (stuff b ++ rest) acc = unstuffLoop rest (acc ++ [b]).
Proof.
  destruct (stuff_cases b) as [[Hs ->] | [k [Hk [-> ->]]]].
  - simpl. unfold isSentinel in Hs.
    apply orb_false_iff in Hs as [_ ->]. reflexivity.
  - assert (k = 0 \/ k = 1 \/ k = 2 \/ k = 3) as [-> | [-> | [-> | ->]]] by lia;
      reflexivity.
Qed.

Lemma unstuffLoop_flat_map l : forall rest acc,
  unstuffLoop (flat_map stuff l ++ rest) acc = unstuffLoop rest (acc ++ l).
Proof.
  induction l as [|b l IH]; intros rest acc; simpl.
  - now rewrite app_nil_r.
  - rewrite <- app_assoc, unstuffLoop_stuff, IH, <- app_assoc. reflexivity.
Qed.

Lemma unstuffBytes_flat_map l : unstuffBytes (flat_map stuff l) = Ok l.
Proof.
  unfold unstuffBytes.
  rewrite <- (app_nil_r (flat_map stuff l)), unstuffLoop_flat_map.
  reflexivity.
Qed.

Lemma length_stuff_ge l : (length l <= length (flat_map stuff l))%nat.
Proof.
  induction l as [|b l IH]; simpl; [lia|].
  rewrite length_app.
  destruct (stuff_cases b) as [[_ ->] | [k [_ [_ ->]]]]; simpl; lia.
Qed.

Lemma EncodeFrame_encoded f :
  EncodeFrame f =
  if (MaxFrameLength <? length (encoded f))%nat then Err ErrFrameTooLong
  else Ok (encoded f).
Proof.
  unfold EncodeFrame, encoded, payload.
  repeat (rewrite stuffAndWrite_app || rewrite fold_stuffAndWrite).
  destruct (Extended f); simpl; rewrite ?flat_map_app; simpl;
    rewrite ?app_nil_r, <- ?app_assoc; simpl; rewrite <- ?app_assoc;
    reflexivity.
Qed.

Lemma nth_last_app {A} (l : list A) (x d : A) :
  nth (length (l ++ [x]) - 1) (l ++ [x]) d = x.
Proof.
  rewrite length_app. simpl.
  replace (length l + 1 - 1)%nat with (length l) by lia.
  rewrite app_nth2 by lia. now rewrite Nat.sub_diag.
Qed.

Lemma slice_init {A} (l : list A) (x : A) :
  slice 0 (length (l ++ [x]) - 1) (l ++ [x]) = l.
Proof.
  unfold slice. rewrite length_app. simpl.
  replace (length l + 1 - 1 - 0)%nat with (length l) by lia.
  rewrite firstn_app, firstn_all, Nat.sub_diag. simpl. apply app_nil_r.
Qed.

(** Decoding the frame built from an interior [flat_map stuff pl]. *)
Lemma DecodeFrame_framed (ext : bool) (dst src : byte) (contents : list byte) :
  let pl := (if ext then [dst; src] else []) ++ contents ++ [xorAll contents] in
  (2 <= length (flat_map stuff pl))%nat ->
  DecodeFrame ((if ext then ExtendedFrameStartFlag else StandardFrameStartFlag)
                 :: flat_map stuff pl ++ [StopFrameFlag])
  = Ok (mkFrame ext (if ext then dst else 0) (if ext then src else 0) contents).
Proof.
  intros pl Hlen. unfold DecodeFrame.
  set (body := flat_map stuff pl) in *.
  assert (Hl : length ((if ext then ExtendedFrameStartFlag else StandardFrameStartFlag)
                 :: body ++ [StopFrameFlag]) = S (length (body ++ [StopFrameFlag])))
    by reflexivity.
  rewrite Hl.
  assert (Hb : (S (length (body ++ [StopFrameFlag])) <? 4)%nat = false).
  { apply Nat.ltb_ge. rewrite length_app. simpl. lia. }
  rewrite Hb.
  replace (S (length (body ++ [StopFrameFlag])) - 1)%nat
    with (S (length (body ++ [StopFrameFlag]) - 1))%nat
    by (rewrite length_app; simpl; lia).
  cbn [nth].
  rewrite nth_last_app.
  assert (Hs : slice 1 (S (length (body ++ [StopFrameFlag]) - 1))
            ((if ext then ExtendedFrameStartFlag else StandardFrameStartFlag)
               :: body ++ [StopFrameFlag]) = body).
  { unfold slice. cbn [skipn].
    replace (S (length (body ++ [StopFrameFlag]) - 1) - 1)%nat
      with (length (body ++ [StopFrameFlag]) - 1 - 0)%nat by lia.
    apply slice_init. }
  rewrite Hs. unfold body. rewrite unstuffBytes_flat_map.
  assert (Hn : forall tl : list byte, (length (tl ++ [xorAll contents]) <=? 0)%nat = false).
  { intros tl. apply Nat.leb_gt. rewrite length_app. simpl. lia. }
  destruct ext; unfold pl; cbn [app length nth Nat.ltb Nat.leb negb orb andb
    ExtendedFrameStartFlag StandardFrameStartFlag StopFrameFlag Z.eqb Pos.eqb].
  - rewrite Hn.
    replace (S (S (length (contents ++ [xorAll contents]))) - 1)%nat
      with (S (S (length (contents ++ [xorAll contents]) - 1)))
      by (rewrite length_app; simpl; lia).
    replace (slice 2 (S (S (length (contents ++ [xorAll contents]) - 1)))
               (dst :: src :: contents ++ [xorAll contents]))
      with (slice 0 (length (contents ++ [xorAll contents]) - 1)
               (contents ++ [xorAll contents]))
      by (unfold slice; cbn [skipn]; f_equal; lia).
    rewrite slice_init, nth_last_app, Z.eqb_refl. reflexivity.
  - rewrite Hn, slice_init, nth_last_app, Z.eqb_refl. reflexivity.
Qed.

Lemma length_payload f :
  length (payload f) = ((if Extended f then 2 else 0) + length (Contents f) + 1)%nat.
Proof.
  unfold payload. rewrite !length_app. destruct (Extended f); simpl; lia.
Qed.

Lemma DecodeFrame_encoded f :
  wellFormed f ->
  Extended f = true \/ Contents f <> [] ->
  DecodeFrame (encoded f) = Ok f.
Proof.
  intros (_ & _ & _ & Hstd) Hne.
  unfold encoded, payload.
  rewrite DecodeFrame_framed.
  - destruct f as [ext dst src contents]; simpl in *.
    destruct ext; [reflexivity|].
    destruct Hstd as [-> ->]; reflexivity.
  - etransitivity; [|apply length_stuff_ge].
    fold (payload f). rewrite length_payload.
    destruct Hne as [-> | Hne]; [simpl; lia|].
    destruct (Contents f); [congruence | simpl; lia].
Qed.

(** C1 as stated fails on the minimal standard frame: its three-byte
    encoding is below the four-byte minimum that [DecodeFrame] checks
    first. *)
Lemma roundtrip_minimal_frame_rejected :
  let f := mkFrame false 0 0 [] in
  wellFormed f /\
  EncodeFrame f = Ok [0xF1; 0x00; 0xF2] /\
  (length [0xF1; 0x00; 0xF2] <= 120)%nat /\
  DecodeFrame [0xF1; 0x00; 0xF2] = Err ErrFrameTooShort /\
  DecodeFrame [0xF1; 0x00; 0xF2] <> Ok f.
Proof.
  cbv zeta. unfold wellFormed, is_byte. simpl.
  repeat split; try lia; try reflexivity; try discriminate; constructor.
Qed.

(** C1 (amended): every well-formed frame that is extended or has
    non-empty contents, and whose encoding [encoded f] is at most 120
    bytes, is accepted by [EncodeFrame] and decoded back to itself by
    [DecodeFrame]; the minimal standard frame with empty contents
    encodes to [F1 00 F2], which [DecodeFrame] rejects with
    [ErrFrameTooShort]. *)
Theorem EncodeFrame_DecodeFrame_roundtrip :
  (forall f : Frame,
      wellFormed f ->
      Extended f = true \/ Contents f <> [] ->
      (length (encoded f) <= MaxFrameLength)%nat ->
      exists out, EncodeFrame f = Ok out /\ DecodeFrame out = Ok f) /\
  EncodeFrame (mkFrame false 0 0 []) = Ok [0xF1; 0x00; 0xF2] /\
  DecodeFrame [0xF1; 0x00; 0xF2] = Err ErrFrameTooShort.
Proof.
  split; [|split; reflexivity].
  intros f Hwf Hne Hlen. exists (encoded f). split.
  - rewrite EncodeFrame_encoded.
    apply Nat.leb_le in Hlen. rewrite Nat.ltb_antisym, Hlen. reflexivity.
  - now apply DecodeFrame_encoded.
Qed.

Lemma EncodeFrame_DecodeFrame_roundtrip_witness :
  exists out,
    EncodeFrame (mkFrame true 0xFD 0x00 [0xF1; 0x00; 0xF3]) = Ok out /\
    DecodeFrame out = Ok (mkFrame true 0xFD 0x00 [0xF1; 0x00; 0xF3]).
Proof.
  apply (proj1 EncodeFrame_DecodeFrame_roundtrip
           (mkFrame true 0xFD 0x00 [0xF1; 0x00; 0xF3])).
  - unfold wellFormed, is_byte; simpl.
    repeat split; try lia; try discriminate.
    repeat constructor; lia.
  - left; reflexivity.
  - vm_compute. lia.
Defined.

(* ----------------------------------------------------------------- *)
(** *** Shape of an encoded frame *)

Lemma Stuffed_flat_map l : Stuffed (flat_map stuff l).
Proof.
  induction l as [|b l IH]; simpl; [constructor|].
  destruct (stuff_cases b) as [[Hs ->] | [k [Hk [_ ->]]]]; simpl.
  - now apply Stuffed_raw.
  - now apply Stuffed_pair.
Qed.

Lemma Stuffed_no_flag body :
  Stuffed body ->
  Forall (fun b => b <> ExtendedFrameStartFlag /\ b <> StandardFrameStartFlag /\
                   b <> StopFrameFlag) body.
Proof.
  unfold ExtendedFrameStartFlag, StandardFrameStartFlag, StopFrameFlag.
  induction 1 as [|b rest Hs _ IH|k rest Hk _ IH].
  - constructor.
  - constructor; [|exact IH].
    unfold isSentinel, ExtendedFrameStartFlag, StandardFrameStartFlag,
      StopFrameFlag, ByteStuffingFlag in Hs.
    repeat (apply orb_false_iff in Hs as [Hs ?]). lia.
  - unfold ByteStuffingFlag.
    constructor; [lia|]. constructor; [lia|]. exact IH.
Qed.

Lemma count_occ_no_stop body :
  Forall (fun b => b <> ExtendedFrameStartFlag /\ b <> StandardFrameStartFlag /\
                   b <> StopFrameFlag) body ->
  count_occ Z.eq_dec body StopFrameFlag = 0%nat.
Proof.
  intros H. apply count_occ_not_In. intros Hin.
  rewrite Forall_forall in H. apply H in Hin. tauto.
Qed.

(** C5: an encoding returned by [EncodeFrame] is the start sentinel,
    an interior and one STOP; the interior holds no raw [0xF0], [0xF1]
    or [0xF2], it is made of non-sentinel bytes and of escape pairs
    [0xF3, k] with [k] in [0x00..0x03] only, and [0xF2] occurs exactly
    once in the encoding, as its last byte. *)
Theorem EncodeFrame_stuffed (f : Frame) (out : list byte) :
  EncodeFrame f = Ok out ->
  exists body,
    out = (if Extended f then ExtendedFrameStartFlag else StandardFrameStartFlag)
            :: body ++ [StopFrameFlag] /\
    Forall (fun b => b <> ExtendedFrameStartFlag /\ b <> StandardFrameStartFlag /\
                     b <> StopFrameFlag) body /\
    Stuffed body /\
    count_occ Z.eq_dec out StopFrameFlag = 1%nat /\
    last out 0 = StopFrameFlag.
Proof.
  rewrite EncodeFrame_encoded.
  destruct (MaxFrameLength <? length (encoded f))%nat; [discriminate|].
  intros [= <-]. exists (flat_map stuff (payload f)).
  pose proof (Stuffed_flat_map (payload f)) as HS.
  pose proof (Stuffed_no_flag _ HS) as HF.
  repeat split; trivial.
  - unfold encoded. rewrite count_occ_cons_neq.
    + pose proof (count_occ_no_stop _ HF) as HC. unfold byte in *.
      rewrite count_occ_app, HC. reflexivity.
    + destruct (Extended f); discriminate.
  - unfold encoded.
    change (?x :: ?l ++ [StopFrameFlag]) with ((x :: l) ++ [StopFrameFlag]).
    apply last_last.
Qed.

Lemma EncodeFrame_stuffed_witness :
  exists body,
    [0xF1; 0xF3; 0x01; 0x00; 0xF3; 0x01; 0xF2] =
      StandardFrameStartFlag :: body ++ [StopFrameFlag] /\
    Forall (fun b => b <> ExtendedFrameStartFlag /\ b <> StandardFrameStartFlag /\
                     b <> StopFrameFlag) body /\
    Stuffed body /\
    count_occ Z.eq_dec [0xF1; 0xF3; 0x01; 0x00; 0xF3; 0x01; 0xF2] StopFrameFlag
      = 1%nat /\
    last [0xF1; 0xF3; 0x01; 0x00; 0xF3; 0x01; 0xF2] 0 = StopFrameFlag.
Proof.
  apply (EncodeFrame_stuffed (mkFrame false 0 0 [0xF1; 0x00])).
  reflexivity.
Defined.

(* ----------------------------------------------------------------- *)
(** *** Checksum verification *)

Lemma unstuffLoop_error_bounded (n : nat) : forall data acc e,
  (length data <= n)%nat ->
  unstuffLoop data acc = Err e -> e = ErrInvalidStuffByte.
Proof.
  induction n as [|n IH]; intros data acc e Hn;
    destruct data as [|b rest]; simpl in *; try discriminate; try lia.
  destruct (b =? ByteStuffingFlag).
  - destruct rest as [|c rest']; [congruence|]. simpl in Hn.
    repeat match goal with
      | |- context [if ?c then _ else _] => destruct c
      end; try congruence; apply IH; lia.
  - apply IH. lia.
Qed.

Lemma unstuffLoop_error data acc e :
  unstuffLoop data acc = Err e -> e = ErrInvalidStuffByte.
Proof. now apply (unstuffLoop_error_bounded (length data)). Qed.

(** A buffer longer than [n] is its first [n] bytes, its middle and its
    last byte. *)
Lemma split_last_byte (u : list byte) (n : nat) :
  (n < length u)%nat ->
  u = firstn n u ++ slice n (length u - 1) u ++ [nth (length u - 1) u 0].
Proof.
  intros Hn.
  destruct (exists_last (l := u)) as [u' [x ->]].
  { intros ->. simpl in Hn. lia. }
  rewrite nth_last_app. unfold slice.
  rewrite length_app in *. simpl in *.
  rewrite firstn_app, skipn_app.
  replace (n - length u')%nat with 0%nat by lia. simpl.
  rewrite app_nil_r, firstn_app.
  replace (length u' + 1 - 1 - n - length (skipn n u'))%nat with 0%nat
    by (rewrite length_skipn; lia).
  simpl. rewrite app_nil_r.
  rewrite (firstn_all2 (skipn n u')) by (rewrite length_skipn; lia).
  rewrite app_assoc, firstn_skipn. reflexivity.
Qed.

Lemma split_middle (addr contents : list byte) (c : byte) :
  let u := addr ++ contents ++ [c] in
  slice (length addr) (length u - 1) u = contents /\
  nth (length u - 1) u 0 = c.
Proof.
  intros u. unfold u. split.
  - unfold slice. rewrite skipn_app, Nat.sub_diag, skipn_all. simpl.
    rewrite !length_app. simpl.
    replace (length addr + (length contents + 1) - 1 - length addr)%nat
      with (length contents) by lia.
    rewrite firstn_app, firstn_all, Nat.sub_diag. simpl. apply app_nil_r.
  - rewrite app_assoc. apply nth_last_app.
Qed.

(** What [DecodeFrame] returns once start flag, stop flag and
    unstuffing are passed and the unstuffed interior is long enough. *)
Lemma DecodeFrame_checked (data addr contents : list byte) (c : byte) :
  (4 <= length data)%nat ->
  isStart (nth 0 data 0) = true ->
  nth (length data - 1) data 0 = StopFrameFlag ->
  unstuffBytes (slice 1 (length data - 1) data) = Ok (addr ++ contents ++ [c]) ->
  length addr = (if nth 0 data 0 =? ExtendedFrameStartFlag then 2%nat else 0%nat) ->
  DecodeFrame data =
  if xorAll contents =? c
  then Ok (mkFrame (nth 0 data 0 =? ExtendedFrameStartFlag)
             (nth 0 addr 0) (nth 1 addr 0) contents)
  else Err ErrInvalidChecksum.
Proof.
  intros Hlen Hstart Hstop Hun Haddr. unfold DecodeFrame.
  apply Nat.ltb_ge in Hlen. rewrite Hlen.
  unfold isStart in Hstart. rewrite orb_comm in Hstart. rewrite Hstart.
  rewrite Hstop, Z.eqb_refl, Hun. cbn [negb].
  pose proof (split_middle addr contents c) as [Hmid Hlast]. cbv zeta in *.
  assert (Hu : length (addr ++ contents ++ [c])
               = (length addr + length contents + 1)%nat)
    by (rewrite !length_app; simpl; lia).
  remember (addr ++ contents ++ [c]) as u eqn:Equ.
  destruct (nth 0 data 0 =? ExtendedFrameStartFlag) eqn:Hext.
  - destruct addr as [|d [|s [|? ?]]]; try discriminate Haddr.
    cbn [length] in Hu.
    replace (length u <? 1)%nat with false by (symmetry; apply Nat.ltb_ge; lia).
    replace (length u <? 3)%nat with false by (symmetry; apply Nat.ltb_ge; simpl in Hu; lia).
    replace (length u <=? 2)%nat with false by (symmetry; apply Nat.leb_gt; simpl in Hu; lia).
    cbn [andb]. change 2%nat with (length [d; s]). rewrite Hmid, Hlast.
    destruct (xorAll contents =? c); subst u; reflexivity.
  - destruct addr; try discriminate Haddr.
    cbn [length] in Hu.
    replace (length u <? 1)%nat with false by (symmetry; apply Nat.ltb_ge; lia).
    replace (length u <=? 0)%nat with false by (symmetry; apply Nat.leb_gt; lia).
    cbn [andb]. change (length (@nil byte)) with 0%nat in Hmid.
    rewrite Hmid, Hlast.
    destruct (xorAll contents =? c); subst u; reflexivity.
Qed.

(** The checks that precede the checksum, read off a result that can
    only come from the checksum step. *)
Lemma DecodeFrame_reaches_checksum (data : list byte) (r : result Frame) :
  DecodeFrame data = r ->
  (exists f, r = Ok f) \/ r = Err ErrInvalidChecksum ->
  (4 <= length data)%nat /\
  isStart (nth 0 data 0) = true /\
  nth (length data - 1) data 0 = StopFrameFlag /\
  exists addr contents c,
    unstuffBytes (slice 1 (length data - 1) data) = Ok (addr ++ contents ++ [c]) /\
    length addr = (if nth 0 data 0 =? ExtendedFrameStartFlag then 2%nat else 0%nat).
Proof.
  intros Hd Hr.
  assert (Hne : forall e, e <> ErrInvalidChecksum -> r <> Err e).
  { intros e He ->. destruct Hr as [[f Hf] | Hf]; congruence. }
  unfold DecodeFrame in Hd.
  destruct (length data <? 4)%nat eqn:Hlen;
    [exfalso; eapply Hne; [|symmetry; exact Hd]; discriminate|].
  destruct ((nth 0 data 0 =? ExtendedFrameStartFlag) ||
            (nth 0 data 0 =? StandardFrameStartFlag)) eqn:Hstart;
    [|exfalso; eapply Hne; [|symmetry; exact Hd]; discriminate].
  cbn [negb] in Hd.
  destruct (nth (length data - 1) data 0 =? StopFrameFlag) eqn:Hstop;
    [|exfalso; eapply Hne; [|symmetry; exact Hd]; discriminate].
  cbn [negb] in Hd.
  destruct (unstuffBytes (slice 1 (length data - 1) data)) as [u|e] eqn:Hun.
  2:{ apply unstuffLoop_error in Hun. subst e.
      exfalso; eapply Hne; [|symmetry; exact Hd]; discriminate. }
  destruct (length u <? 1)%nat eqn:H1;
    [exfalso; eapply Hne; [|symmetry; exact Hd]; discriminate|].
  destruct ((nth 0 data 0 =? ExtendedFrameStartFlag) && (length u <? 3)%nat) eqn:H3;
    [exfalso; eapply Hne; [|symmetry; exact Hd]; discriminate|].
  destruct (Nat.leb (length u)
              (if nth 0 data 0 =? ExtendedFrameStartFlag then 2%nat else 0%nat))
    eqn:Hoff;
    [exfalso; eapply Hne; [|symmetry; exact Hd]; discriminate|].
  apply Nat.ltb_ge in Hlen. apply Nat.leb_gt in Hoff. apply Z.eqb_eq in Hstop.
  repeat split; trivial.
  - unfold isStart. now rewrite orb_comm.
  - eexists (firstn _ u), _, _. split.
    + f_equal. apply split_last_byte. exact Hoff.
    + rewrite length_firstn. lia.
Qed.

Lemma fold_lxor_oddCount (bs : list byte) : forall (acc : Z) (i : Z),
  Z.testbit (fold_left Z.lxor bs acc) i
  = xorb (Z.testbit acc i) (oddCount i bs).
Proof.
  induction bs as [|b bs IH]; intros acc i.
  - cbn. now rewrite xorb_false_r.
  - cbn [fold_left]. rewrite IH, Z.lxor_spec.
    unfold oddCount. cbn [filter].
    destruct (Z.testbit b i); cbn [length].
    + rewrite Nat.odd_succ, <- Nat.negb_odd.
      destruct (Z.testbit acc i), (Nat.odd _); reflexivity.
    + now rewrite xorb_false_r.
Qed.

(** The checksum loop of the code computes the XOR. *)
Lemma xorAll_isXorOf (bs : list byte) : isXorOf (xorAll bs) bs.
Proof.
  intros i. unfold xorAll. rewrite fold_lxor_oddCount, Z.bits_0.
  apply xorb_false_l.
Qed.

(** The XOR of a sequence is one value. *)
Lemma isXorOf_unique (c : byte) (bs : list byte) :
  isXorOf c bs <-> c = xorAll bs.
Proof.
  split.
  - intros H. apply Z.bits_inj. intros i.
    now rewrite H, (xorAll_isXorOf bs i).
  - intros ->. apply xorAll_isXorOf.
Qed.

(** C6: a frame that [DecodeFrame] returns was unstuffed from an
    interior made of the frame's addresses if it is extended, its
    contents, and a last byte that is the XOR of the contents
    (addresses excluded), the XOR being stated bit by bit: bit [i] is
    set exactly when an odd number of contents bytes have it set.
    [DecodeFrame] fails with [ErrInvalidChecksum] exactly when length,
    start flag, stop flag and unstuffing are passed and the last
    unstuffed byte is not the XOR of the bytes between the addresses
    and it.  The bytes [F1 80 00 F2] fail with [ErrInvalidChecksum];
    so do [F1 01 02 01 F2], whose last byte is the first contents byte
    and not the XOR [03]; [F1 01 03 02 F2] decode to the contents
    [01 03], whose XOR [02] is not their bitwise or. *)
Theorem DecodeFrame_checksum :
  (forall data f,
      DecodeFrame data = Ok f ->
      exists c,
        unstuffBytes (slice 1 (length data - 1) data)
          = Ok ((if Extended f then [Destination f; Source f] else [])
                ++ Contents f ++ [c]) /\
        isXorOf c (Contents f)) /\
  (forall data,
      DecodeFrame data = Err ErrInvalidChecksum <->
      (4 <= length data)%nat /\
      isStart (nth 0 data 0) = true /\
      nth (length data - 1) data 0 = StopFrameFlag /\
      exists addr contents c,
        unstuffBytes (slice 1 (length data - 1) data)
          = Ok (addr ++ contents ++ [c]) /\
        length addr
          = (if nth 0 data 0 =? ExtendedFrameStartFlag then 2%nat else 0%nat) /\
        ~ isXorOf c contents) /\
  DecodeFrame [0xF1; 0x80; 0x00; 0xF2] = Err ErrInvalidChecksum /\
  DecodeFrame [0xF1; 0x01; 0x02; 0x01; 0xF2] = Err ErrInvalidChecksum /\
  DecodeFrame [0xF1; 0x01; 0x03; 0x02; 0xF2]
    = Ok (mkFrame false 0 0 [0x01; 0x03]).
Proof.
  split; [|split; [|repeat split; reflexivity]].
  - intros data f Hd.
    destruct (DecodeFrame_reaches_checksum data (Ok f) Hd)
      as (Hlen & Hstart & Hstop & addr & contents & c & Hun & Haddr);
      [left; eauto|].
    rewrite (DecodeFrame_checked data addr contents c) in Hd by assumption.
    destruct (xorAll contents =? c) eqn:Hx; [|discriminate].
    apply Z.eqb_eq in Hx. injection Hd as <-.
    cbn [Extended Destination Source Contents].
    exists c. split.
    + rewrite Hun.
      destruct (nth 0 data 0 =? ExtendedFrameStartFlag).
      * destruct addr as [|d [|s [|? ?]]]; try discriminate Haddr. reflexivity.
      * destruct addr; try discriminate Haddr. reflexivity.
    + apply isXorOf_unique. now symmetry.
  - intros data. split.
    + intros Hd.
      destruct (DecodeFrame_reaches_checksum data _ Hd)
        as (Hlen & Hstart & Hstop & addr & contents & c & Hun & Haddr);
        [now right|].
      repeat split; trivial. exists addr, contents, c.
      repeat split; trivial.
      rewrite (DecodeFrame_checked data addr contents c) in Hd by assumption.
      destruct (xorAll contents =? c) eqn:Hx; [discriminate|].
      apply Z.eqb_neq in Hx. intros Hxor.
      apply isXorOf_unique in Hxor. now apply Hx.
    + intros (Hlen & Hstart & Hstop & addr & contents & c & Hun & Haddr & Hx).
      rewrite (DecodeFrame_checked data addr contents c) by assumption.
      destruct (xorAll contents =? c) eqn:Heq; [|reflexivity].
      exfalso. apply Hx, isXorOf_unique. apply Z.eqb_eq in Heq. now symmetry.
Qed.

Lemma DecodeFrame_checksum_witness :
  exists c,
    unstuffBytes (slice 1 (length [0xF1; 0xF3; 0x01; 0x00; 0xF3; 0x01; 0xF2] - 1)
                    [0xF1; 0xF3; 0x01; 0x00; 0xF3; 0x01; 0xF2])
    = Ok ([] ++ [0xF1; 0x00] ++ [c]) /\
    isXorOf c [0xF1; 0x00].
Proof.
  apply (proj1 DecodeFrame_checksum
           [0xF1; 0xF3; 0x01; 0x00; 0xF3; 0x01; 0xF2]
           (mkFrame false 0 0 [0xF1; 0x00])).
  reflexivity.
Defined.

(* ================================================================= *)
(** ** Response parser *)

Lemma skipn_prefix {A} (pre l : list A) (n : nat) :
  skipn (length pre + n) (pre ++ l) = skipn n l.
Proof.
  rewrite skipn_app, skipn_all2 by lia.
  replace (length pre + n - length pre)%nat with n by lia. reflexivity.
Qed.

Lemma nth_prefix {A} (pre l : list A) (n : nat) (d : A) :
  nth (length pre + n) (pre ++ l) d = nth n l d.
Proof.
  rewrite app_nth2 by lia. f_equal. lia.
Qed.

Lemma takeData_prefix (pre data : list byte) (offset : nat) (byteCount : byte) :
  takeData (pre ++ data) (length pre + offset) byteCount =
  (fst (takeData data offset byteCount),
   (length pre + snd (takeData data offset byteCount))%nat).
Proof.
  unfold takeData. destruct (0 <? byteCount); [|reflexivity].
  rewrite length_app.
  destruct (length data <? offset + Z.to_nat byteCount)%nat eqn:E.
  - replace (length pre + length data <? length pre + offset + Z.to_nat byteCount)%nat
      with true by (symmetry; apply Nat.ltb_lt; apply Nat.ltb_lt in E; lia).
    cbn [fst snd]. now rewrite skipn_prefix.
  - replace (length pre + length data <? length pre + offset + Z.to_nat byteCount)%nat
      with false by (symmetry; apply Nat.ltb_ge; apply Nat.ltb_ge in E; lia).
    cbn [fst snd]. unfold slice. rewrite skipn_prefix.
    f_equal; [f_equal; lia | lia].
Qed.

Lemma takeData_offset (data : list byte) (offset : nat) (byteCount : byte) :
  (offset <= length data)%nat ->
  (offset <= snd (takeData data offset byteCount) <= length data)%nat.
Proof.
  intros H. unfold takeData. destruct (0 <? byteCount); [|simpl; lia].
  destruct (length data <? offset + Z.to_nat byteCount)%nat eqn:E; simpl.
  - lia.
  - apply Nat.ltb_ge in E. lia.
Qed.

(** The accumulated responses are only appended to. *)
Lemma pmWrapperLoop_acc fuel data : forall offset acc1 acc2,
  pmWrapperLoop fuel data offset (acc1 ++ acc2) =
  acc1 ++ pmWrapperLoop fuel data offset acc2.
Proof.
  induction fuel as [|fuel IH]; intros offset acc1 acc2; simpl; [reflexivity|].
  destruct (offset <? length data)%nat; [|reflexivity].
  destruct (length data <=? offset + 1)%nat; [now rewrite app_assoc|].
  destruct (takeData data (offset + 1 + 1) (nth (offset + 1) data 0)) as [d o].
  rewrite <- app_assoc. apply IH.
Qed.

(** Fuel beyond the bytes left changes nothing: the loop of
    [parsePMWrapperData] ends by its own condition. *)
Lemma pmWrapperLoop_fuel fuel : forall data offset acc k,
  (length data - offset <= fuel)%nat ->
  pmWrapperLoop (fuel + k) data offset acc = pmWrapperLoop fuel data offset acc.
Proof.
  induction fuel as [|fuel IH]; intros data offset acc k Hf.
  - simpl. destruct k; simpl; [reflexivity|].
    replace (offset <? length data)%nat with false
      by (symmetry; apply Nat.ltb_ge; lia).
    reflexivity.
  - simpl. destruct (offset <? length data)%nat eqn:Ho; [|reflexivity].
    destruct (length data <=? offset + 1)%nat eqn:H1; [reflexivity|].
    apply Nat.leb_gt in H1.
    pose proof (takeData_offset data (offset + 1 + 1) (nth (offset + 1) data 0)) as Ht.
    destruct (takeData data (offset + 1 + 1) (nth (offset + 1) data 0)) as [d o].
    simpl in Ht. apply IH. lia.
Qed.

(** The loop reads its buffer relative to the offset only. *)
Lemma pmWrapperLoop_prefix fuel (pre data : list byte) : forall offset acc,
  pmWrapperLoop fuel (pre ++ data) (length pre + offset) acc =
  pmWrapperLoop fuel data offset acc.
Proof.
  induction fuel as [|fuel IH]; intros offset acc; simpl; [reflexivity|].
  rewrite length_app.
  replace (length pre + offset <? length pre + length data)%nat
    with (offset <? length data)%nat
    by (destruct (offset <? length data)%nat eqn:E; symmetry;
        [apply Nat.ltb_lt; apply Nat.ltb_lt in E | apply Nat.ltb_ge; apply Nat.ltb_ge in E];
        lia).
  destruct (offset <? length data)%nat; [|reflexivity].
  replace (length pre + length data <=? length pre + offset + 1)%nat
    with (length data <=? offset + 1)%nat
    by (destruct (length data <=? offset + 1)%nat eqn:E; symmetry;
        [apply Nat.leb_le; apply Nat.leb_le in E | apply Nat.leb_gt; apply Nat.leb_gt in E];
        lia).
  rewrite nth_prefix.
  destruct (length data <=? offset + 1)%nat; [reflexivity|].
  replace (length pre + offset + 1)%nat with (length pre + (offset + 1))%nat by lia.
  rewrite nth_prefix.
  replace (length pre + (offset + 1) + 1)%nat
    with (length pre + (offset + 1 + 1))%nat by lia.
  rewrite takeData_prefix.
  destruct (takeData data (offset + 1 + 1) (nth (offset + 1) data 0)) as [d o].
  cbn [fst snd]. apply IH.
Qed.

Lemma attachPM_empty (cmd byteCount : byte) :
  attachPM (mkCommandResponse cmd byteCount [] []) =
  mkCommandResponse cmd byteCount [] [].
Proof.
  unfold attachPM. cbn [Command ByteCount Data length Nat.ltb Nat.leb].
  now rewrite andb_false_r.
Qed.

(** [ParseResponse]'s loop is that of [parsePMWrapperData] with the
    nested parse attached to each record. *)
Lemma responseLoop_attach fuel contents : forall offset acc,
  responseLoop fuel contents offset (map attachPM acc) =
  map attachPM (pmWrapperLoop fuel contents offset acc).
Proof.
  induction fuel as [|fuel IH]; intros offset acc; simpl; [reflexivity|].
  destruct (offset <? length contents)%nat; [|reflexivity].
  destruct (length contents <=? offset + 1)%nat.
  - rewrite map_app. cbn [map]. now rewrite attachPM_empty.
  - destruct (takeData contents (offset + 1 + 1) (nth (offset + 1) contents 0))
      as [d o].
    rewrite <- IH, map_app. reflexivity.
Qed.

(** Likewise for [ParseResponse]: the fuel it is given is enough. *)
Lemma responseLoop_fuel (contents : list byte) (k : nat) :
  responseLoop (length contents + k) contents 1 [] =
  responseLoop (length contents) contents 1 [].
Proof.
  change (@nil CommandResponse) with (map attachPM []).
  rewrite !responseLoop_attach. f_equal.
  apply pmWrapperLoop_fuel. lia.
Qed.

Lemma ParseResponse_cons (status : byte) (rest : list byte) :
  ParseResponse (status :: rest) =
  Ok (mkResponse status
        (negb (Z.land status StatusFrameToggleMask =? 0))
        (Z.land status StatusPrevFrameStatusMask)
        (Z.land status StatusStateMask)
        (map attachPM (parsePMWrapperData rest))).
Proof.
  unfold ParseResponse. cbn [length Nat.ltb Nat.leb nth].
  do 2 f_equal.
  change (@nil CommandResponse) with (map attachPM []).
  rewrite responseLoop_attach. f_equal.
  change (status :: rest) with ([status] ++ rest).
  change 1%nat with (length [status] + 0)%nat.
  rewrite pmWrapperLoop_prefix. unfold parsePMWrapperData.
  change (length ([status] ++ rest)) with (S (length rest)).
  replace (S (length rest)) with (length rest + 1)%nat by lia.
  apply pmWrapperLoop_fuel. lia.
Qed.

Lemma pmWrapperLoop_S fuel data offset responses :
  pmWrapperLoop (S fuel) data offset responses =
  if (offset <? length data)%nat then
    if (length data <=? offset + 1)%nat then
      responses ++ [mkCommandResponse (nth offset data 0) 0 [] []]
    else
      pmWrapperLoop fuel data
        (snd (takeData data (offset + 1 + 1) (nth (offset + 1) data 0)))
        (responses ++
         [mkCommandResponse (nth offset data 0) (nth (offset + 1) data 0)
            (fst (takeData data (offset + 1 + 1) (nth (offset + 1) data 0)))
            []])
  else responses.
Proof.
  simpl.
  destruct (takeData data (offset + 1 + 1) (nth (offset + 1) data 0));
    reflexivity.
Qed.

Lemma takeData_complete (data rest : list byte) (byteCount : byte) :
  0 <= byteCount ->
  length data = Z.to_nat byteCount ->
  takeData (data ++ rest) 0 byteCount = (data, length data).
Proof.
  intros Hb Hl. unfold takeData.
  destruct (0 <? byteCount) eqn:E.
  - rewrite length_app.
    replace (length data + length rest <? 0 + Z.to_nat byteCount)%nat with false
      by (symmetry; apply Nat.ltb_ge; lia).
    unfold slice. cbn [skipn]. rewrite <- Hl.
    replace (0 + length data - 0)%nat with (length data) by lia.
    rewrite firstn_app, firstn_all, Nat.sub_diag. simpl.
    now rewrite app_nil_r.
  - apply Z.ltb_ge in E. assert (byteCount = 0) as -> by lia.
    destruct data; [reflexivity | discriminate].
Qed.

(** One complete record is parsed as such, and the walk goes on after it. *)
Lemma parsePMWrapperData_record (cmd byteCount : byte) (data rest : list byte) :
  0 <= byteCount ->
  length data = Z.to_nat byteCount ->
  parsePMWrapperData (cmd :: byteCount :: data ++ rest) =
  mkCommandResponse cmd byteCount data [] :: parsePMWrapperData rest.
Proof.
  intros Hb Hl.
  assert (Ht : takeData (cmd :: byteCount :: data ++ rest) 2 byteCount
               = (data, length ([cmd; byteCount] ++ data) + 0)%nat).
  { change (cmd :: byteCount :: data ++ rest)
      with ([cmd; byteCount] ++ data ++ rest).
    change 2%nat with (length [cmd; byteCount] + 0)%nat at 1.
    rewrite takeData_prefix, takeData_complete by assumption.
    cbn [fst snd]. rewrite length_app. f_equal. lia. }
  unfold parsePMWrapperData.
  cbn [length]. rewrite pmWrapperLoop_S.
  cbn [length Nat.ltb Nat.leb Nat.add nth app].
  rewrite Ht. cbn [fst snd].
  change (cmd :: byteCount :: data ++ rest)
    with (([cmd; byteCount] ++ data) ++ rest).
  rewrite pmWrapperLoop_prefix.
  change [mkCommandResponse cmd byteCount data []]
    with ([mkCommandResponse cmd byteCount data []] ++ []).
  rewrite pmWrapperLoop_acc. cbn [app]. f_equal.
  rewrite length_app.
  replace (S (length data + length rest))
    with (length rest + S (length data))%nat by lia.
  apply pmWrapperLoop_fuel. lia.
Qed.

Lemma parsePMWrapperData_app (recs rest : list byte) :
  Records recs ->
  parsePMWrapperData (recs ++ rest) =
  parsePMWrapperData recs ++ parsePMWrapperData rest.
Proof.
  induction 1 as [|cmd byteCount data recs' Hb Hl _ IH]; [reflexivity|].
  cbn [app]. rewrite <- app_assoc.
  rewrite !parsePMWrapperData_record by assumption.
  now rewrite IH.
Qed.

(** A record whose declared count exceeds what is left. *)
Lemma parsePMWrapperData_truncated (cmd byteCount : byte) (tail : list byte) :
  Z.of_nat (length tail) < byteCount ->
  parsePMWrapperData (cmd :: byteCount :: tail) =
  [mkCommandResponse cmd byteCount tail []].
Proof.
  intros Hb. unfold parsePMWrapperData.
  cbn [length]. rewrite pmWrapperLoop_S.
  cbn [length Nat.ltb Nat.leb Nat.add nth app].
  unfold takeData.
  replace (0 <? byteCount) with true by (symmetry; apply Z.ltb_lt; lia).
  cbn [length].
  replace (S (S (length tail)) <? 2 + Z.to_nat byteCount)%nat with true
    by (symmetry; apply Nat.ltb_lt; lia).
  cbn [skipn]. rewrite pmWrapperLoop_S.
  cbn [length]. rewrite Nat.ltb_irrefl. reflexivity.
Qed.

(** An opcode with no byte count after it. *)
Lemma parsePMWrapperData_lone (cmd : byte) :
  parsePMWrapperData [cmd] = [mkCommandResponse cmd 0 [] []].
Proof. reflexivity. Qed.

(** C7: [ParseResponse] returns a response for every non-empty
    contents.  After any run of complete records, a record whose
    declared byte count exceeds the bytes left is recorded last, with
    the declared count and the bytes that are left (and their nested
    parse if it is a vendor wrapper); an opcode with no byte count
    after it is recorded last with count zero and no data.
    [parsePMWrapperData] does the same inside a wrapper. *)
Theorem ParseResponse_tolerates_truncation :
  (forall contents, contents <> [] ->
     exists resp, ParseResponse contents = Ok resp) /\
  (forall status recs cmd byteCount tail,
     Records recs ->
     Z.of_nat (length tail) < byteCount ->
     exists r0 r1,
       ParseResponse (status :: recs) = Ok r0 /\
       ParseResponse (status :: recs ++ cmd :: byteCount :: tail) = Ok r1 /\
       CommandData r1 =
         CommandData r0 ++
         [mkCommandResponse cmd byteCount tail
            (if isPMWrapper cmd && (0 <? length tail)%nat
             then parsePMWrapperData tail else [])]) /\
  (forall status recs cmd,
     Records recs ->
     exists r0 r1,
       ParseResponse (status :: recs) = Ok r0 /\
       ParseResponse (status :: recs ++ [cmd]) = Ok r1 /\
       CommandData r1 = CommandData r0 ++ [mkCommandResponse cmd 0 [] []]) /\
  (forall recs cmd byteCount tail,
     Records recs ->
     Z.of_nat (length tail) < byteCount ->
     parsePMWrapperData (recs ++ cmd :: byteCount :: tail) =
     parsePMWrapperData recs ++ [mkCommandResponse cmd byteCount tail []]) /\
  (forall recs cmd,
     Records recs ->
     parsePMWrapperData (recs ++ [cmd]) =
     parsePMWrapperData recs ++ [mkCommandResponse cmd 0 [] []]).
Proof.
  repeat apply conj.
  - intros [|status rest] H; [congruence|].
    rewrite ParseResponse_cons. eauto.
  - intros status recs cmd byteCount tail HR Hb.
    rewrite !ParseResponse_cons. do 2 eexists.
    split; [reflexivity|]. split; [reflexivity|].
    cbn [CommandData].
    rewrite parsePMWrapperData_app, parsePMWrapperData_truncated, map_app
      by assumption.
    reflexivity.
  - intros status recs cmd HR.
    rewrite !ParseResponse_cons. do 2 eexists.
    split; [reflexivity|]. split; [reflexivity|].
    cbn [CommandData].
    rewrite parsePMWrapperData_app, parsePMWrapperData_lone, map_app
      by assumption.
    cbn [map]. now rewrite attachPM_empty.
  - intros recs cmd byteCount tail HR Hb.
    now rewrite parsePMWrapperData_app, parsePMWrapperData_truncated.
  - intros recs cmd HR.
    now rewrite parsePMWrapperData_app, parsePMWrapperData_lone.
Qed.

Lemma ParseResponse_tolerates_truncation_witness :
  exists r0 r1,
    ParseResponse (0x01 :: [0xB3; 0x01; 0x18]) = Ok r0 /\
    ParseResponse (0x01 :: [0xB3; 0x01; 0x18] ++ 0x7F :: 0x06 :: [0xC1; 0x04; 0x87])
      = Ok r1 /\
    CommandData r1 =
      CommandData r0 ++
      [mkCommandResponse 0x7F 0x06 [0xC1; 0x04; 0x87]
         (if isPMWrapper 0x7F && (0 <? length [0xC1; 0x04; 0x87])%nat
          then parsePMWrapperData [0xC1; 0x04; 0x87] else [])].
Proof.
  apply (proj1 (proj2 ParseResponse_tolerates_truncation)).
  - apply (Records_cons 0xB3 0x01 [0x18] []); [lia | reflexivity | constructor].
  - simpl. lia.
Defined.

(* ================================================================= *)
(** ** Command builders *)

Lemma fold_total_size (commands : list (list byte)) : forall n,
  fold_left (fun n cmd => (n + length cmd)%nat) commands n =
  (n + length (concat commands))%nat.
Proof.
  induction commands as [|c cs IH]; intros n; simpl; [lia|].
  rewrite IH, length_app. lia.
Qed.

Lemma fold_copy (commands : list (list byte)) : forall acc,
  fold_left (fun acc cmd => acc ++ cmd) commands acc = acc ++ concat commands.
Proof.
  induction commands as [|c cs IH]; intros acc; simpl.
  - now rewrite app_nil_r.
  - now rewrite IH, app_assoc.
Qed.

Lemma BuildPMCommand_eq (wrapper : byte) (commands : list (list byte)) :
  BuildPMCommand wrapper commands =
  wrapper :: (Z.of_nat (length (concat commands)) mod 256) :: concat commands.
Proof.
  unfold BuildPMCommand. now rewrite fold_total_size, fold_copy.
Qed.

(** C10: the length byte that [BuildPMCommand] writes after the
    wrapper opcode is the total length of the inner commands modulo
    256, followed by all the inner bytes; it equals the total exactly
    when the total is at most 255.  [BuildCommand] given more than 255
    data bytes writes their number modulo 256 after the opcode,
    followed by all the data.  Neither builder has an error result. *)
Theorem builders_length_byte_wraps :
  (forall (wrapper : byte) (commands : list (list byte)),
     BuildPMCommand wrapper commands =
       wrapper :: (Z.of_nat (length (concat commands)) mod 256)
               :: concat commands /\
     (nth 1 (BuildPMCommand wrapper commands) 0
        = Z.of_nat (length (concat commands))
      <-> (length (concat commands) <= 255)%nat)) /\
  (forall (cmd : byte) (data : list byte),
     (255 < length data)%nat ->
     BuildCommand cmd data =
       cmd :: (Z.of_nat (length data) mod 256) :: data /\
     nth 1 (BuildCommand cmd data) 0 = Z.of_nat (length data) mod 256 /\
     nth 1 (BuildCommand cmd data) 0 <> Z.of_nat (length data)).
Proof.
  split.
  - intros wrapper commands. rewrite BuildPMCommand_eq. split; [reflexivity|].
    cbn [nth]. split.
    + intros H.
      pose proof (Z.mod_pos_bound (Z.of_nat (length (concat commands))) 256).
      lia.
    + intros H. apply Z.mod_small. lia.
  - intros cmd data Hlen. unfold BuildCommand.
    replace (length data =? 0)%nat with false
      by (symmetry; apply Nat.eqb_neq; lia).
    rewrite andb_false_r. cbn [nth]. repeat split.
    pose proof (Z.mod_pos_bound (Z.of_nat (length data)) 256). lia.
Qed.

Lemma builders_length_byte_wraps_witness :
  BuildCommand 0x35 (repeat 0x20 256) =
    0x35 :: (Z.of_nat (length (repeat 0x20 256)) mod 256) :: repeat 0x20 256 /\
  nth 1 (BuildCommand 0x35 (repeat 0x20 256)) 0
    = Z.of_nat (length (repeat 0x20 256)) mod 256 /\
  nth 1 (BuildCommand 0x35 (repeat 0x20 256)) 0
    <> Z.of_nat (length (repeat 0x20 256)).
Proof.
  apply (proj2 builders_length_byte_wraps 0x35 (repeat 0x20 256)).
  rewrite repeat_length. lia.
Defined.

(* ================================================================= *)
(** ** Transaction engine: frame extraction *)

Lemma not_start_not_stop b : isStart b = true -> isStop b = false.
Proof.
  unfold isStart, isStop, StandardFrameStartFlag, ExtendedFrameStartFlag,
    StopFrameFlag.
  intros H. apply orb_true_iff in H. apply Z.eqb_neq. lia.
Qed.

Lemma scanLoop_step b rest i s :
  scanLoop (b :: rest) i s =
  if isStop b && (0 <=? (if isStart b then i else s))
  then (if isStart b then i else s, i)
  else scanLoop rest (i + 1) (if isStart b then i else s).
Proof. reflexivity. Qed.

(** Before any start sentinel nothing is recorded, stops included. *)
Lemma scanLoop_no_start a : forall rest i,
  Forall (fun b => isStart b = false) a ->
  scanLoop (a ++ rest) i (-1) = scanLoop rest (i + Z.of_nat (length a)) (-1).
Proof.
  induction a as [|b a IH]; intros rest i H.
  - simpl. f_equal. lia.
  - inversion H as [|? ? Hb Ha]; subst.
    cbn [app]. rewrite scanLoop_step, Hb. cbn [Z.leb Z.compare].
    rewrite andb_false_r, IH by assumption.
    f_equal. cbn [length]. lia.
Qed.

(** Without a stop the scan runs on; the start index it carries is
    decided by the bytes passed. *)
Lemma scanLoop_no_stop a : forall i s,
  Forall (fun b => isStop b = false) a ->
  exists s', forall rest,
    scanLoop (a ++ rest) i s = scanLoop rest (i + Z.of_nat (length a)) s'.
Proof.
  induction a as [|b a IH]; intros i s H.
  - exists s. intros rest. simpl. f_equal. lia.
  - inversion H as [|? ? Hb Ha]; subst.
    destruct (IH (i + 1) (if isStart b then i else s) Ha) as [s' Hs'].
    exists s'. intros rest.
    cbn [app]. rewrite scanLoop_step, Hb. cbn [andb].
    rewrite Hs'. f_equal. cbn [length]. lia.
Qed.

(** Neither start nor stop: the start index is kept. *)
Lemma scanLoop_plain m : forall rest i s,
  Forall (fun b => isStart b = false /\ isStop b = false) m ->
  scanLoop (m ++ rest) i s = scanLoop rest (i + Z.of_nat (length m)) s.
Proof.
  induction m as [|b m IH]; intros rest i s H.
  - simpl. f_equal. lia.
  - inversion H as [|? ? [Hb1 Hb2] Hm]; subst.
    cbn [app]. rewrite scanLoop_step, Hb1, Hb2. cbn [andb].
    rewrite IH by assumption. f_equal. cbn [length]. lia.
Qed.

Lemma slice_middle {A} (pre mid post : list A) :
  slice (length pre) (length pre + length mid) (pre ++ mid ++ post) = mid.
Proof.
  unfold slice. rewrite skipn_app, skipn_all, Nat.sub_diag. cbn [skipn app].
  replace (length pre + length mid - length pre)%nat with (length mid) by lia.
  rewrite firstn_app, firstn_all, Nat.sub_diag. cbn [firstn].
  apply app_nil_r.
Qed.

(** The slice that is decoded: from the last start sentinel before the
    first stop that follows a start sentinel, to that stop. *)
Lemma extractFrame_found (a1 a2 m post : list byte) (st : byte) :
  Forall (fun b => isStart b = false) a1 ->
  Forall (fun b => isStop b = false) a2 ->
  isStart st = true ->
  Forall (fun b => isStart b = false /\ isStop b = false) m ->
  extractFrame (a1 ++ a2 ++ st :: m ++ StopFrameFlag :: post)
  = Some (st :: m ++ [StopFrameFlag]).
Proof.
  intros H1 H2 Hst Hm. unfold extractFrame.
  rewrite scanLoop_no_start by assumption.
  destruct (scanLoop_no_stop a2 (0 + Z.of_nat (length a1)) (-1) H2) as [s' Hs'].
  rewrite Hs'.
  rewrite scanLoop_step, Hst, (not_start_not_stop _ Hst). cbn [andb].
  rewrite scanLoop_plain by assumption.
  rewrite scanLoop_step.
  change (isStop StopFrameFlag) with true.
  change (isStart StopFrameFlag) with false. cbn [andb].
  set (sidx := 0 + Z.of_nat (length a1) + Z.of_nat (length a2)).
  replace (0 <=? sidx) with true by (symmetry; apply Z.leb_le; lia).
  replace (sidx <? 0) with false by (symmetry; apply Z.ltb_ge; lia).
  replace (sidx + 1 + Z.of_nat (length m) <? 0) with false
    by (symmetry; apply Z.ltb_ge; lia).
  cbn [orb]. f_equal.
  replace (Z.to_nat sidx) with (length (a1 ++ a2))
    by (rewrite length_app; lia).
  replace (Z.to_nat (sidx + 1 + Z.of_nat (length m) + 1))
    with (length (a1 ++ a2) + length (st :: m ++ [StopFrameFlag]))%nat
    by (cbn [length]; rewrite !length_app; cbn [length]; lia).
  replace (a1 ++ a2 ++ st :: m ++ StopFrameFlag :: post)
    with ((a1 ++ a2) ++ (st :: m ++ [StopFrameFlag]) ++ post)
    by (rewrite <- !app_assoc; cbn [app]; rewrite <- app_assoc; reflexivity).
  apply slice_middle.
Qed.

Lemma scanLoop_started data : forall i s,
  0 <= i -> 0 <= s ->
  0 <= fst (scanLoop data i s) /\
  ((snd (scanLoop data i s) = -1 /\ Forall (fun b => isStop b = false) data) \/
   0 <= snd (scanLoop data i s)).
Proof.
  induction data as [|b rest IH]; intros i s Hi Hs.
  - simpl. split; [lia|]. left. split; [reflexivity | constructor].
  - rewrite scanLoop_step.
    assert (Hs' : 0 <= (if isStart b then i else s)) by (destruct (isStart b); lia).
    replace (0 <=? (if isStart b then i else s)) with true
      by (symmetry; apply Z.leb_le; exact Hs').
    rewrite andb_true_r. destruct (isStop b) eqn:Hb.
    + cbn [fst snd]. split; [exact Hs' | right; exact Hi].
    + destruct (IH (i + 1) (if isStart b then i else s) ltac:(lia) Hs')
        as [H1 [[H2 H3] | H2]].
      * split; [exact H1|]. left. split; [exact H2 | now constructor].
      * split; [exact H1 | right; exact H2].
Qed.

Lemma scanLoop_fresh data : forall i,
  0 <= i ->
  fst (scanLoop data i (-1)) < 0 \/ snd (scanLoop data i (-1)) < 0 ->
  exists a1 a2,
    data = a1 ++ a2 /\
    Forall (fun b => isStart b = false) a1 /\
    Forall (fun b => isStop b = false) a2.
Proof.
  induction data as [|b rest IH]; intros i Hi Hfail.
  - exists [], []. repeat split; constructor.
  - rewrite scanLoop_step in Hfail. destruct (isStart b) eqn:Hb.
    + rewrite (not_start_not_stop _ Hb) in Hfail. cbn [andb] in Hfail.
      destruct (scanLoop_started rest (i + 1) i ltac:(lia) Hi)
        as [H1 [[H2 H3] | H2]]; [|cbn [fst snd] in Hfail; lia].
      exists [], (b :: rest). repeat split; try constructor; trivial.
      now apply not_start_not_stop.
    + cbn [Z.leb Z.compare] in Hfail. rewrite andb_false_r in Hfail.
      destruct (IH (i + 1)) as (a1 & a2 & -> & H1 & H2); [lia | exact Hfail |].
      exists (b :: a1), a2. repeat split; trivial. now constructor.
Qed.

Lemma extractFrame_none (data : list byte) :
  extractFrame data = None <->
  exists a1 a2,
    data = a1 ++ a2 /\
    Forall (fun b => isStart b = false) a1 /\
    Forall (fun b => isStop b = false) a2.
Proof.
  unfold extractFrame. split.
  - intros H. apply (scanLoop_fresh data 0); [lia|].
    destruct (scanLoop data 0 (-1)) as [s e]. cbn [fst snd].
    destruct ((s <? 0) || (e <? 0)) eqn:E; [|discriminate].
    apply orb_true_iff in E as [E | E]; apply Z.ltb_lt in E; lia.
  - intros (a1 & a2 & -> & H1 & H2).
    rewrite scanLoop_no_start by assumption.
    destruct (scanLoop_no_stop a2 (0 + Z.of_nat (length a1)) (-1) H2) as [s' Hs'].
    rewrite <- (app_nil_r a2), Hs'. cbn [scanLoop Z.ltb Z.compare].
    now rewrite orb_true_r.
Qed.

Lemma decodeAndParse_not_invalid framed :
  decodeAndParse framed <> Failed ErrInvalidResponse.
Proof.
  unfold decodeAndParse.
  destruct (DecodeFrame framed); [|discriminate].
  destruct (ParseResponse _) as [resp|]; [|discriminate].
  destruct (PrevFrameStatus resp =? PrevFrameStatusReject); discriminate.
Qed.

(** Once the frame is written, the outcome of [sendCommand] is what is
    made of the bytes read. *)
Lemma sendCommand_read (p : PM5) (w : World) (contents encoded data : list byte) :
  connected p = true ->
  EncodeFrame (mkFrame false 0 0 contents) = Ok encoded ->
  writeResult w = None ->
  readResult w = inr data ->
  snd (sendCommand p w contents) = interpret data.
Proof.
  intros Hc He Hw Hr. unfold sendCommand.
  rewrite Hc, He, Hw, Hr. cbn [negb].
  destruct (gateSleep p (sinceAt w)); reflexivity.
Qed.

(** C4 as stated fails on a packet with two start sentinels before the
    stop: the slice that is decoded starts at the second one. *)
Lemma extraction_starts_at_last_start :
  let data := [0xF0; 0xF1; 0x80; 0x80; 0xF2] in
  isStart (nth 0 data 0) = true /\
  isStart (nth 1 data 0) = true /\
  extractFrame data = Some [0xF1; 0x80; 0x80; 0xF2] /\
  extractFrame data <> Some data /\
  interpret data <> decodeAndParse data.
Proof.
  cbv zeta. repeat split; try reflexivity; vm_compute; discriminate.
Qed.

(** C4 (amended): after a successful write and read, [sendCommand]
    decodes the slice that runs from the last start sentinel ([0xF1] or
    [0xF0]) before the first [0xF2] that follows a start sentinel, up to
    and including that [0xF2]; it fails with [ErrInvalidResponse]
    exactly when the packet is a part without start sentinel followed
    by a part without [0xF2], that is, when there is no start sentinel
    or no [0xF2] after the first one. *)
Theorem sendCommand_frame_extraction
    (p : PM5) (w : World) (contents encoded data : list byte) :
  connected p = true ->
  EncodeFrame (mkFrame false 0 0 contents) = Ok encoded ->
  writeResult w = None ->
  readResult w = inr data ->
  (forall a1 a2 st m post,
     data = a1 ++ a2 ++ st :: m ++ StopFrameFlag :: post ->
     Forall (fun b => isStart b = false) a1 ->
     Forall (fun b => isStop b = false) a2 ->
     isStart st = true ->
     Forall (fun b => isStart b = false /\ isStop b = false) m ->
     snd (sendCommand p w contents) = decodeAndParse (st :: m ++ [StopFrameFlag])) /\
  (snd (sendCommand p w contents) = Failed ErrInvalidResponse <->
   exists a1 a2,
     data = a1 ++ a2 /\
     Forall (fun b => isStart b = false) a1 /\
     Forall (fun b => isStop b = false) a2).
Proof.
  intros Hc He Hw Hr.
  rewrite (sendCommand_read p w contents encoded data) by assumption.
  unfold interpret. split.
  - intros a1 a2 st m post -> H1 H2 Hst Hm.
    now rewrite extractFrame_found.
  - rewrite <- extractFrame_none.
    destruct (extractFrame data) as [framed|]; split; try reflexivity.
    + intros H. now apply decodeAndParse_not_invalid in H.
    + discriminate.
Qed.

Lemma sendCommand_frame_extraction_witness :
  snd (sendCommand (mkPM5 true false 50000000 0)
         (mkWorld 60000000 0 0 0 None 0
            (inr [0x00; 0xF2; 0xF0; 0xF1; 0x01; 0x01; 0xF2; 0xF1]))
         [0x80])
  = decodeAndParse (0xF1 :: [0x01; 0x01] ++ [StopFrameFlag]).
Proof.
  refine (proj1 (sendCommand_frame_extraction
            (mkPM5 true false 50000000 0)
            (mkWorld 60000000 0 0 0 None 0
               (inr [0x00; 0xF2; 0xF0; 0xF1; 0x01; 0x01; 0xF2; 0xF1]))
            [0x80] [0xF1; 0x80; 0x80; 0xF2]
            [0x00; 0xF2; 0xF0; 0xF1; 0x01; 0x01; 0xF2; 0xF1]
            eq_refl eq_refl eq_refl eq_refl)
          [0x00; 0xF2] [0xF0] 0xF1 [0x01; 0x01] [0xF1] eq_refl _ _ eq_refl _);
    repeat constructor.
Defined.

(* ================================================================= *)
(** ** Transaction engine: inter-frame gate *)

Lemma wrap64_small z : 0 <= z < 2 ^ 63 -> wrap64 z = z.
Proof.
  intros H. unfold wrap64. rewrite Z.mod_small; lia.
Qed.

(** The gate under a clock that does not run backwards, for the gap
    that [New] sets. *)
Lemma gateSleep_gap (p : PM5) (now : Z) :
  interframeDur p = MinInterframeGapMs * Millisecond ->
  lastCommand p <= now ->
  gateSleep p now =
  if now - lastCommand p <? MinInterframeGapMs * Millisecond
  then Some (MinInterframeGapMs * Millisecond - (now - lastCommand p))
  else None.
Proof.
  intros Hg Hm. unfold gateSleep, Sub, maxDuration, minDuration. rewrite Hg.
  unfold MinInterframeGapMs, Millisecond in *.
  destruct (now - lastCommand p <? 50 * 1000000) eqn:E.
  - apply Z.ltb_lt in E.
    replace (Z.max (- 2 ^ 63) (Z.min (2 ^ 63 - 1) (now - lastCommand p)))
      with (now - lastCommand p) by lia.
    replace (now - lastCommand p <? 50 * 1000000) with true
      by (symmetry; apply Z.ltb_lt; lia).
    rewrite wrap64_small by lia. reflexivity.
  - apply Z.ltb_ge in E.
    replace (Z.max (- 2 ^ 63) (Z.min (2 ^ 63 - 1) (now - lastCommand p)) <?
             50 * 1000000) with false
      by (symmetry; apply Z.ltb_ge; lia).
    reflexivity.
Qed.

(** [sendCommand] up to the write, for a connected session. *)
Lemma sendCommand_written (p : PM5) (w : World) (contents encoded : list byte) :
  connected p = true ->
  EncodeFrame (mkFrame false 0 0 contents) = Ok encoded ->
  let slept :=
    match gateSleep p (sinceAt w) with Some d => [EvSleep d] | None => [] end in
  let t :=
    match gateSleep p (sinceAt w) with
    | Some d => sinceAt w + Z.max 0 d + oversleep w
    | None => sinceAt w
    end in
  let starts := t + writeStartDelay w in
  let ends := starts + writeDuration w in
  sleepOf (snd (fst (sendCommand p w contents)))
    = gateSleep p (sinceAt w) /\
  writeOf (snd (fst (sendCommand p w contents))) = Some (starts, ends) /\
  (exists tr, snd (fst (sendCommand p w contents))
              = slept ++ EvWrite starts ends encoded :: tr) /\
  connected (fst (fst (sendCommand p w contents))) = true /\
  interframeDur (fst (fst (sendCommand p w contents))) = interframeDur p /\
  lastCommand (fst (fst (sendCommand p w contents))) =
    match writeResult w with
    | None => ends + nowDelay w
    | Some _ => lastCommand p
    end.
Proof.
  intros Hc He. unfold sendCommand. rewrite Hc, He. cbn [negb].
  destruct (gateSleep p (sinceAt w)) as [d|];
    destruct (writeResult w); [| destruct (readResult w) | | destruct (readResult w)];
    cbn [fst snd app sleepOf writeOf find connected interframeDur lastCommand];
    repeat split; trivial; eexists; reflexivity.
Qed.

(** C8: on a connected session with the 50 ms gap of [New] and a clock
    that does not run backwards, [sendCommand] computes the time
    elapsed since [lastCommand]; below 50 ms it asks [time.Sleep] for
    exactly the remainder and only then writes, otherwise it writes
    without sleeping; the write starts no earlier than 50 ms after
    [lastCommand]; [lastCommand] becomes the clock read right after a
    successful write and is left unchanged by a failed one.  An
    exchange issued 10 ms after [lastCommand] sleeps 40 ms.  The write
    of an exchange that follows a successful one starts at least 50 ms
    after the return of the first write. *)
Theorem interframe_gate :
  (forall (p : PM5) (w : World) (contents encoded : list byte),
     connected p = true ->
     interframeDur p = MinInterframeGapMs * Millisecond ->
     lastCommand p <= sinceAt w ->
     EncodeFrame (mkFrame false 0 0 contents) = Ok encoded ->
     let gap := MinInterframeGapMs * Millisecond in
     let elapsed := sinceAt w - lastCommand p in
     let r := sendCommand p w contents in
     sleepOf (snd (fst r))
       = (if elapsed <? gap then Some (gap - elapsed) else None) /\
     exists starts ends tr,
       snd (fst r)
         = (if elapsed <? gap then [EvSleep (gap - elapsed)] else [])
             ++ EvWrite starts ends encoded :: tr /\
       (latencies_ok w -> lastCommand p + gap <= starts /\ starts <= ends) /\
       lastCommand (fst (fst r)) =
         match writeResult w with
         | None => ends + nowDelay w
         | Some _ => lastCommand p
         end) /\
  (forall (p : PM5),
     interframeDur p = MinInterframeGapMs * Millisecond ->
     gateSleep p (lastCommand p + 10 * Millisecond) = Some (40 * Millisecond)) /\
  (forall (p : PM5) (w1 w2 : World) (c1 c2 enc1 enc2 : list byte),
     connected p = true ->
     interframeDur p = MinInterframeGapMs * Millisecond ->
     EncodeFrame (mkFrame false 0 0 c1) = Ok enc1 ->
     EncodeFrame (mkFrame false 0 0 c2) = Ok enc2 ->
     writeResult w1 = None ->
     latencies_ok w1 ->
     latencies_ok w2 ->
     let r1 := sendCommand p w1 c1 in
     let r2 := sendCommand (fst (fst r1)) w2 c2 in
     lastCommand (fst (fst r1)) <= sinceAt w2 ->
     exists s1 e1 s2 e2,
       writeOf (snd (fst r1)) = Some (s1, e1) /\
       writeOf (snd (fst r2)) = Some (s2, e2) /\
       e1 + MinInterframeGapMs * Millisecond <= s2).
Proof.
  split; [|split].
  - intros p w contents encoded Hc Hg Hm He gap elapsed r.
    destruct (sendCommand_written p w contents encoded Hc He)
      as (Hsl & Hwr & [tr Htr] & _ & _ & Hlast).
    rewrite (gateSleep_gap p (sinceAt w) Hg Hm) in *.
    fold gap elapsed in Hsl, Htr, Hlast, Hwr.
    split; [exact Hsl|].
    unfold r. unfold latencies_ok.
    destruct (elapsed <? gap) eqn:E;
      [apply Z.ltb_lt in E | apply Z.ltb_ge in E];
      do 3 eexists; (split; [exact Htr|]); (split; [|exact Hlast]);
      intros (H1 & H2 & H3 & H4); unfold elapsed in *; lia.
  - intros p Hg.
    rewrite (gateSleep_gap p _ Hg) by (unfold Millisecond; lia).
    unfold MinInterframeGapMs, Millisecond.
    replace (lastCommand p + 10 * 1000000 - lastCommand p) with 10000000 by lia.
    reflexivity.
  - intros p w1 w2 c1 c2 enc1 enc2 Hc Hg He1 He2 Hw1 Hl1 Hl2 r1 r2 Hm.
    destruct (sendCommand_written p w1 c1 enc1 Hc He1)
      as (_ & Hwr1 & _ & Hc1 & Hg1 & Hlast1).
    fold r1 in Hwr1, Hc1, Hg1, Hlast1. rewrite Hw1 in Hlast1.
    rewrite Hg in Hg1.
    destruct (sendCommand_written (fst (fst r1)) w2 c2 enc2 Hc1 He2)
      as (_ & Hwr2 & _ & _ & _ & _).
    fold r2 in Hwr2.
    rewrite (gateSleep_gap _ (sinceAt w2) Hg1 Hm) in Hwr2.
    do 4 eexists. split; [exact Hwr1|]. split; [exact Hwr2|].
    destruct Hl1 as (_ & _ & _ & H14). destruct Hl2 as (H21 & H22 & _ & _).
    rewrite Hlast1 in *.
    match goal with
    | |- context [if ?c then _ else _] => destruct c eqn:E
    end.
    + apply Z.ltb_lt in E. lia.
    + apply Z.ltb_ge in E. lia.
Qed.

Lemma interframe_gate_witness :
  let p := mkPM5 true false 50000000 0 in
  let w1 := mkWorld 1000000000 0 1000 2000 None 3000 (inr [0xF1; 0x01; 0x01; 0xF2]) in
  let w2 := mkWorld 1010006000 500 1000 2000 None 3000 (inr [0xF1; 0x01; 0x01; 0xF2]) in
  let r1 := sendCommand p w1 [0x80] in
  let r2 := sendCommand (fst (fst r1)) w2 [0x80] in
  exists s1 e1 s2 e2,
    writeOf (snd (fst r1)) = Some (s1, e1) /\
    writeOf (snd (fst r2)) = Some (s2, e2) /\
    e1 + MinInterframeGapMs * Millisecond <= s2.
Proof.
  cbv zeta.
  apply (proj2 (proj2 interframe_gate)
           (mkPM5 true false 50000000 0)
           (mkWorld 1000000000 0 1000 2000 None 3000 (inr [0xF1; 0x01; 0x01; 0xF2]))
           (mkWorld 1010006000 500 1000 2000 None 3000 (inr [0xF1; 0x01; 0x01; 0xF2]))
           [0x80] [0x80] [0xF1; 0x80; 0x80; 0xF2] [0xF1; 0x80; 0x80; 0xF2]);
    try reflexivity.
  - unfold latencies_ok; simpl; lia.
  - unfold latencies_ok; simpl; lia.
  - vm_compute. discriminate.
Defined.

(* ================================================================= *)
(** ** Session lifecycle *)

(** C9: [Connect] on a connected session returns [nil] without calling
    [Open] and leaves the session as it is; [Disconnect] on a session
    that is not connected returns [nil] without calling [Close] and
    leaves the session as it is.  From a session that is not connected,
    [Connect] calls [Open] once and the flag becomes [true] exactly
    when [Open] succeeds; from a connected session, [Disconnect] calls
    [Close] once and the flag becomes [false] exactly when [Close]
    succeeds. *)
Theorem Connect_Disconnect_idempotent :
  (forall (p : PM5) (openResult : option DeviceError),
     connected p = true ->
     Connect p openResult = (p, [], None)) /\
  (forall (p : PM5) (closeResult : option DeviceError),
     connected p = false ->
     Disconnect p closeResult = (p, [], None)) /\
  (forall (p : PM5) (openResult : option DeviceError),
     connected p = false ->
     snd (fst (Connect p openResult)) = [EvOpen] /\
     (connected (fst (fst (Connect p openResult))) = true
        <-> openResult = None) /\
     (snd (Connect p openResult) = None <-> openResult = None)) /\
  (forall (p : PM5) (closeResult : option DeviceError),
     connected p = true ->
     snd (fst (Disconnect p closeResult)) = [EvClose] /\
     (connected (fst (fst (Disconnect p closeResult))) = false
        <-> closeResult = None) /\
     (snd (Disconnect p closeResult) = None <-> closeResult = None)).
Proof.
  repeat apply conj.
  - intros p r Hc. unfold Connect. now rewrite Hc.
  - intros p r Hc. unfold Disconnect. now rewrite Hc.
  - intros p r Hc. unfold Connect. rewrite Hc.
    destruct r; cbn [fst snd connected]; rewrite ?Hc;
      repeat split; intros; congruence.
  - intros p r Hc. unfold Disconnect. rewrite Hc. cbn [negb].
    destruct r; cbn [fst snd connected]; rewrite ?Hc;
      repeat split; intros; congruence.
Qed.

Lemma Connect_Disconnect_idempotent_witness :
  Connect (fst (fst (Connect New None))) (Some (DevErr 1))
    = (fst (fst (Connect New None)), [], None) /\
  Disconnect New (Some (DevErr 1)) = (New, [], None).
Proof.
  split.
  - apply (proj1 Connect_Disconnect_idempotent). reflexivity.
  - apply (proj1 (proj2 Connect_Disconnect_idempotent)). reflexivity.
Defined.

(* ================================================================= *)
(** ** Command surface *)

(** What a proprietary get command returns after an exchange that
    ended without error: the first top-level record with the opcode
    and enough data decides; the nested records are not looked at. *)
Lemma pmGet_done {A : Type} (wrapper cmd : byte) (width : nat)
    (decode : list byte -> A) (zero : A) (p : PM5) (w : World)
    (resp : Response) :
  snd (sendPMCommand p w wrapper [BuildCommand cmd []]) = Done resp ->
  snd (pmGet wrapper cmd width decode zero p w) =
  match firstData cmd width (CommandData resp) with
  | Some d => (decode d, None)
  | None => (zero, Some ErrInvalidResponse)
  end.
Proof.
  unfold pmGet.
  destruct (sendPMCommand p w wrapper [BuildCommand cmd []]) as [[p' tr] out].
  cbn [snd]. intros ->.
  destruct (firstData cmd width (CommandData resp)); reflexivity.
Qed.

(** C2: the device answers a [GetDragFactor] request with the wrapper
    record [7F 03 C1 01 87]: the drag factor [0x87] is parsed into the
    nested list of the wrapper record, and [GetDragFactor] returns
    [ErrInvalidResponse]; so do [GetBatteryLevel] and
    [GetErgMachineType] on the wrapper records [7E 03 97 01 50] and
    [7E 03 ED 01 00].  The value is returned when the record [C1 01 87]
    is at top level. *)
Theorem GetDragFactor_misses_nested :
  let p := mkPM5 true false (MinInterframeGapMs * Millisecond) 0 in
  let w := fun data => mkWorld 1000000000 0 0 0 None 0 (inr data) in
  let nested := [0xF1; 0x01; 0x7F; 0x03; 0xC1; 0x01; 0x87; 0x3A; 0xF2] in
  (exists resp,
     snd (sendPMCommand p (w nested) CmdGetPMData
            [BuildCommand PMCmdGetDragFactor []])
       = Done resp /\
     CommandData resp =
       [mkCommandResponse 0x7F 0x03 [0xC1; 0x01; 0x87]
          [mkCommandResponse 0xC1 0x01 [0x87] []]]) /\
  snd (GetDragFactor p (w nested)) = (0, Some ErrInvalidResponse) /\
  snd (GetBatteryLevel p
         (w [0xF1; 0x01; 0x7E; 0x03; 0x97; 0x01; 0x50; 0xBA; 0xF2]))
    = (0, Some ErrInvalidResponse) /\
  snd (GetErgMachineType p
         (w [0xF1; 0x01; 0x7E; 0x03; 0xED; 0x01; 0x00; 0x90; 0xF2]))
    = (0, Some ErrInvalidResponse) /\
  snd (GetDragFactor p (w [0xF1; 0x01; 0xC1; 0x01; 0x87; 0x46; 0xF2]))
    = (0x87, None).
Proof.
  cbv zeta. split; [eexists; split|repeat split]; reflexivity.
Qed.

(** C3: the device answers a [GetRestTime] request with the record
    [CF 02 01 02]: [GetRestTime] returns [0x0201], the little-endian
    reading of the data bytes, where their big-endian reading is
    [0x0102]; [GetErrorValue] and [GetPMWorkTime] read theirs
    big-endian. *)
Theorem GetRestTime_little_endian :
  let p := mkPM5 true false (MinInterframeGapMs * Millisecond) 0 in
  let w := fun data => mkWorld 1000000000 0 0 0 None 0 (inr data) in
  snd (GetRestTime p (w [0xF1; 0x01; 0xCF; 0x02; 0x01; 0x02; 0xCF; 0xF2]))
    = (0x0201, None) /\
  bigEndian [0x01; 0x02] = 0x0102 /\
  snd (GetErrorValue p (w [0xF1; 0x01; 0xC9; 0x02; 0x01; 0x02; 0xC9; 0xF2]))
    = (bigEndian [0x01; 0x02], None) /\
  snd (GetPMWorkTime p
         (w [0xF1; 0x01; 0xA0; 0x04; 0x01; 0x02; 0x03; 0x04; 0xA1; 0xF2]))
    = (bigEndian [0x01; 0x02; 0x03; 0x04], None).
Proof.
  cbv zeta. repeat split; reflexivity.
Qed.

(* ================================================================= *)
(** ** Further properties of the frame codec *)

Lemma length_stuff_le l : (length (flat_map stuff l) <= 2 * length l)%nat.
Proof.
  induction l as [|b l IH]; simpl; [lia|].
  rewrite length_app.
  destruct (stuff_cases b) as [[_ ->] | [k [_ [_ ->]]]]; simpl; lia.
Qed.

(** Stuffing every byte of a sequence, as [EncodeFrame] does for the
    contents, gives between one and two bytes per byte, and
    [unstuffBytes] returns the sequence from it. *)
Theorem stuff_unstuff_roundtrip (l : list byte) :
  unstuffBytes (fold_left stuffAndWrite l []) = Ok l /\
  (length l <= length (fold_left stuffAndWrite l []) <= 2 * length l)%nat.
Proof.
  rewrite fold_stuffAndWrite. cbn [app]. split; [|split].
  - apply unstuffBytes_flat_map.
  - apply length_stuff_ge.
  - apply length_stuff_le.
Qed.

Lemma Unstuffable_loop data :
  Unstuffable data -> forall acc, exists u, unstuffLoop data acc = Ok (acc ++ u).
Proof.
  induction 1 as [|b rest Hb _ IH|k rest Hk _ IH]; intros acc.
  - exists []. simpl. now rewrite app_nil_r.
  - destruct (IH (acc ++ [b])) as [u Hu]. exists (b :: u).
    simpl. apply Z.eqb_neq in Hb. rewrite Hb, Hu, <- app_assoc. reflexivity.
  - assert (k = 0 \/ k = 1 \/ k = 2 \/ k = 3) as [-> | [-> | [-> | ->]]] by lia.
    + destruct (IH (acc ++ [ExtendedFrameStartFlag])) as [u Hu].
      exists (ExtendedFrameStartFlag :: u).
      simpl. simpl in Hu. rewrite Hu, <- app_assoc. reflexivity.
    + destruct (IH (acc ++ [StandardFrameStartFlag])) as [u Hu].
      exists (StandardFrameStartFlag :: u).
      simpl. simpl in Hu. rewrite Hu, <- app_assoc. reflexivity.
    + destruct (IH (acc ++ [StopFrameFlag])) as [u Hu].
      exists (StopFrameFlag :: u).
      simpl. simpl in Hu. rewrite Hu, <- app_assoc. reflexivity.
    + destruct (IH (acc ++ [ByteStuffingFlag])) as [u Hu].
      exists (ByteStuffingFlag :: u).
      simpl. simpl in Hu. rewrite Hu, <- app_assoc. reflexivity.
Qed.

Lemma unstuffLoop_ok_bounded (n : nat) : forall data acc out,
  (length data <= n)%nat ->
  unstuffLoop data acc = Ok out ->
  exists u,
    out = acc ++ u /\
    (length u <= length data)%nat /\
    Unstuffable data /\
    (Forall is_byte data -> Forall is_byte u) /\
    (Forall (fun b => b <> ByteStuffingFlag) data -> u = data).
Proof.
  induction n as [|n IH]; intros data acc out Hn;
    destruct data as [|b rest]; simpl in *; try lia.
  - intros [= <-]. exists []. rewrite app_nil_r.
    repeat split; trivial; constructor.
  - intros [= <-]. exists []. rewrite app_nil_r.
    repeat split; trivial; constructor.
  - destruct (b =? ByteStuffingFlag) eqn:Eb.
    + apply Z.eqb_eq in Eb. subst b.
      destruct rest as [|c rest']; [discriminate|]. simpl in Hn.
      assert (Hgo : forall s, is_byte s ->
                unstuffLoop rest' (acc ++ [s]) = Ok out ->
                0 <= c <= 3 ->
                exists u,
                  out = acc ++ u /\ (length u <= S (S (length rest')))%nat /\
                  Unstuffable (ByteStuffingFlag :: c :: rest') /\
                  (Forall is_byte (ByteStuffingFlag :: c :: rest') ->
                   Forall is_byte u) /\
                  (Forall (fun b => b <> ByteStuffingFlag)
                     (ByteStuffingFlag :: c :: rest') ->
                   u = ByteStuffingFlag :: c :: rest')).
      { intros s Hs H Hc.
        destruct (IH rest' (acc ++ [s]) out ltac:(lia) H)
          as (u & -> & Hl & HU & HB & _).
        exists (s :: u). rewrite <- app_assoc. repeat split; simpl; try lia.
        - now constructor.
        - intros HF. constructor; [exact Hs|]. apply HB.
          now inversion HF as [|? ? _ HF']; inversion HF'.
        - intros HF. inversion HF; congruence. }
      unfold is_byte, ExtendedFrameStartFlag, StandardFrameStartFlag,
        StopFrameFlag, ByteStuffingFlag in *.
      destruct (c =? 0) eqn:E0;
        [apply Z.eqb_eq in E0; intros H; apply (Hgo 240); trivial; lia|].
      destruct (c =? 1) eqn:E1;
        [apply Z.eqb_eq in E1; intros H; apply (Hgo 241); trivial; lia|].
      destruct (c =? 2) eqn:E2;
        [apply Z.eqb_eq in E2; intros H; apply (Hgo 242); trivial; lia|].
      destruct (c =? 3) eqn:E3;
        [apply Z.eqb_eq in E3; intros H; apply (Hgo 243); trivial; lia|].
      discriminate.
    + intros H. apply Z.eqb_neq in Eb.
      destruct (IH rest (acc ++ [b]) out ltac:(lia) H)
        as (u & -> & Hl & HU & HB & HI).
      exists (b :: u). rewrite <- app_assoc. repeat split; simpl; try lia.
      * now constructor.
      * intros HF. inversion HF; subst. constructor; auto.
      * intros HF. inversion HF; subst. f_equal. auto.
Qed.

Lemma no_escape_Unstuffable data :
  Forall (fun b => b <> ByteStuffingFlag) data -> Unstuffable data.
Proof.
  induction 1 as [|b l Hb _ IH];
    [constructor | apply Unstuffable_raw; assumption].
Qed.

(** [unstuffBytes] succeeds exactly on the interiors made of bytes
    other than [0xF3] and of pairs [0xF3, k] with [k] in [0x00..0x03],
    and fails with [ErrInvalidStuffByte] on every other input; what it
    returns is never longer than its input, and an input without
    [0xF3], raw [0xF0], [0xF1] and [0xF2] included, is returned as it
    is. *)
Theorem unstuffBytes_accepts (data : list byte) :
  ((exists out, unstuffBytes data = Ok out) <-> Unstuffable data) /\
  (~ Unstuffable data -> unstuffBytes data = Err ErrInvalidStuffByte) /\
  (forall out, unstuffBytes data = Ok out -> (length out <= length data)%nat) /\
  (Forall (fun b => b <> ByteStuffingFlag) data -> unstuffBytes data = Ok data).
Proof.
  unfold unstuffBytes.
  assert (Hok : forall out, unstuffLoop data [] = Ok out ->
            (length out <= length data)%nat /\ Unstuffable data /\
            (Forall (fun b => b <> ByteStuffingFlag) data -> out = data)).
  { intros out H.
    destruct (unstuffLoop_ok_bounded (length data) data [] out (le_n _) H)
      as (u & -> & Hl & HU & _ & HI). auto. }
  repeat split.
  - intros [out H]. now apply Hok in H.
  - intros HU. destruct (Unstuffable_loop data HU []) as [u Hu]. eauto.
  - intros HU. destruct (unstuffLoop data []) as [out|e] eqn:E.
    + exfalso. apply HU. now destruct (Hok out eq_refl) as (_ & HU' & _).
    + now apply unstuffLoop_error in E as ->.
  - intros out H. now apply Hok in H.
  - intros HF.
    pose proof (no_escape_Unstuffable data HF) as HU.
    destruct (Unstuffable_loop data HU []) as [u Hu].
    destruct (Hok _ Hu) as (_ & _ & HI). rewrite Hu. f_equal. exact (HI HF).
Qed.

Lemma length_encoded f :
  (length (payload f) + 2 <= length (encoded f) <= 2 * length (payload f) + 2)%nat.
Proof.
  unfold encoded. cbn [length]. rewrite length_app. cbn [length].
  pose proof (length_stuff_ge (payload f)).
  pose proof (length_stuff_le (payload f)). lia.
Qed.

(** [EncodeFrame] fails with [ErrFrameTooLong] only, and what it
    returns has between 3 and 120 bytes.  It accepts every standard
    frame of at most 58 contents bytes and every extended frame of at
    most 56, whatever the bytes, and rejects every frame of more than
    117 contents bytes. *)
Theorem EncodeFrame_capacity (f : Frame) :
  (forall e, EncodeFrame f = Err e -> e = ErrFrameTooLong) /\
  (forall out, EncodeFrame f = Ok out -> (3 <= length out <= 120)%nat) /\
  ((length (Contents f) <= (if Extended f then 56 else 58))%nat ->
   exists out, EncodeFrame f = Ok out) /\
  ((117 < length (Contents f))%nat -> EncodeFrame f = Err ErrFrameTooLong).
Proof.
  rewrite EncodeFrame_encoded.
  pose proof (length_encoded f) as Hl. rewrite length_payload in Hl.
  unfold MaxFrameLength.
  destruct (120 <? length (encoded f))%nat eqn:E;
    [apply Nat.ltb_lt in E | apply Nat.ltb_ge in E];
    (split; [|split; [|split]]).
  - intros e [= <-]. reflexivity.
  - intros out H. discriminate H.
  - intros H. exfalso. destruct (Extended f); lia.
  - reflexivity.
  - intros e H. discriminate H.
  - intros out [= <-]. lia.
  - intros _. eauto.
  - intros H. exfalso. lia.
Qed.

(** [DecodeFrame] has no upper bound on the length: a well-formed frame
    of more than 117 contents bytes is rejected by [EncodeFrame], and
    the bytes [EncodeFrame] had built for it are decoded back to the
    frame by [DecodeFrame]. *)
Theorem DecodeFrame_no_length_limit (f : Frame) :
  wellFormed f ->
  (117 < length (Contents f))%nat ->
  EncodeFrame f = Err ErrFrameTooLong /\
  (MaxFrameLength < length (encoded f))%nat /\
  DecodeFrame (encoded f) = Ok f.
Proof.
  intros Hwf Hlen.
  pose proof (length_encoded f) as Hl. rewrite length_payload in Hl.
  split; [|split].
  - rewrite EncodeFrame_encoded.
    replace (MaxFrameLength <? length (encoded f))%nat with true; [reflexivity|].
    symmetry. apply Nat.ltb_lt. unfold MaxFrameLength. lia.
  - unfold MaxFrameLength. lia.
  - apply DecodeFrame_encoded; [exact Hwf|].
    right. intros H. rewrite H in Hlen. simpl in Hlen. lia.
Qed.

Lemma DecodeFrame_no_length_limit_witness :
  let f := mkFrame false 0 0 (repeat 0x55 118) in
  EncodeFrame f = Err ErrFrameTooLong /\
  (MaxFrameLength < length (encoded f))%nat /\
  DecodeFrame (encoded f) = Ok f.
Proof.
  cbv zeta.
  apply (DecodeFrame_no_length_limit (mkFrame false 0 0 (repeat 0x55 118))).
  - unfold wellFormed, is_byte. cbn [Destination Source Contents Extended].
    repeat split; try lia.
    apply Forall_forall. intros x Hx. apply repeat_spec in Hx. subst x. lia.
  - cbn [Contents]. rewrite repeat_length. lia.
Defined.

Lemma frame_split (data : list byte) :
  (2 <= length data)%nat ->
  data = nth 0 data 0 :: slice 1 (length data - 1) data
           ++ [nth (length data - 1) data 0].
Proof.
  intros Hlen. destruct data as [|s rest]; [simpl in Hlen; lia|].
  destruct (exists_last (l := rest)) as [body [x ->]].
  { intros ->. simpl in Hlen. lia. }
  cbn [nth]. f_equal.
  replace (length (s :: body ++ [x]) - 1)%nat with (S (length (body ++ [x]) - 1))
    by (cbn [length]; rewrite length_app; simpl; lia).
  cbn [nth]. rewrite nth_last_app. f_equal.
  unfold slice. cbn [skipn].
  replace (S (length (body ++ [x]) - 1) - 1)%nat
    with (length (body ++ [x]) - 1 - 0)%nat by lia.
  symmetry. apply slice_init.
Qed.

(** What a successful [DecodeFrame] says about its input. *)
Lemma DecodeFrame_ok_inv (data : list byte) (f : Frame) :
  DecodeFrame data = Ok f ->
  (4 <= length data)%nat /\
  nth 0 data 0 = (if Extended f then ExtendedFrameStartFlag
                  else StandardFrameStartFlag) /\
  nth (length data - 1) data 0 = StopFrameFlag /\
  unstuffBytes (slice 1 (length data - 1) data) = Ok (payload f) /\
  (Extended f = false -> Destination f = 0 /\ Source f = 0).
Proof.
  intros Hd.
  destruct (DecodeFrame_reaches_checksum data (Ok f) Hd)
    as (Hlen & Hstart & Hstop & addr & contents & c & Hun & Haddr);
    [left; eauto|].
  rewrite (DecodeFrame_checked data addr contents c) in Hd by assumption.
  destruct (xorAll contents =? c) eqn:Hx; [|discriminate].
  apply Z.eqb_eq in Hx. injection Hd as <-.
  unfold payload. cbn [Extended Destination Source Contents].
  rewrite Hun, Hx. unfold isStart in Hstart.
  destruct (nth 0 data 0 =? ExtendedFrameStartFlag) eqn:He.
  - apply Z.eqb_eq in He.
    destruct addr as [|d [|s [|? ?]]]; try discriminate Haddr.
    repeat split; trivial; discriminate.
  - rewrite orb_false_r in Hstart. apply Z.eqb_eq in Hstart.
    destruct addr; try discriminate Haddr.
    repeat split; trivial.
Qed.

Lemma Stuffed_unstuff body :
  Stuffed body ->
  forall acc, exists u,
    unstuffLoop body acc = Ok (acc ++ u) /\ flat_map stuff u = body.
Proof.
  induction 1 as [|b rest Hs _ IH|k rest Hk _ IH]; intros acc.
  - exists []. simpl. now rewrite app_nil_r.
  - destruct (IH (acc ++ [b])) as (u & Hu & Hf). exists (b :: u).
    destruct (stuff_cases b) as [[_ Hb] | (k & Hk & -> & _)].
    + cbn [flat_map]. rewrite Hb, Hf. split; [|reflexivity].
      simpl. unfold isSentinel in Hs.
      apply orb_false_iff in Hs as [_ ->].
      rewrite Hu, <- app_assoc. reflexivity.
    + exfalso. unfold isSentinel, ExtendedFrameStartFlag, StandardFrameStartFlag,
        StopFrameFlag, ByteStuffingFlag in Hs.
      repeat (apply orb_false_iff in Hs as [Hs ?]).
      repeat match goal with H : (_ =? _) = false |- _ => apply Z.eqb_neq in H end.
      lia.
  - assert (k = 0 \/ k = 1 \/ k = 2 \/ k = 3) as [-> | [-> | [-> | ->]]] by lia.
    + destruct (IH (acc ++ [ExtendedFrameStartFlag])) as (u & Hu & Hf).
      exists (ExtendedFrameStartFlag :: u). split.
      * simpl. simpl in Hu. rewrite Hu, <- app_assoc. reflexivity.
      * cbn [flat_map]. now rewrite Hf.
    + destruct (IH (acc ++ [StandardFrameStartFlag])) as (u & Hu & Hf).
      exists (StandardFrameStartFlag :: u). split.
      * simpl. simpl in Hu. rewrite Hu, <- app_assoc. reflexivity.
      * cbn [flat_map]. now rewrite Hf.
    + destruct (IH (acc ++ [StopFrameFlag])) as (u & Hu & Hf).
      exists (StopFrameFlag :: u). split.
      * simpl. simpl in Hu. rewrite Hu, <- app_assoc. reflexivity.
      * cbn [flat_map]. now rewrite Hf.
    + destruct (IH (acc ++ [ByteStuffingFlag])) as (u & Hu & Hf).
      exists (ByteStuffingFlag :: u). split.
      * simpl. simpl in Hu. rewrite Hu, <- app_assoc. reflexivity.
      * cbn [flat_map]. now rewrite Hf.
Qed.

(** Re-encoding: a frame that [DecodeFrame] returned from bytes whose
    interior has every sentinel escaped is encoded by [EncodeFrame] to
    those same bytes, if they are at most 120. *)
Theorem DecodeFrame_EncodeFrame_canonical (data : list byte) (f : Frame) :
  DecodeFrame data = Ok f ->
  Stuffed (slice 1 (length data - 1) data) ->
  (length data <= MaxFrameLength)%nat ->
  EncodeFrame f = Ok data.
Proof.
  intros Hd HS Hlen.
  destruct (DecodeFrame_ok_inv data f Hd) as (H4 & Hstart & Hstop & Hun & _).
  destruct (Stuffed_unstuff _ HS []) as (u & Hu & Hf).
  unfold unstuffBytes in Hun. rewrite Hu in Hun. injection Hun as Hp.
  cbn [app] in Hp. subst u.
  assert (He : encoded f = data).
  { unfold encoded. rewrite Hf, <- Hstart, <- Hstop.
    symmetry. apply frame_split. lia. }
  rewrite EncodeFrame_encoded, He.
  apply Nat.leb_le in Hlen. now rewrite Nat.ltb_antisym, Hlen.
Qed.

Lemma DecodeFrame_EncodeFrame_canonical_witness :
  EncodeFrame (mkFrame true 0xFD 0x00 [0xF2; 0x01])
  = Ok [0xF0; 0xFD; 0x00; 0xF3; 0x02; 0x01; 0xF3; 0x03; 0xF2].
Proof.
  apply (DecodeFrame_EncodeFrame_canonical
           [0xF0; 0xFD; 0x00; 0xF3; 0x02; 0x01; 0xF3; 0x03; 0xF2]).
  - reflexivity.
  - simpl. apply Stuffed_raw; [reflexivity|]. apply Stuffed_raw; [reflexivity|].
    apply Stuffed_pair; [lia|]. apply Stuffed_raw; [reflexivity|].
    apply Stuffed_pair; [lia|]. constructor.
  - simpl. unfold MaxFrameLength. lia.
Defined.

(** From bytes, [DecodeFrame] returns well-formed frames only: byte
    fields, no addresses on a standard frame, and contents at least 3
    bytes shorter than the input, 5 on an extended frame. *)
Theorem DecodeFrame_wellFormed (data : list byte) (f : Frame) :
  Forall is_byte data ->
  DecodeFrame data = Ok f ->
  wellFormed f /\
  (length (Contents f) + (if Extended f then 5 else 3) <= length data)%nat.
Proof.
  intros HB Hd.
  destruct (DecodeFrame_ok_inv data f Hd) as (H4 & Hstart & Hstop & Hun & Hstd).
  rewrite (frame_split data) in HB by lia.
  inversion HB as [|? ? _ HB']; subst. apply Forall_app in HB' as [HBi _].
  unfold unstuffBytes in Hun.
  destruct (unstuffLoop_ok_bounded _ _ [] _ (le_n _) Hun)
    as (u & Hu & Hl & _ & Hbytes & _).
  cbn [app] in Hu. subst u. specialize (Hbytes HBi).
  assert (Hli : length (slice 1 (length data - 1) data) = (length data - 2)%nat).
  { unfold slice. rewrite length_firstn, length_skipn. lia. }
  rewrite length_payload in Hl. unfold payload in Hbytes.
  apply Forall_app in Hbytes as [Haddr Hrest].
  apply Forall_app in Hrest as [Hc _].
  split.
  - unfold wellFormed. destruct (Extended f) eqn:He.
    + inversion Haddr as [|? ? Hd1 Haddr']; subst.
      inversion Haddr' as [|? ? Hd2 _]; subst.
      split; [exact Hd1|]. split; [exact Hd2|]. split; [exact Hc|].
      intros H; discriminate H.
    + destruct (Hstd eq_refl) as [-> ->].
      unfold is_byte. split; [lia|]. split; [lia|]. split; [exact Hc|].
      intros _. split; reflexivity.
  - destruct (Extended f); lia.
Qed.

Lemma DecodeFrame_wellFormed_witness :
  let f := mkFrame false 0 0 [0xF1; 0x00] in
  let data := [0xF1; 0xF3; 0x01; 0x00; 0xF3; 0x01; 0xF2] in
  wellFormed f /\
  (length (Contents f) + (if Extended f then 5 else 3) <= length data)%nat.
Proof.
  cbv zeta.
  apply (DecodeFrame_wellFormed [0xF1; 0xF3; 0x01; 0x00; 0xF3; 0x01; 0xF2]).
  - unfold is_byte. repeat constructor; lia.
  - reflexivity.
Defined.

(* ================================================================= *)
(** ** Further properties of the response parser and the builders *)

(** A property checked on the 256 bytes holds of every byte. *)
Lemma byte_cases (P : Z -> bool) :
  forallb P (map Z.of_nat (seq 0 256)) = true ->
  forall b, is_byte b -> P b = true.
Proof.
  intros H b Hb. rewrite forallb_forall in H. apply H.
  apply in_map_iff. exists (Z.to_nat b). split; [unfold is_byte in Hb; lia|].
  apply in_seq. unfold is_byte in Hb. lia.
Qed.

(** The status byte: [ParseResponse] fails on empty contents only, with
    [ErrFrameTooShort]; for a status byte it reports the byte itself,
    the toggle as bit 7, one of the four previous-frame statuses, a
    state in [0..15], and these with bit 6 make up the byte. *)
Theorem ParseResponse_status :
  ParseResponse [] = Err ErrFrameTooShort /\
  forall (status : byte) (rest : list byte),
    is_byte status ->
    exists resp,
      ParseResponse (status :: rest) = Ok resp /\
      Status resp = status /\
      (FrameToggle resp = true <-> 128 <= status) /\
      In (PrevFrameStatus resp)
         [PrevFrameStatusOK; PrevFrameStatusReject; PrevFrameStatusBad;
          PrevFrameStatusNotReady] /\
      0 <= StateMachine resp <= 15 /\
      status = (if FrameToggle resp then 128 else 0) + Z.land status 0x40
               + PrevFrameStatus resp + StateMachine resp.
Proof.
  split; [reflexivity|].
  intros status rest Hb. rewrite ParseResponse_cons. eexists.
  split; [reflexivity|]. cbn [Status FrameToggle PrevFrameStatus StateMachine].
  pose proof (byte_cases
    (fun s =>
       Bool.eqb (negb (Z.land s StatusFrameToggleMask =? 0)) (128 <=? s) &&
       existsb (fun x => Z.land s StatusPrevFrameStatusMask =? x)
         [PrevFrameStatusOK; PrevFrameStatusReject; PrevFrameStatusBad;
          PrevFrameStatusNotReady] &&
       (0 <=? Z.land s StatusStateMask) && (Z.land s StatusStateMask <=? 15) &&
       (s =? (if negb (Z.land s StatusFrameToggleMask =? 0) then 128 else 0)
             + Z.land s 0x40 + Z.land s StatusPrevFrameStatusMask
             + Z.land s StatusStateMask))
    eq_refl status Hb) as H.
  cbv beta in H.
  repeat (apply andb_true_iff in H as [H ?]).
  apply Bool.eqb_prop in H.
  split; [reflexivity|]. split; [|split; [|split]].
  - rewrite H. apply Z.leb_le.
  - match goal with H : existsb _ _ = true |- _ =>
      apply existsb_exists in H as (x & Hin & Hx) end.
    apply Z.eqb_eq in Hx. now rewrite Hx.
  - split; [now apply Z.leb_le | now apply Z.leb_le].
  - now apply Z.eqb_eq.
Qed.

Lemma recordBytes_attachPM cr : recordBytes (attachPM cr) = recordBytes cr.
Proof. reflexivity. Qed.

Lemma flat_map_recordBytes_attachPM rs :
  flat_map recordBytes (map attachPM rs) = flat_map recordBytes rs.
Proof.
  induction rs as [|cr rs IH]; [reflexivity|].
  cbn [map flat_map]. now rewrite IH, recordBytes_attachPM.
Qed.

(** Writing the parsed records back gives the input: nothing is lost or
    invented, except the zero count given to a lone trailing opcode; no
    record holds more data than it declares. *)
Lemma parsePMWrapperData_bytes_bounded (n : nat) : forall data,
  (length data <= n)%nat ->
  Forall is_byte data ->
  (flat_map recordBytes (parsePMWrapperData data) = data \/
   flat_map recordBytes (parsePMWrapperData data) = data ++ [0]) /\
  Forall (fun cr => Z.of_nat (length (Data cr)) <= ByteCount cr /\
                    PMResponses cr = [])
         (parsePMWrapperData data).
Proof.
  induction n as [|n IH]; intros data Hn HB.
  - destruct data; [|simpl in Hn; lia]. split; [left; reflexivity|constructor].
  - destruct data as [|cmd [|byteCount rest]].
    + split; [left; reflexivity|constructor].
    + rewrite parsePMWrapperData_lone. split; [right; reflexivity|].
      constructor; [|constructor]. cbn [Data ByteCount PMResponses length].
      split; [lia|reflexivity].
    + inversion HB as [|? ? _ HB1]; subst.
      inversion HB1 as [|? ? Hbc HBr]; subst. unfold is_byte in Hbc.
      destruct (Z_lt_dec (Z.of_nat (length rest)) byteCount) as [Ht|Hc].
      * rewrite parsePMWrapperData_truncated by exact Ht. unfold byte in *.
        split; [left; cbn; now rewrite app_nil_r|].
        constructor; [|constructor]. cbn [Data ByteCount PMResponses length].
      split; [lia|reflexivity].
      * rewrite <- (firstn_skipn (Z.to_nat byteCount) rest) in *.
        apply Forall_app in HBr as [_ HBs].
        rewrite firstn_skipn in Hc, Hn.
        assert (Hlf : length (firstn (Z.to_nat byteCount) rest)
                      = Z.to_nat byteCount)
          by (rewrite length_firstn; lia).
        rewrite parsePMWrapperData_record by (lia || exact Hlf).
        destruct (IH (skipn (Z.to_nat byteCount) rest)) as [Hs HF].
        { rewrite length_skipn. simpl in Hn. lia. }
        { exact HBs. }
        split.
        -- cbn [flat_map]. unfold recordBytes at 1.
           cbn [Command ByteCount Data app].
           destruct Hs as [-> | ->]; [left | right];
             rewrite <- ?app_assoc; reflexivity.
        -- constructor; [|exact HF]. cbn [Data ByteCount PMResponses].
           unfold byte in *. split; [lia|reflexivity].
Qed.

(** For contents made of bytes, the records [ParseResponse] returns,
    written back as opcode, count and data after the status byte, are
    the contents, with a zero count appended when they end on a lone
    opcode; no record holds more data bytes than its count. *)
Theorem ParseResponse_loses_nothing (status : byte) (rest : list byte) :
  Forall is_byte rest ->
  exists resp,
    ParseResponse (status :: rest) = Ok resp /\
    (status :: flat_map recordBytes (CommandData resp) = status :: rest \/
     status :: flat_map recordBytes (CommandData resp) = status :: rest ++ [0]) /\
    Forall (fun cr => Z.of_nat (length (Data cr)) <= ByteCount cr)
           (CommandData resp).
Proof.
  intros HB. rewrite ParseResponse_cons. eexists. split; [reflexivity|].
  cbn [CommandData]. rewrite flat_map_recordBytes_attachPM.
  destruct (parsePMWrapperData_bytes_bounded (length rest) rest (le_n _) HB)
    as [Hs HF].
  split.
  - destruct Hs as [-> | ->]; [left | right]; reflexivity.
  - apply Forall_forall. intros cr Hin.
    apply in_map_iff in Hin as (cr0 & <- & Hin0).
    rewrite Forall_forall in HF. now apply HF in Hin0.
Qed.

Lemma ParseResponse_loses_nothing_witness :
  exists resp,
    ParseResponse (0x01 :: [0x7F; 0x03; 0xC1; 0x01; 0x87; 0xB3]) = Ok resp /\
    (0x01 :: flat_map recordBytes (CommandData resp)
       = 0x01 :: [0x7F; 0x03; 0xC1; 0x01; 0x87; 0xB3] \/
     0x01 :: flat_map recordBytes (CommandData resp)
       = 0x01 :: [0x7F; 0x03; 0xC1; 0x01; 0x87; 0xB3] ++ [0]) /\
    Forall (fun cr => Z.of_nat (length (Data cr)) <= ByteCount cr)
           (CommandData resp).
Proof.
  apply (ParseResponse_loses_nothing 0x01 [0x7F; 0x03; 0xC1; 0x01; 0x87; 0xB3]).
  unfold is_byte. repeat constructor; lia.
Defined.

Lemma BuildCommand_long (cmd : byte) (data : list byte) :
  Z.land cmd 0x80 = 0 \/ data <> [] ->
  (length data <= 255)%nat ->
  BuildCommand cmd data = cmd :: Z.of_nat (length data) :: data.
Proof.
  intros Hl Hn. unfold BuildCommand.
  replace (negb (Z.land cmd 128 =? 0) && (length data =? 0)%nat) with false.
  - rewrite Z.mod_small by lia. reflexivity.
  - symmetry. destruct Hl as [-> | Hd]; [reflexivity|].
    destruct data; [congruence|]. apply andb_false_r.
Qed.

Lemma BuildCommand_short (cmd : byte) :
  Z.land cmd 0x80 <> 0 -> BuildCommand cmd [] = [cmd].
Proof.
  intros H. unfold BuildCommand. apply Z.eqb_neq in H. now rewrite H.
Qed.

(** Long commands laid end to end are parsed back one by one. *)
Lemma parsePMWrapperData_BuildCommands (cmds : list (byte * list byte)) :
  Forall (fun cd => (Z.land (fst cd) 0x80 = 0 \/ snd cd <> []) /\
                    (length (snd cd) <= 255)%nat) cmds ->
  parsePMWrapperData
    (concat (map (fun cd => BuildCommand (fst cd) (snd cd)) cmds))
  = map (fun cd => mkCommandResponse (fst cd) (Z.of_nat (length (snd cd)))
                     (snd cd) []) cmds.
Proof.
  induction 1 as [|[cmd data] cmds [Hl Hn] _ IH]; [reflexivity|].
  cbn [map concat fst snd] in *.
  rewrite BuildCommand_long by assumption. cbn [app].
  rewrite parsePMWrapperData_record by lia.
  now rewrite IH.
Qed.

(** Builder against parser.  A wrapper built by [BuildPMCommand] around
    long commands built by [BuildCommand], of at most 255 bytes in all,
    is parsed by [ParseResponse] into one record for the wrapper whose
    nested list holds each command with its data, in order.  Two short
    commands laid end to end are not: the second opcode is read as the
    byte count of the first. *)
Theorem BuildPMCommand_ParseResponse :
  (forall (status wrapper : byte) (cmds : list (byte * list byte)),
     isPMWrapper wrapper = true ->
     cmds <> [] ->
     Forall (fun cd => (Z.land (fst cd) 0x80 = 0 \/ snd cd <> []) /\
                       (length (snd cd) <= 255)%nat) cmds ->
     let inner := map (fun cd => BuildCommand (fst cd) (snd cd)) cmds in
     (length (concat inner) <= 255)%nat ->
     exists resp,
       ParseResponse (status :: BuildPMCommand wrapper inner) = Ok resp /\
       CommandData resp =
         [mkCommandResponse wrapper (Z.of_nat (length (concat inner)))
            (concat inner)
            (map (fun cd => mkCommandResponse (fst cd)
                              (Z.of_nat (length (snd cd))) (snd cd) [])
                 cmds)]) /\
  (forall c1 c2 : byte,
     Z.land c1 0x80 <> 0 -> Z.land c2 0x80 <> 0 -> 0 < c2 ->
     parsePMWrapperData (BuildCommand c1 [] ++ BuildCommand c2 [])
     = [mkCommandResponse c1 c2 [] []]).
Proof.
  split.
  - intros status wrapper cmds Hw Hne HF inner Hlen.
    rewrite ParseResponse_cons, BuildPMCommand_eq. eexists.
    split; [reflexivity|]. cbn [CommandData].
    rewrite Z.mod_small by lia.
    rewrite <- (app_nil_r (concat inner)) at 2.
    rewrite parsePMWrapperData_record by lia.
    change (parsePMWrapperData []) with (@nil CommandResponse).
    cbn [map]. unfold attachPM. cbn [Command ByteCount Data].
    rewrite Hw.
    assert (Hpos : (0 <? length (concat inner))%nat = true).
    { apply Nat.ltb_lt. unfold inner.
      destruct cmds as [|[c d] cmds]; [congruence|].
      inversion HF as [|? ? [Hl Hn] _]; subst. cbn [fst snd] in *.
      cbn [map concat fst snd]. rewrite BuildCommand_long by assumption.
      simpl. lia. }
    rewrite Hpos. cbn [andb]. unfold inner.
    now rewrite parsePMWrapperData_BuildCommands.
  - intros c1 c2 H1 H2 Hpos.
    rewrite !BuildCommand_short by assumption. cbn [app].
    now rewrite parsePMWrapperData_truncated.
Qed.

Lemma BuildPMCommand_ParseResponse_witness :
  let cmds := [(0x01, [0x03]); (0x03, [0x80; 0x00; 0x00; 0x07; 0xD0])] in
  let inner := map (fun cd => BuildCommand (fst cd) (snd cd)) cmds in
  exists resp,
    ParseResponse (0x01 :: BuildPMCommand 0x76 inner) = Ok resp /\
    CommandData resp =
      [mkCommandResponse 0x76 (Z.of_nat (length (concat inner)))
         (concat inner)
         (map (fun cd : byte * list byte =>
                 mkCommandResponse (fst cd)
                   (Z.of_nat (length (snd cd))) (snd cd) [])
              cmds)].
Proof.
  cbv zeta.
  apply (proj1 BuildPMCommand_ParseResponse 0x01 0x76
           [(0x01, [0x03]); (0x03, [0x80; 0x00; 0x00; 0x07; 0xD0])]).
  - reflexivity.
  - discriminate.
  - repeat constructor; simpl; lia.
  - simpl. lia.
Defined.

(* ================================================================= *)
(** ** Byte arithmetic and the conversions of data.go *)

Lemma land_high_low (k y n : Z) :
  0 <= n -> 0 <= y < 2 ^ n -> Z.land (k * 2 ^ n) y = 0.
Proof.
  intros Hn Hy. apply Z.bits_inj'. intros i Hi.
  rewrite Z.land_spec, Z.bits_0.
  destruct (Z.lt_ge_cases i n) as [Hlt | Hge].
  - now rewrite Z.mul_pow2_bits_low by lia.
  - rewrite <- (Z.mod_small y (2 ^ n)) by lia.
    rewrite Z.mod_pow2_bits_high by lia. apply andb_false_r.
Qed.

Lemma lor_high_low (k y n : Z) :
  0 <= n -> 0 <= y < 2 ^ n -> Z.lor (k * 2 ^ n) y = k * 2 ^ n + y.
Proof.
  intros Hn Hy. pose proof (Z.add_lor_land (k * 2 ^ n) y) as H.
  rewrite land_high_low in H by assumption. lia.
Qed.

Lemma low_byte (v : Z) : toByte (Z.land v 0xFF) = v mod 256.
Proof.
  unfold toByte. change 0xFF with (Z.ones 8).
  rewrite Z.land_ones by lia. change (2 ^ 8) with 256.
  apply Z.mod_small. apply Z.mod_pos_bound. lia.
Qed.

Lemma shifted_byte (v n : Z) :
  0 <= n -> toByte (Z.land (Z.shiftr v n) 0xFF) = (v / 2 ^ n) mod 256.
Proof.
  intros Hn. rewrite low_byte, Z.shiftr_div_pow2 by lia. reflexivity.
Qed.

Lemma shl16 (b n : Z) :
  is_byte b -> 0 <= n <= 8 -> uint16 (Z.shiftl b n) = b * 2 ^ n.
Proof.
  intros Hb Hn. unfold uint16, is_byte in *.
  rewrite Z.shiftl_mul_pow2 by lia. apply Z.mod_small.
  assert (2 ^ n <= 2 ^ 8) by (apply Z.pow_le_mono_r; lia).
  assert (0 < 2 ^ n) by (apply Z.pow_pos_nonneg; lia).
  change (2 ^ 16) with (256 * 2 ^ 8). nia.
Qed.

Lemma shl32 (b n : Z) :
  is_byte b -> 0 <= n <= 24 -> uint32 (Z.shiftl b n) = b * 2 ^ n.
Proof.
  intros Hb Hn. unfold uint32, is_byte in *.
  rewrite Z.shiftl_mul_pow2 by lia. apply Z.mod_small.
  assert (2 ^ n <= 2 ^ 24) by (apply Z.pow_le_mono_r; lia).
  assert (0 < 2 ^ n) by (apply Z.pow_pos_nonneg; lia).
  change (2 ^ 32) with (256 * 2 ^ 24). nia.
Qed.

Lemma read16le_value (lo hi : byte) (rest : list byte) :
  is_byte lo -> is_byte hi -> read16le (lo :: hi :: rest) = lo + 256 * hi.
Proof.
  intros Hl Hh. unfold read16le. cbn [nth].
  rewrite shl16 by (trivial; lia). rewrite Z.lor_comm.
  rewrite lor_high_low by (unfold is_byte in *; lia). change (2 ^ 8) with 256. lia.
Qed.

Lemma read16be_value (hi lo : byte) :
  is_byte hi -> is_byte lo ->
  Z.lor (uint16 (Z.shiftl hi 8)) lo = 256 * hi + lo.
Proof.
  intros Hh Hl. rewrite shl16 by (trivial; lia).
  rewrite lor_high_low by (unfold is_byte in *; lia). change (2 ^ 8) with 256. lia.
Qed.

Lemma read32_value (a b c d : byte) (rest : list byte) :
  is_byte a -> is_byte b -> is_byte c -> is_byte d ->
  read32 (a :: b :: c :: d :: rest) = ((a * 256 + b) * 256 + c) * 256 + d.
Proof.
  intros Ha Hb Hc Hd. unfold read32. cbn [nth].
  rewrite !shl32 by (trivial; lia). unfold is_byte in *.
  replace (a * 2 ^ 24) with (a * 2 ^ 24) by reflexivity.
  rewrite (lor_high_low a (b * 2 ^ 16) 24) by lia.
  replace (a * 2 ^ 24 + b * 2 ^ 16) with ((a * 256 + b) * 2 ^ 16) by lia.
  rewrite (lor_high_low _ (c * 2 ^ 8) 16) by lia.
  replace ((a * 256 + b) * 2 ^ 16 + c * 2 ^ 8)
    with (((a * 256 + b) * 256 + c) * 2 ^ 8) by lia.
  rewrite (lor_high_low _ d 8) by lia. lia.
Qed.

Lemma Uint16ToBytes_eq (v : Z) :
  Uint16ToBytes v = [v mod 256; (v / 256) mod 256].
Proof.
  unfold Uint16ToBytes. rewrite low_byte, shifted_byte by lia. reflexivity.
Qed.

Lemma Uint32ToBytes_eq (v : Z) :
  Uint32ToBytes v =
  [v mod 256; (v / 256) mod 256; (v / 65536) mod 256; (v / 16777216) mod 256].
Proof.
  unfold Uint32ToBytes. rewrite low_byte, !shifted_byte by lia. reflexivity.
Qed.

Lemma BytesToUint32_value (a b c d : byte) (rest : list byte) :
  is_byte a -> is_byte b -> is_byte c -> is_byte d ->
  BytesToUint32 (a :: b :: c :: d :: rest) = a + 256 * (b + 256 * (c + 256 * d)).
Proof.
  intros Ha Hb Hc Hd. unfold BytesToUint32. cbn [length Nat.ltb Nat.leb nth].
  rewrite !shl32 by (trivial; lia). unfold is_byte in *.
  rewrite (Z.lor_comm a), (lor_high_low b a 8) by lia.
  rewrite (Z.lor_comm _ (c * 2 ^ 16)), (lor_high_low c _ 16) by lia.
  rewrite (Z.lor_comm _ (d * 2 ^ 24)), (lor_high_low d _ 24) by lia.
  lia.
Qed.

Lemma BytesToUint24_value (a b c : byte) (rest : list byte) :
  is_byte a -> is_byte b -> is_byte c ->
  BytesToUint24 (a :: b :: c :: rest) = a + 256 * (b + 256 * c).
Proof.
  intros Ha Hb Hc. unfold BytesToUint24. cbn [length Nat.ltb Nat.leb nth].
  rewrite !shl32 by (trivial; lia). unfold is_byte in *.
  rewrite (Z.lor_comm a), (lor_high_low b a 8) by lia.
  rewrite (Z.lor_comm _ (c * 2 ^ 16)), (lor_high_low c _ 16) by lia.
  lia.
Qed.

Lemma BytesToUint16_value (lo hi : byte) (rest : list byte) :
  is_byte lo -> is_byte hi -> BytesToUint16 (lo :: hi :: rest) = lo + 256 * hi.
Proof.
  intros Hl Hh. unfold BytesToUint16. cbn [length Nat.ltb Nat.leb].
  now apply read16le_value.
Qed.

(** The little-endian pairs of data.go are inverse to each other:
    [BytesToUint16] after [Uint16ToBytes] is the identity on [uint16]
    and [Uint16ToBytes] after [BytesToUint16] on two bytes, and
    likewise for [uint32] and four bytes; the bytes written are bytes. *)
Theorem little_endian_roundtrip :
  (forall v, 0 <= v < 2 ^ 16 ->
     BytesToUint16 (Uint16ToBytes v) = v /\ Forall is_byte (Uint16ToBytes v)) /\
  (forall lo hi, is_byte lo -> is_byte hi ->
     Uint16ToBytes (BytesToUint16 [lo; hi]) = [lo; hi]) /\
  (forall v, 0 <= v < 2 ^ 32 ->
     BytesToUint32 (Uint32ToBytes v) = v /\ Forall is_byte (Uint32ToBytes v)) /\
  (forall a b c d, is_byte a -> is_byte b -> is_byte c -> is_byte d ->
     Uint32ToBytes (BytesToUint32 [a; b; c; d]) = [a; b; c; d]).
Proof.
  assert (Hm : forall x, is_byte (x mod 256))
    by (intros x; unfold is_byte; apply Z.mod_pos_bound; lia).
  repeat apply conj.
  - intros v Hv. rewrite Uint16ToBytes_eq. split; [|repeat constructor; apply Hm].
    rewrite BytesToUint16_value by apply Hm.
    change (2 ^ 16) with 65536 in Hv. Z.div_mod_to_equations. lia.
  - intros lo hi Hl Hh. rewrite BytesToUint16_value by assumption.
    rewrite Uint16ToBytes_eq. unfold is_byte in *.
    repeat f_equal; Z.div_mod_to_equations; lia.
  - intros v Hv. rewrite Uint32ToBytes_eq. split; [|repeat constructor; apply Hm].
    rewrite BytesToUint32_value by apply Hm.
    change (2 ^ 32) with 4294967296 in Hv. Z.div_mod_to_equations. lia.
  - intros a b c d Ha Hb Hc Hd. rewrite BytesToUint32_value by assumption.
    rewrite Uint32ToBytes_eq. unfold is_byte in *.
    repeat f_equal; Z.div_mod_to_equations; lia.
Qed.

(** [Uint24ToBytes] keeps the low 24 bits of its [uint32] argument and
    drops the top byte without error: read back by [BytesToUint24] the
    value is taken modulo [2^24], so it comes back unchanged exactly
    when it is below [2^24]. *)
Theorem Uint24_truncates (v : Z) :
  0 <= v < 2 ^ 32 ->
  BytesToUint24 (Uint24ToBytes v) = v mod 2 ^ 24 /\
  (BytesToUint24 (Uint24ToBytes v) = v <-> v < 2 ^ 24).
Proof.
  intros Hv.
  assert (Hm : forall x, is_byte (x mod 256))
    by (intros x; unfold is_byte; apply Z.mod_pos_bound; lia).
  assert (H : BytesToUint24 (Uint24ToBytes v) = v mod 2 ^ 24).
  { unfold Uint24ToBytes. rewrite low_byte, !shifted_byte by lia.
    rewrite BytesToUint24_value by apply Hm.
    change (2 ^ 8) with 256. change (2 ^ 16) with 65536.
    change (2 ^ 24) with 16777216. Z.div_mod_to_equations. lia. }
  split; [exact H|]. rewrite H.
  change (2 ^ 24) with 16777216 in *. change (2 ^ 32) with 4294967296 in Hv.
  split; intros; Z.div_mod_to_equations; lia.
Qed.

Lemma Uint24_truncates_witness :
  BytesToUint24 (Uint24ToBytes 0x12345678) = 0x12345678 mod 2 ^ 24 /\
  (BytesToUint24 (Uint24ToBytes 0x12345678) = 0x12345678
   <-> 0x12345678 < 2 ^ 24).
Proof.
  apply (Uint24_truncates 0x12345678). lia.
Defined.

(** The readers of data.go return 0 for an input that is too short,
    ignore the bytes after those they read, and the big-endian readers
    read the reversed bytes as the little-endian ones do. *)
Theorem byte_readers_edges :
  (forall b, (length b < 2)%nat -> BytesToUint16 b = 0 /\ BytesToUint16BE b = 0) /\
  (forall b, (length b < 3)%nat -> BytesToUint24 b = 0) /\
  (forall b, (length b < 4)%nat -> BytesToUint32 b = 0 /\ BytesToUint32BE b = 0) /\
  (forall a b rest,
     BytesToUint16 (a :: b :: rest) = BytesToUint16 [a; b] /\
     BytesToUint16BE (a :: b :: rest) = BytesToUint16BE [a; b]) /\
  (forall a b c d rest,
     BytesToUint32 (a :: b :: c :: d :: rest) = BytesToUint32 [a; b; c; d] /\
     BytesToUint32BE (a :: b :: c :: d :: rest) = BytesToUint32BE [a; b; c; d]) /\
  (forall a b, is_byte a -> is_byte b ->
     BytesToUint16BE [a; b] = BytesToUint16 [b; a]) /\
  (forall a b c d, is_byte a -> is_byte b -> is_byte c -> is_byte d ->
     BytesToUint32BE [a; b; c; d] = BytesToUint32 [d; c; b; a]).
Proof.
  repeat apply conj.
  - intros b Hb. unfold BytesToUint16, BytesToUint16BE.
    apply Nat.ltb_lt in Hb. now rewrite Hb.
  - intros b Hb. unfold BytesToUint24. apply Nat.ltb_lt in Hb. now rewrite Hb.
  - intros b Hb. unfold BytesToUint32, BytesToUint32BE.
    apply Nat.ltb_lt in Hb. now rewrite Hb.
  - intros. split; reflexivity.
  - intros. split; reflexivity.
  - intros a b Ha Hb. rewrite BytesToUint16_value by assumption.
    unfold BytesToUint16BE. cbn [length Nat.ltb Nat.leb nth].
    rewrite read16be_value by assumption. lia.
  - intros a b c d Ha Hb Hc Hd. rewrite BytesToUint32_value by assumption.
    unfold BytesToUint32BE. cbn [length Nat.ltb Nat.leb].
    change (Z.lor _ _) with (read32 [a; b; c; d]).
    rewrite read32_value by assumption. lia.
Qed.

(** Hundredths of a second against [time.Duration]: without overflow
    for every [uint32], [HundredthsToTime] is [10^7] nanoseconds per
    hundredth and [TimeToHundredths] takes it back; [TimeToHundredths]
    rounds a non-negative duration down to the hundredth, as long as
    the count fits a [uint32]. *)
Theorem hundredths_time_roundtrip :
  (forall h, 0 <= h < 2 ^ 32 ->
     HundredthsToTime h = h * 10000000 /\
     TimeToHundredths (HundredthsToTime h) = h) /\
  (forall d, 0 <= d < 2 ^ 32 * 10000000 ->
     HundredthsToTime (TimeToHundredths d) <= d
       < HundredthsToTime (TimeToHundredths d) + 10000000).
Proof.
  assert (H1 : forall h, 0 <= h < 2 ^ 32 -> HundredthsToTime h = h * 10000000).
  { intros h Hh. unfold HundredthsToTime, Millisecond.
    change (2 ^ 32) with 4294967296 in Hh.
    rewrite (wrap64_small (h * 10)) by lia.
    rewrite wrap64_small by lia. lia. }
  assert (H2 : forall d, 0 <= d < 2 ^ 32 * 10000000 ->
            TimeToHundredths d = d / 10000000).
  { intros d Hd. unfold TimeToHundredths, uint32.
    change (2 ^ 32) with 4294967296 in *.
    rewrite (Z.quot_div_nonneg d 1000000) by lia.
    rewrite Z.quot_div_nonneg by (try lia; apply Z.div_pos; lia).
    rewrite Z.div_div by lia. change (1000000 * 10) with 10000000.
    apply Z.mod_small. Z.div_mod_to_equations. lia. }
  split.
  - intros h Hh. split; [now apply H1|].
    rewrite H1, H2 by (trivial; lia). apply Z.div_mul. lia.
  - intros d Hd. rewrite H2 by exact Hd.
    rewrite H1 by (change (2 ^ 32) with 4294967296 in *;
                   Z.div_mod_to_equations; lia).
    Z.div_mod_to_equations. lia.
Qed.

(* ================================================================= *)
(** ** Further properties of the transaction engine *)

Lemma EncodeFrame_capacity_error (f : Frame) (e : csafe.error) :
  EncodeFrame f = Err e -> e = ErrFrameTooLong.
Proof.
  rewrite EncodeFrame_encoded.
  destruct (MaxFrameLength <? length (encoded f))%nat; congruence.
Qed.

(** What [sendCommand] never does: it never changes the connected flag
    or the gap; when the session is not connected it touches nothing
    and calls nothing; when the frame does not encode it writes
    nothing, reads nothing and leaves the session as it was; it reads
    only after a write that succeeded; and what it writes is the
    encoding of a standard frame around the contents. *)
Theorem sendCommand_discipline (p : PM5) (w : World) (contents : list byte) :
  let r := sendCommand p w contents in
  let p' := fst (fst r) in
  let tr := snd (fst r) in
  connected p' = connected p /\
  interframeDur p' = interframeDur p /\
  (connected p = false -> r = (p, [], Failed ErrNotConnected)) /\
  (forall e,
     EncodeFrame (mkFrame false 0 0 contents) = Err e ->
     p' = p /\ writtenOf tr = None /\
     ~ In (EvRead (500 * Millisecond)) tr /\
     (connected p = true -> snd r = Failed (EncodeFailed ErrFrameTooLong))) /\
  (In (EvRead (500 * Millisecond)) tr ->
   connected p = true /\ writeResult w = None) /\
  (forall encoded,
     writtenOf tr = Some encoded ->
     connected p = true /\
     EncodeFrame (mkFrame false 0 0 contents) = Ok encoded) /\
  (lastCommand p' <> lastCommand p -> writeResult w = None).
Proof.
  cbv zeta. unfold sendCommand.
  destruct (connected p) eqn:Hc; cbn [negb].
  2:{ cbn [fst snd writtenOf find In]. rewrite Hc.
      repeat split; try congruence; try tauto; intros; try discriminate. }
  pose proof (EncodeFrame_capacity_error (mkFrame false 0 0 contents)) as Herr.
  destruct (gateSleep p (sinceAt w)) as [d|];
    destruct (EncodeFrame (mkFrame false 0 0 contents)) as [enc|e] eqn:He;
    try (specialize (Herr e eq_refl); subst e);
    try destruct (writeResult w) eqn:Hw;
    try destruct (readResult w);
    cbn [fst snd app writtenOf find In connected interframeDur lastCommand];
    repeat split; try congruence; try tauto; intros;
    try (let Hx := fresh in intro Hx);
    repeat match goal with
    | H : _ \/ _ |- _ => destruct H
    | H : False |- _ => destruct H
    end; try discriminate; try congruence.
Qed.

Lemma EncodeFrame_fits (contents : list byte) :
  (length contents <= 58)%nat ->
  EncodeFrame (mkFrame false 0 0 contents)
  = Ok (encoded (mkFrame false 0 0 contents)).
Proof.
  intros H. rewrite EncodeFrame_encoded.
  pose proof (length_encoded (mkFrame false 0 0 contents)) as Hl.
  rewrite length_payload in Hl. cbn [Extended Contents] in Hl.
  replace (MaxFrameLength <? _)%nat with false; [reflexivity|].
  symmetry. apply Nat.ltb_ge. unfold MaxFrameLength. lia.
Qed.

(** The encoding of a frame, with bytes before it that hold no start
    sentinel and any bytes after it, is found and decoded back. *)
Lemma interpret_encoded (f : Frame) (pre post : list byte) :
  wellFormed f ->
  Extended f = true \/ Contents f <> [] ->
  Forall (fun b => isStart b = false) pre ->
  interpret (pre ++ encoded f ++ post) =
  match ParseResponse (Contents f) with
  | Err e => Failed (ParseFailed e)
  | Ok resp =>
      if PrevFrameStatus resp =? PrevFrameStatusReject
      then Rejected resp else Done resp
  end.
Proof.
  intros Hwf Hne Hpre. unfold interpret.
  assert (Hx : extractFrame (pre ++ encoded f ++ post) = Some (encoded f)).
  { unfold encoded. cbn [app]. rewrite <- app_assoc. cbn [app].
    change (pre ++ ?s :: ?l) with (pre ++ [] ++ s :: l).
    apply extractFrame_found;
      [exact Hpre | constructor | destruct (Extended f); reflexivity |].
    pose proof (Stuffed_no_flag _ (Stuffed_flat_map (payload f))) as HF.
    rewrite Forall_forall in *. intros b Hb. apply HF in Hb.
    unfold isStart, isStop. destruct Hb as (H0 & H1 & H2).
    apply Z.eqb_neq in H0, H1, H2. now rewrite H0, H1, H2. }
  rewrite Hx. unfold decodeAndParse.
  now rewrite DecodeFrame_encoded.
Qed.

(** Receiving.  When the write succeeded and the packet read holds the
    encoding of a standard or extended frame with contents
    [status :: rest], after bytes without start sentinel and before any
    bytes, [sendCommand] returns the parse of those contents, as
    rejected exactly when bits 4-5 of the status byte are [0x10]. *)
Theorem sendCommand_receives
    (p : PM5) (w : World) (contents encoded_request : list byte)
    (f : Frame) (status : byte) (rest pre post : list byte) :
  connected p = true ->
  EncodeFrame (mkFrame false 0 0 contents) = Ok encoded_request ->
  writeResult w = None ->
  wellFormed f ->
  Contents f = status :: rest ->
  Forall (fun b => isStart b = false) pre ->
  readResult w = inr (pre ++ encoded f ++ post) ->
  exists resp,
    ParseResponse (status :: rest) = Ok resp /\
    snd (sendCommand p w contents) =
      if Z.land status 0x30 =? 0x10 then Rejected resp else Done resp.
Proof.
  intros Hc He Hw Hwf Hcont Hpre Hr.
  rewrite (sendCommand_read p w contents encoded_request _ Hc He Hw Hr).
  rewrite interpret_encoded; trivial.
  - rewrite Hcont, ParseResponse_cons. eexists. split; reflexivity.
  - right. rewrite Hcont. discriminate.
Qed.

Lemma sendCommand_receives_witness :
  exists resp,
    ParseResponse (0x11 :: [0xA3; 0x02; 0x10; 0x00]) = Ok resp /\
    snd (sendCommand (mkPM5 true false 50000000 0)
           (mkWorld 60000000 0 0 0 None 0
              (inr ([0x00; 0xF2] ++
                    encoded (mkFrame false 0 0 [0x11; 0xA3; 0x02; 0x10; 0x00])
                    ++ [0x00; 0x00])))
           [0xA3]) =
      if Z.land 0x11 0x30 =? 0x10 then Rejected resp else Done resp.
Proof.
  apply (sendCommand_receives (mkPM5 true false 50000000 0)
           (mkWorld 60000000 0 0 0 None 0
              (inr ([0x00; 0xF2] ++
                    encoded (mkFrame false 0 0 [0x11; 0xA3; 0x02; 0x10; 0x00])
                    ++ [0x00; 0x00])))
           [0xA3] [0xF1; 0xA3; 0xA3; 0xF2]
           (mkFrame false 0 0 [0x11; 0xA3; 0x02; 0x10; 0x00])
           0x11 [0xA3; 0x02; 0x10; 0x00] [0x00; 0xF2] [0x00; 0x00]);
    try reflexivity.
  - unfold wellFormed, is_byte. simpl.
    repeat split; try lia. repeat constructor; lia.
  - repeat constructor.
Defined.

(* ================================================================= *)
(** ** Further properties of the command surface *)

(** The response from status byte and records, as [ParseResponse]
    builds it. *)
Lemma sendCommand_parsed
    (p : PM5) (w : World) (contents : list byte)
    (f : Frame) (status : byte) (rest pre post : list byte) :
  connected p = true ->
  (length contents <= 58)%nat ->
  writeResult w = None ->
  wellFormed f ->
  Contents f = status :: rest ->
  Forall (fun b => isStart b = false) pre ->
  readResult w = inr (pre ++ encoded f ++ post) ->
  exists resp,
    CommandData resp = map attachPM (parsePMWrapperData rest) /\
    snd (sendCommand p w contents) =
      if Z.land status 0x30 =? 0x10 then Rejected resp else Done resp.
Proof.
  intros Hc Hlen Hw Hwf Hcont Hpre Hr.
  rewrite (sendCommand_read p w contents _ _ Hc (EncodeFrame_fits _ Hlen) Hw Hr).
  rewrite interpret_encoded; trivial.
  - rewrite Hcont, ParseResponse_cons. eexists.
    split; [|reflexivity]. reflexivity.
  - right. rewrite Hcont. discriminate.
Qed.

Lemma pmGet_snd {A : Type} (wrapper cmd : byte) (width : nat)
    (decode : list byte -> A) (zero : A) (p : PM5) (w : World) :
  snd (pmGet wrapper cmd width decode zero p w) =
  match snd (sendPMCommand p w wrapper [BuildCommand cmd []]) with
  | Failed e => (zero, Some e)
  | Rejected _ => (zero, Some ErrCommandFailed)
  | Done resp =>
      match firstData cmd width (CommandData resp) with
      | Some d => (decode d, None)
      | None => (zero, Some ErrInvalidResponse)
      end
  end.
Proof.
  unfold pmGet.
  destruct (sendPMCommand p w wrapper [BuildCommand cmd []]) as [[p' tr] out].
  destruct out as [e|resp|resp]; try reflexivity.
  cbn [snd]. destruct (firstData cmd width (CommandData resp)); reflexivity.
Qed.

Lemma request_fits (wrapper cmd : byte) (data : list byte) :
  (length data <= 50)%nat ->
  (length (BuildPMCommand wrapper [BuildCommand cmd data]) <= 58)%nat.
Proof.
  intros H. rewrite BuildPMCommand_eq. cbn [concat length].
  rewrite app_nil_r. unfold BuildCommand.
  destruct (negb (Z.land cmd 128 =? 0) && (length data =? 0)%nat);
    cbn [length]; lia.
Qed.

Lemma pmGet_answer {A : Type}
    (wrapper cmd : byte) (width : nat) (decode : list byte -> A) (zero : A)
    (p : PM5) (w : World) (f : Frame) (status : byte)
    (d rest pre post : list byte) :
  connected p = true ->
  writeResult w = None ->
  wellFormed f ->
  Contents f = status :: cmd :: Z.of_nat (length d) :: d ++ rest ->
  (width <= length d)%nat ->
  Forall (fun b => isStart b = false) pre ->
  readResult w = inr (pre ++ encoded f ++ post) ->
  snd (pmGet wrapper cmd width decode zero p w) =
  if Z.land status 0x30 =? 0x10 then (zero, Some ErrCommandFailed)
  else (decode d, None).
Proof.
  intros Hc Hw Hwf Hcont Hwidth Hpre Hr.
  rewrite pmGet_snd. unfold sendPMCommand.
  destruct (sendCommand_parsed p w
              (BuildPMCommand wrapper [BuildCommand cmd []])
              f status _ pre post Hc (request_fits _ _ [] ltac:(simpl; lia))
              Hw Hwf Hcont Hpre Hr) as (resp & Hcd & ->).
  destruct (Z.land status 48 =? 16); [reflexivity|].
  rewrite Hcd, parsePMWrapperData_record by lia.
  unfold firstData. cbn [map find attachPM Command Data].
  rewrite Z.eqb_refl. apply Nat.leb_le in Hwidth. rewrite Hwidth.
  reflexivity.
Qed.

(** A proprietary get command whose answer carries, right after the
    status byte, a record with the opcode asked for and at least the
    width of data returns the decoded data of that record, unless the
    status byte says the previous frame was rejected: then it returns
    the zero value and [ErrCommandFailed]. *)
Theorem pmGet_first_record {A : Type}
    (wrapper cmd : byte) (width : nat) (decode : list byte -> A) (zero : A)
    (p : PM5) (w : World) (f : Frame) (status : byte)
    (d rest pre post : list byte) :
  connected p = true ->
  writeResult w = None ->
  wellFormed f ->
  Contents f = status :: cmd :: Z.of_nat (length d) :: d ++ rest ->
  (width <= length d)%nat ->
  Forall (fun b => isStart b = false) pre ->
  readResult w = inr (pre ++ encoded f ++ post) ->
  snd (pmGet wrapper cmd width decode zero p w) =
  if Z.land status 0x30 =? 0x10 then (zero, Some ErrCommandFailed)
  else (decode d, None).
Proof.
  intros Hc Hw Hwf Hcont Hwidth Hpre Hr.
  rewrite pmGet_snd. unfold sendPMCommand.
  destruct (sendCommand_parsed p w
              (BuildPMCommand wrapper [BuildCommand cmd []])
              f status _ pre post Hc (request_fits _ _ [] ltac:(simpl; lia))
              Hw Hwf Hcont Hpre Hr) as (resp & Hcd & ->).
  destruct (Z.land status 48 =? 16); [reflexivity|].
  rewrite Hcd, parsePMWrapperData_record by lia.
  unfold firstData. cbn [map find attachPM Command Data].
  rewrite Z.eqb_refl. apply Nat.leb_le in Hwidth. rewrite Hwidth.
  reflexivity.
Qed.

Lemma pmGet_first_record_witness :
  snd (GetDragFactor (mkPM5 true false 50000000 0)
         (mkWorld 60000000 0 0 0 None 0
            (inr ([] ++ encoded (mkFrame false 0 0
                                   ([0x01; 0xC1; Z.of_nat (length [0x87])]
                                    ++ [0x87] ++ [])) ++ []))))
  = if Z.land 0x01 0x30 =? 0x10 then (0, Some ErrCommandFailed)
    else (data0 [0x87], None).
Proof.
  apply (pmGet_first_record CmdGetPMData PMCmdGetDragFactor 1 data0 0
           (mkPM5 true false 50000000 0) _
           (mkFrame false 0 0 ([0x01; 0xC1; Z.of_nat (length [0x87])]
                                ++ [0x87] ++ []))
           0x01 [0x87] [] [] []); try reflexivity.
  - unfold wellFormed, is_byte. simpl.
    repeat split; try lia. repeat constructor; lia.
  - constructor.
Defined.

Lemma bigEndian4 (a b c d : byte) :
  bigEndian [a; b; c; d] = ((a * 256 + b) * 256 + c) * 256 + d.
Proof. unfold bigEndian. cbn [fold_left]. lia. Qed.

(** [GetPMWorkTime] and [GetErrorValue] return the big-endian value of
    the data bytes of the record they select, for all bytes: four bytes
    [a b c d] give [((a*256+b)*256+c)*256+d], two bytes [hi lo] give
    [hi*256+lo]. *)
Theorem proprietary_reads_big_endian
    (p : PM5) (w : World) (f : Frame) (status : byte)
    (rest pre post : list byte) :
  connected p = true ->
  writeResult w = None ->
  wellFormed f ->
  Z.land status 0x30 <> 0x10 ->
  Forall (fun b => isStart b = false) pre ->
  readResult w = inr (pre ++ encoded f ++ post) ->
  (forall a b c d,
     Contents f = status :: PMCmdGetWorkTime :: 4 :: a :: b :: c :: d :: rest ->
     snd (GetPMWorkTime p w) = (bigEndian [a; b; c; d], None)) /\
  (forall hi lo,
     Contents f = status :: PMCmdGetErrorValue :: 2 :: hi :: lo :: rest ->
     snd (GetErrorValue p w) = (bigEndian [hi; lo], None)).
Proof.
  intros Hc Hw Hwf Hst Hpre Hr. apply Z.eqb_neq in Hst.
  split.
  - intros a b c d Hcont.
    unfold GetPMWorkTime.
    rewrite (pmGet_answer _ _ _ _ _ p w f status [a; b; c; d] rest pre post)
      by (trivial; cbn [length]; lia).
    rewrite Hst.
    destruct Hwf as (_ & _ & HB & _). rewrite Hcont in HB.
    repeat match goal with H : Forall _ (_ :: _) |- _ =>
      let Hx := fresh "Hb" in inversion H as [|? ? Hx ?]; subst; clear H end.
    rewrite read32_value, bigEndian4 by assumption. reflexivity.
  - intros hi lo Hcont.
    unfold GetErrorValue.
    rewrite (pmGet_answer _ _ _ _ _ p w f status [hi; lo] rest pre post)
      by (trivial; cbn [length]; lia).
    rewrite Hst.
    destruct Hwf as (_ & _ & HB & _). rewrite Hcont in HB.
    repeat match goal with H : Forall _ (_ :: _) |- _ =>
      let Hx := fresh "Hb" in inversion H as [|? ? Hx ?]; subst; clear H end.
    cbn [nth]. rewrite read16be_value by assumption.
    unfold bigEndian. cbn [fold_left]. f_equal. lia.
Qed.

Lemma proprietary_reads_big_endian_witness :
  let f := mkFrame false 0 0 [0x01; 0xA0; 0x04; 0x01; 0x02; 0x03; 0x04] in
  let w := mkWorld 60000000 0 0 0 None 0 (inr ([] ++ encoded f ++ [])) in
  (forall a b c d,
     Contents f = 0x01 :: PMCmdGetWorkTime :: 4 :: a :: b :: c :: d :: [] ->
     snd (GetPMWorkTime (mkPM5 true false 50000000 0) w)
       = (bigEndian [a; b; c; d], None)) /\
  (forall hi lo,
     Contents f = 0x01 :: PMCmdGetErrorValue :: 2 :: hi :: lo :: [] ->
     snd (GetErrorValue (mkPM5 true false 50000000 0) w)
       = (bigEndian [hi; lo], None)).
Proof.
  cbv zeta.
  apply (proprietary_reads_big_endian (mkPM5 true false 50000000 0) _
           (mkFrame false 0 0 [0x01; 0xA0; 0x04; 0x01; 0x02; 0x03; 0x04])
           0x01 [] [] []); try reflexivity.
  - unfold wellFormed, is_byte. simpl.
    repeat split; try lia. repeat constructor; lia.
  - simpl. lia.
  - constructor.
Defined.

Lemma publicGet_answer {A : Type}
    (cmd : byte) (width : nat) (decode : list byte -> A) (zero : A)
    (p : PM5) (w : World) (f : Frame) (status : byte)
    (rest pre post : list byte) :
  connected p = true ->
  writeResult w = None ->
  wellFormed f ->
  Contents f = status :: rest ->
  Forall (fun b => isStart b = false) pre ->
  readResult w = inr (pre ++ encoded f ++ post) ->
  snd (publicGet cmd width decode zero p w) =
  if Z.land status 0x30 =? 0x10 then (zero, Some ErrCommandFailed)
  else
    match parsePMWrapperData rest with
    | [] => (zero, Some ErrInvalidResponse)
    | cr :: _ =>
        if (length (Data cr) <? width)%nat then (zero, Some ErrInvalidResponse)
        else (decode (Data cr), None)
    end.
Proof.
  intros Hc Hw Hwf Hcont Hpre Hr. unfold publicGet.
  destruct (sendCommand_parsed p w [cmd] f status rest pre post Hc
              ltac:(simpl; lia) Hw Hwf Hcont Hpre Hr) as (resp & Hcd & Hs).
  destruct (sendCommand p w [cmd]) as [[p' tr] out]. cbn [snd] in *. subst out.
  destruct (Z.land status 48 =? 16); [reflexivity|].
  rewrite Hcd. destruct (parsePMWrapperData rest) as [|cr rs]; [reflexivity|].
  cbn [map attachPM Data].
  destruct (length (Data cr) <? width)%nat; reflexivity.
Qed.

(** The public two-byte reads take the first record of the answer,
    whatever its opcode, and return its first two data bytes
    little-endian, [lo + 256*hi]; an answer that is the status byte
    alone gives [ErrInvalidResponse], and so does a first record with a
    single data byte. *)
Theorem public_reads_little_endian
    (get : PM5 -> World -> PM5 * list Event * (Z * option error))
    (p : PM5) (w : World) (f : Frame) (status : byte)
    (pre post : list byte) :
  In get [GetCalories; GetHorizontal; GetPace; GetCadence; GetPower] ->
  connected p = true ->
  writeResult w = None ->
  wellFormed f ->
  Z.land status 0x30 <> 0x10 ->
  Forall (fun b => isStart b = false) pre ->
  readResult w = inr (pre ++ encoded f ++ post) ->
  (forall op lo hi rest,
     Contents f = status :: op :: 2 :: lo :: hi :: rest ->
     snd (get p w) = (lo + 256 * hi, None)) /\
  (Contents f = [status] -> snd (get p w) = (0, Some ErrInvalidResponse)) /\
  (forall op b,
     Contents f = [status; op; 1; b] ->
     snd (get p w) = (0, Some ErrInvalidResponse)).
Proof.
  intros Hin Hc Hw Hwf Hst Hpre Hr. apply Z.eqb_neq in Hst.
  assert (Hget : exists cmd, get = publicGet cmd 2 read16le 0).
  { cbn [In] in Hin.
    repeat (destruct Hin as [<- | Hin]; [eexists; reflexivity|]).
    destruct Hin. }
  destruct Hget as [cmd ->].
  repeat apply conj.
  - intros op lo hi rest Hcont.
    rewrite (publicGet_answer cmd 2 read16le 0 p w f status _ pre post
               Hc Hw Hwf Hcont Hpre Hr), Hst.
    change (op :: 2 :: lo :: hi :: rest)
      with (op :: 2 :: [lo; hi] ++ rest).
    rewrite parsePMWrapperData_record by (simpl; lia).
    cbn [Data length Nat.ltb Nat.leb].
    destruct Hwf as (_ & _ & HB & _). rewrite Hcont in HB.
    repeat match goal with H : Forall _ (_ :: _) |- _ =>
      let Hx := fresh "Hb" in inversion H as [|? ? Hx ?]; subst; clear H end.
    now rewrite read16le_value.
  - intros Hcont.
    now rewrite (publicGet_answer cmd 2 read16le 0 p w f status _ pre post
                   Hc Hw Hwf Hcont Hpre Hr), Hst.
  - intros op b Hcont.
    rewrite (publicGet_answer cmd 2 read16le 0 p w f status _ pre post
               Hc Hw Hwf Hcont Hpre Hr), Hst.
    change [op; 1; b] with (op :: 1 :: [b] ++ []).
    now rewrite parsePMWrapperData_record by (simpl; lia).
Qed.

Lemma public_reads_little_endian_witness :
  let f := mkFrame false 0 0 [0x01; 0xA3; 0x02; 0x10; 0x01] in
  let p := mkPM5 true false 50000000 0 in
  let w := mkWorld 60000000 0 0 0 None 0 (inr ([] ++ encoded f ++ [])) in
  (forall op lo hi rest,
     Contents f = 0x01 :: op :: 2 :: lo :: hi :: rest ->
     snd (GetCalories p w) = (lo + 256 * hi, None)) /\
  (Contents f = [0x01] -> snd (GetCalories p w) = (0, Some ErrInvalidResponse)) /\
  (forall op b,
     Contents f = [0x01; op; 1; b] ->
     snd (GetCalories p w) = (0, Some ErrInvalidResponse)).
Proof.
  cbv zeta.
  apply (public_reads_little_endian GetCalories (mkPM5 true false 50000000 0) _
           (mkFrame false 0 0 [0x01; 0xA3; 0x02; 0x10; 0x01])
           0x01 [] []); try reflexivity.
  - left. reflexivity.
  - unfold wellFormed, is_byte. simpl.
    repeat split; try lia. repeat constructor; lia.
  - simpl. lia.
  - constructor.
Defined.

(* ================================================================= *)
(** ** Set commands and workout helpers *)

Lemma sendCommand_writes (p : PM5) (w : World) (contents : list byte) :
  connected p = true ->
  (length contents <= 58)%nat ->
  writtenOf (snd (fst (sendCommand p w contents)))
  = Some (encoded (mkFrame false 0 0 contents)) /\
  forall e, snd (sendCommand p w contents) <> Failed (EncodeFailed e).
Proof.
  intros Hc Hlen. unfold sendCommand.
  rewrite Hc, (EncodeFrame_fits _ Hlen). cbn [negb].
  destruct (gateSleep p (sinceAt w)); destruct (writeResult w);
    try destruct (readResult w) as [|data];
    cbn [fst snd app writtenOf find]; split; try reflexivity;
    intros e; try discriminate;
    apply not_eq_sym; intros H; symmetry in H; revert H;
    unfold interpret, decodeAndParse;
    repeat match goal with
    | |- context [match ?x with _ => _ end] => destruct x
    end; discriminate.
Qed.

Lemma sendOnly_trace (r : PM5 * list Event * Outcome) :
  snd (fst (sendOnly r)) = snd (fst r) /\ snd (sendOnly r) = errOf (snd r).
Proof. destruct r as [[p tr] out]. split; reflexivity. Qed.

Lemma msb4_eq (d : Z) :
  msb4 d = [(d / 16777216) mod 256; (d / 65536) mod 256; (d / 256) mod 256;
            d mod 256].
Proof.
  unfold msb4. rewrite !shifted_byte by lia. rewrite low_byte. reflexivity.
Qed.

Lemma msb4_bigEndian (d : Z) :
  0 <= d < 2 ^ 32 -> bigEndian (msb4 d) = d /\ Forall is_byte (msb4 d).
Proof.
  intros Hd. rewrite msb4_eq. split.
  - rewrite bigEndian4. change (2 ^ 32) with 4294967296 in Hd.
    Z.div_mod_to_equations. lia.
  - repeat constructor; unfold is_byte; apply Z.mod_pos_bound; lia.
Qed.

(** Byte order of the set commands.  [SetHorizontal] writes the frame
    of [21 03 lo hi 24], the distance little-endian as [Uint16ToBytes]
    gives it, then the meter unit; [SetWorkoutDuration] writes the
    frame of the wrapper [76 07] around [03 05 type b3 b2 b1 b0], the
    duration big-endian, the reverse of [Uint32ToBytes].  Neither can
    fail to encode. *)
Theorem set_commands_byte_order (p : PM5) (w : World) :
  connected p = true ->
  (forall distance,
     writtenOf (snd (fst (SetHorizontal p w distance)))
     = Some (encoded (mkFrame false 0 0
               ([CmdSetHorizontal; 3] ++ Uint16ToBytes distance ++ [UnitsMeter])))
     /\ forall e, snd (SetHorizontal p w distance) <> Some (EncodeFailed e)) /\
  (forall durationType duration,
     writtenOf (snd (fst (SetWorkoutDuration p w durationType duration)))
     = Some (encoded (mkFrame false 0 0
               ([CmdSetPMCfg; 7; PMCmdSetWorkoutDuration; 5; durationType]
                ++ rev (Uint32ToBytes duration))))
     /\ (0 <= duration < 2 ^ 32 ->
         bigEndian (rev (Uint32ToBytes duration)) = duration)
     /\ forall e,
          snd (SetWorkoutDuration p w durationType duration)
          <> Some (EncodeFailed e)).
Proof.
  intros Hc. split.
  - intros distance. unfold SetHorizontal.
    destruct (sendOnly_trace (sendCommand p w
      (BuildCommand CmdSetHorizontal
         [toByte (Z.land distance 255);
          toByte (Z.land (Z.shiftr distance 8) 255); UnitsMeter]))) as [-> ->].
    destruct (sendCommand_writes p w
      (BuildCommand CmdSetHorizontal
         [toByte (Z.land distance 255);
          toByte (Z.land (Z.shiftr distance 8) 255); UnitsMeter]) Hc
      ltac:(simpl; lia)) as [Hwr Hne].
    split; [exact Hwr|].
    intros e H. destruct (snd (sendCommand _ _ _)) eqn:E; cbn in H;
      try discriminate. injection H as ->. now apply (Hne e).
  - intros durationType duration. unfold SetWorkoutDuration, sendPMCommand.
    destruct (sendOnly_trace (sendCommand p w
      (BuildPMCommand CmdSetPMCfg
         [BuildCommand PMCmdSetWorkoutDuration (durationType :: msb4 duration)])))
      as [-> ->].
    destruct (sendCommand_writes p w
      (BuildPMCommand CmdSetPMCfg
         [BuildCommand PMCmdSetWorkoutDuration (durationType :: msb4 duration)])
      Hc ltac:(simpl; lia)) as [Hwr Hne].
    split; [exact Hwr|]. split.
    + intros Hd. change (rev (Uint32ToBytes duration)) with (msb4 duration).
      now apply msb4_bigEndian.
    + intros e H. destruct (snd (sendCommand _ _ _)) eqn:E; cbn in H;
        try discriminate. injection H as ->. now apply (Hne e).
Qed.

Lemma set_commands_byte_order_witness :
  writtenOf (snd (fst (SetHorizontal (mkPM5 true false 50000000 0)
                         (mkWorld 60000000 0 0 0 None 0 (inl (DevErr 1)))
                         2000)))
  = Some (encoded (mkFrame false 0 0
            ([CmdSetHorizontal; 3] ++ Uint16ToBytes 2000 ++ [UnitsMeter])))
  /\ forall e,
       snd (SetHorizontal (mkPM5 true false 50000000 0)
              (mkWorld 60000000 0 0 0 None 0 (inl (DevErr 1))) 2000)
       <> Some (EncodeFailed e).
Proof.
  apply (proj1 (set_commands_byte_order (mkPM5 true false 50000000 0)
                  (mkWorld 60000000 0 0 0 None 0 (inl (DevErr 1)))
                  eq_refl) 2000).
Defined.

(** The workout helpers.  For every goal and split in [uint32],
    [StartFixedDistanceWorkout], [StartFixedTimeWorkout] and
    [StartFixedCalorieWorkout] on a connected session write one frame:
    the [0x76] wrapper, with the exact length of its payload, around the
    workout type, the goal with its duration type, the split if it is
    positive, the enable and the screen command, in this order.  The
    payload parses back into these records, goal and split are
    big-endian, and the frame always encodes. *)
Theorem fixed_workout_request
    (start : PM5 -> World -> Z -> Z -> PM5 * list Event * option error)
    (noSplits splits durationType : byte)
    (p : PM5) (w : World) (goal split : Z) :
  In (start, (noSplits, splits, durationType))
     [(StartFixedDistanceWorkout,
       (WorkoutTypeFixedDistNoSplits, WorkoutTypeFixedDistSplits,
        DurationTypeDistance));
      (StartFixedTimeWorkout,
       (WorkoutTypeFixedTimeNoSplits, WorkoutTypeFixedTimeSplits,
        DurationTypeTime));
      (StartFixedCalorieWorkout,
       (WorkoutTypeJustRowNoSplits, WorkoutTypeFixedCalorieSplits,
        DurationTypeCalories))] ->
  connected p = true ->
  0 <= goal < 2 ^ 32 ->
  0 <= split < 2 ^ 32 ->
  let recs :=
    [mkCommandResponse PMCmdSetWorkoutType 1
       [if 0 <? split then splits else noSplits] [];
     mkCommandResponse PMCmdSetWorkoutDuration 5 (durationType :: msb4 goal) []]
    ++ (if 0 <? split
        then [mkCommandResponse PMCmdSetSplitDuration 5
                (durationType :: msb4 split) []]
        else [])
    ++ [mkCommandResponse PMCmdConfigureWorkout 1 [0x01] [];
        mkCommandResponse PMCmdSetScreenState 2 [0x01; 0x01] []] in
  let inner := flat_map recordBytes recs in
  writtenOf (snd (fst (start p w goal split)))
  = Some (encoded (mkFrame false 0 0
            (CmdSetPMCfg :: Z.of_nat (length inner) :: inner))) /\
  parsePMWrapperData inner = recs /\
  bigEndian (msb4 goal) = goal /\
  bigEndian (msb4 split) = split /\
  forall e, snd (start p w goal split) <> Some (EncodeFailed e).
Proof.
  intros Hin Hc Hg Hs recs inner.
  assert (Hstart : start p w goal split =
            sendOnly (sendPMCommand p w CmdSetPMCfg
              (fixedWorkoutCmds noSplits splits durationType goal split))).
  { cbn [In] in Hin.
    repeat (destruct Hin as [[= <- <- <- <-] | Hin]; [reflexivity|]).
    destruct Hin. }
  assert (Hcmds : BuildPMCommand CmdSetPMCfg
            (fixedWorkoutCmds noSplits splits durationType goal split)
            = CmdSetPMCfg :: Z.of_nat (length inner) :: inner).
  { rewrite BuildPMCommand_eq. unfold inner, recs, fixedWorkoutCmds.
    destruct (0 <? split); reflexivity. }
  assert (Hlen : (length (CmdSetPMCfg :: Z.of_nat (length inner) :: inner)
                  <= 58)%nat).
  { unfold inner, recs. destruct (0 <? split); simpl; lia. }
  rewrite Hstart. unfold sendPMCommand. rewrite Hcmds.
  destruct (sendOnly_trace (sendCommand p w
              (CmdSetPMCfg :: Z.of_nat (length inner) :: inner))) as [-> ->].
  destruct (sendCommand_writes p w _ Hc Hlen) as [Hwr Hne].
  split; [exact Hwr|]. split; [|split; [|split]].
  - unfold inner, recs.
    destruct (0 <? split); cbn [app flat_map recordBytes Command ByteCount Data];
      rewrite ?app_nil_r;
      repeat (rewrite parsePMWrapperData_record by (simpl; lia));
      reflexivity.
  - now apply msb4_bigEndian.
  - now apply msb4_bigEndian.
  - intros e H. destruct (snd (sendCommand _ _ _)) eqn:E; cbn in H;
      try discriminate. injection H as ->. now apply (Hne e).
Qed.

Lemma fixed_workout_request_witness :
  let p := mkPM5 true false 50000000 0 in
  let w := mkWorld 60000000 0 0 0 None 0 (inl (DevErr 1)) in
  let recs :=
    [mkCommandResponse PMCmdSetWorkoutType 1
       [if 0 <? 500 then WorkoutTypeFixedDistSplits
        else WorkoutTypeFixedDistNoSplits] [];
     mkCommandResponse PMCmdSetWorkoutDuration 5
       (DurationTypeDistance :: msb4 2000) []]
    ++ (if 0 <? 500
        then [mkCommandResponse PMCmdSetSplitDuration 5
                (DurationTypeDistance :: msb4 500) []]
        else [])
    ++ [mkCommandResponse PMCmdConfigureWorkout 1 [0x01] [];
        mkCommandResponse PMCmdSetScreenState 2 [0x01; 0x01] []] in
  let inner := flat_map recordBytes recs in
  writtenOf (snd (fst (StartFixedDistanceWorkout p w 2000 500)))
  = Some (encoded (mkFrame false 0 0
            (CmdSetPMCfg :: Z.of_nat (length inner) :: inner))) /\
  parsePMWrapperData inner = recs /\
  bigEndian (msb4 2000) = 2000 /\
  bigEndian (msb4 500) = 500 /\
  forall e, snd (StartFixedDistanceWorkout p w 2000 500) <> Some (EncodeFailed e).
Proof.
  cbv zeta.
  apply (fixed_workout_request StartFixedDistanceWorkout
           WorkoutTypeFixedDistNoSplits WorkoutTypeFixedDistSplits
           DurationTypeDistance
           (mkPM5 true false 50000000 0)
           (mkWorld 60000000 0 0 0 None 0 (inl (DevErr 1))) 2000 500).
  - left. reflexivity.
  - reflexivity.
  - lia.
  - lia.
Defined.

Lemma msb2_bigEndian (s : Z) :
  0 <= s < 2 ^ 16 -> bigEndian (msb2 s) = s.
Proof.
  intros Hs. unfold msb2. rewrite shifted_byte by lia. rewrite low_byte.
  unfold bigEndian. cbn [fold_left].
  change (2 ^ 8) with 256. change (2 ^ 16) with 65536 in Hs.
  Z.div_mod_to_equations. lia.
Qed.

(** The interval helpers.  For every goal in [uint32] and rest in
    [uint16], [StartFixedDistanceIntervalWorkout] and
    [StartFixedTimeIntervalWorkout] on a connected session write one
    frame: the [0x76] wrapper of 21 payload bytes around the workout
    type, the goal with its duration type, the rest duration, the
    enable and the screen command.  The payload parses back into these
    five records, goal and rest are big-endian, and the frame always
    encodes. *)
Theorem interval_workout_request
    (start : PM5 -> World -> Z -> Z -> PM5 * list Event * option error)
    (workoutType durationType : byte)
    (p : PM5) (w : World) (goal restSeconds : Z) :
  In (start, (workoutType, durationType))
     [(StartFixedDistanceIntervalWorkout,
       (WorkoutTypeFixedDistInterval, DurationTypeDistance));
      (StartFixedTimeIntervalWorkout,
       (WorkoutTypeFixedTimeInterval, DurationTypeTime))] ->
  connected p = true ->
  0 <= goal < 2 ^ 32 ->
  0 <= restSeconds < 2 ^ 16 ->
  let recs :=
    [mkCommandResponse PMCmdSetWorkoutType 1 [workoutType] [];
     mkCommandResponse PMCmdSetWorkoutDuration 5 (durationType :: msb4 goal) [];
     mkCommandResponse PMCmdSetRestDuration 2 (msb2 restSeconds) [];
     mkCommandResponse PMCmdConfigureWorkout 1 [0x01] [];
     mkCommandResponse PMCmdSetScreenState 2 [0x01; 0x01] []] in
  let inner := flat_map recordBytes recs in
  writtenOf (snd (fst (start p w goal restSeconds)))
  = Some (encoded (mkFrame false 0 0 (CmdSetPMCfg :: 21 :: inner))) /\
  length inner = 21%nat /\
  parsePMWrapperData inner = recs /\
  bigEndian (msb4 goal) = goal /\
  bigEndian (msb2 restSeconds) = restSeconds /\
  forall e, snd (start p w goal restSeconds) <> Some (EncodeFailed e).
Proof.
  intros Hin Hc Hg Hs recs inner.
  assert (Hstart : start p w goal restSeconds =
            sendOnly (sendPMCommand p w CmdSetPMCfg
              (intervalWorkoutCmds workoutType durationType goal restSeconds))).
  { cbn [In] in Hin.
    repeat (destruct Hin as [[= <- <- <-] | Hin]; [reflexivity|]).
    destruct Hin. }
  assert (Hcmds : BuildPMCommand CmdSetPMCfg
            (intervalWorkoutCmds workoutType durationType goal restSeconds)
            = CmdSetPMCfg :: 21 :: inner).
  { rewrite BuildPMCommand_eq. reflexivity. }
  rewrite Hstart. unfold sendPMCommand. rewrite Hcmds.
  destruct (sendOnly_trace (sendCommand p w (CmdSetPMCfg :: 21 :: inner)))
    as [-> ->].
  destruct (sendCommand_writes p w (CmdSetPMCfg :: 21 :: inner) Hc
              ltac:(simpl; lia)) as [Hwr Hne].
  split; [exact Hwr|]. split; [reflexivity|]. split; [|split; [|split]].
  - unfold inner, recs, msb2.
    cbn [app flat_map recordBytes Command ByteCount Data].
    rewrite ?app_nil_r.
    repeat (rewrite parsePMWrapperData_record by (simpl; lia)).
    reflexivity.
  - now apply msb4_bigEndian.
  - now apply msb2_bigEndian.
  - intros e H. destruct (snd (sendCommand _ _ _)) eqn:E; cbn in H;
      try discriminate. injection H as ->. now apply (Hne e).
Qed.

Lemma interval_workout_request_witness :
  let p := mkPM5 true false 50000000 0 in
  let w := mkWorld 60000000 0 0 0 None 0 (inl (DevErr 1)) in
  let recs :=
    [mkCommandResponse PMCmdSetWorkoutType 1 [WorkoutTypeFixedTimeInterval] [];
     mkCommandResponse PMCmdSetWorkoutDuration 5
       (DurationTypeTime :: msb4 6000) [];
     mkCommandResponse PMCmdSetRestDuration 2 (msb2 30) [];
     mkCommandResponse PMCmdConfigureWorkout 1 [0x01] [];
     mkCommandResponse PMCmdSetScreenState 2 [0x01; 0x01] []] in
  let inner := flat_map recordBytes recs in
  writtenOf (snd (fst (StartFixedTimeIntervalWorkout p w 6000 30)))
  = Some (encoded (mkFrame false 0 0 (CmdSetPMCfg :: 21 :: inner))) /\
  length inner = 21%nat /\
  parsePMWrapperData inner = recs /\
  bigEndian (msb4 6000) = 6000 /\
  bigEndian (msb2 30) = 30 /\
  forall e,
    snd (StartFixedTimeIntervalWorkout p w 6000 30) <> Some (EncodeFailed e).
Proof.
  cbv zeta.
  apply (interval_workout_request StartFixedTimeIntervalWorkout
           WorkoutTypeFixedTimeInterval DurationTypeTime
           (mkPM5 true false 50000000 0)
           (mkWorld 60000000 0 0 0 None 0 (inl (DevErr 1))) 6000 30).
  - right. left. reflexivity.
  - reflexivity.
  - lia.
  - lia.
Defined.

(* ================================================================= *)
(** ** Force curve *)

Lemma length_setNth {A} (i : nat) (x : A) (l : list A) :
  length (setNth i x l) = length l.
Proof.
  revert i. induction l as [|h t IH]; intros [|i]; simpl; auto.
Qed.

Lemma nth_setNth {A} (l : list A) : forall (i j : nat) (x d : A),
  nth j (setNth i x l) d =
  if (j =? i)%nat && (i <? length l)%nat then x else nth j l d.
Proof.
  induction l as [|h t IH]; intros [|i] [|j] x d; simpl; try reflexivity.
  - now rewrite andb_false_r.
  - rewrite IH. reflexivity.
Qed.

Lemma forcePlotLoop_spec (numWords : nat) (data : list byte) (fuel : nat) :
  forall (i : nat) (words : list Z),
    length words = numWords ->
    length (forcePlotLoop fuel i numWords data words) = numWords /\
    forall j,
      nth j (forcePlotLoop fuel i numWords data words) 0 =
      if (i <=? j)%nat && (j <? i + fuel)%nat && (j <? numWords)%nat
         && (2 * j + 2 <? length data)%nat
      then Z.lor (uint16 (Z.shiftl (nth (1 + j * 2) data 0) 8))
                 (nth (1 + j * 2 + 1) data 0)
      else nth j words 0.
Proof.
  induction fuel as [|fuel IH]; intros i words Hlen.
  - split; [exact Hlen|]. intros j. cbn [forcePlotLoop].
    replace ((i <=? j)%nat && (j <? i + 0)%nat) with false; [reflexivity|].
    symmetry. apply andb_false_iff.
    destruct (Nat.leb_spec i j); [right; apply Nat.ltb_ge; lia | now left].
  - cbn [forcePlotLoop].
    destruct ((i <? numWords)%nat && (1 + i * 2 + 1 <? length data)%nat) eqn:E.
    + apply andb_true_iff in E as [E1 E2].
      apply Nat.ltb_lt in E1, E2.
      destruct (IH (i + 1)%nat
                  (setNth i (Z.lor (uint16 (Z.shiftl (nth (1 + i * 2) data 0) 8))
                                   (nth (1 + i * 2 + 1) data 0)) words))
        as [Hl Hn].
      { now rewrite length_setNth. }
      split; [exact Hl|]. intros j. rewrite Hn, nth_setNth, Hlen.
      destruct (Nat.eq_dec j i) as [-> | Hne].
      * rewrite Nat.eqb_refl.
        replace (i <? numWords)%nat with true by (symmetry; apply Nat.ltb_lt; lia).
        replace (i + 1 <=? i)%nat with false by (symmetry; apply Nat.leb_gt; lia).
        replace (i <=? i)%nat with true by (symmetry; apply Nat.leb_le; lia).
        replace (i <? i + S fuel)%nat with true by (symmetry; apply Nat.ltb_lt; lia).
        replace (2 * i + 2 <? length data)%nat with true
          by (symmetry; apply Nat.ltb_lt; lia).
        reflexivity.
      * replace (j =? i)%nat with false by (symmetry; apply Nat.eqb_neq; lia).
        cbn [andb].
        replace ((i + 1 <=? j)%nat && (j <? i + 1 + fuel)%nat)
          with ((i <=? j)%nat && (j <? i + S fuel)%nat); [reflexivity|].
        destruct (Nat.leb_spec i j), (Nat.leb_spec (i + 1) j),
          (Nat.ltb_spec j (i + S fuel)), (Nat.ltb_spec j (i + 1 + fuel));
          try reflexivity; lia.
    + split; [exact Hlen|]. intros j.
      replace ((i <=? j)%nat && (j <? i + S fuel)%nat && (j <? numWords)%nat
               && (2 * j + 2 <? length data)%nat) with false; [reflexivity|].
      symmetry. apply andb_false_iff in E.
      destruct (Nat.leb_spec i j); [|reflexivity].
      destruct (Nat.ltb_spec j numWords); [|now rewrite andb_false_r].
      destruct (Nat.ltb_spec (2 * j + 2) (length data));
        [|now rewrite andb_false_r].
      exfalso. destruct E as [E | E]; apply Nat.ltb_ge in E; lia.
Qed.

Lemma forcePlotWords_spec (data : list byte) :
  Forall is_byte data ->
  let bytesRead := nth 0 data 0 in
  (bytesRead = 0 -> forcePlotWords data = []) /\
  (bytesRead <> 0 ->
   length (forcePlotWords data) = Nat.min (Z.to_nat (bytesRead / 2)) 16 /\
   forall j,
     (j < length (forcePlotWords data))%nat ->
     nth j (forcePlotWords data) 0 =
     if (2 * j + 2 <? length data)%nat
     then 256 * nth (1 + 2 * j) data 0 + nth (2 + 2 * j) data 0
     else 0).
Proof.
  intros HB bytesRead. unfold forcePlotWords. fold bytesRead. split.
  - intros ->. reflexivity.
  - intros Hnz. apply Z.eqb_neq in Hnz. rewrite Hnz.
    set (numWords := if (16 <? Z.to_nat (bytesRead / 2))%nat then 16%nat
                     else Z.to_nat (bytesRead / 2)).
    assert (Hnw : numWords = Nat.min (Z.to_nat (bytesRead / 2)) 16).
    { unfold numWords.
      destruct (Nat.ltb_spec 16 (Z.to_nat (bytesRead / 2))); lia. }
    destruct (forcePlotLoop_spec numWords data numWords 0 (repeat 0 numWords)
                (repeat_length _ _)) as [Hl Hn].
    split; [now rewrite Hl|]. intros j Hj. rewrite Hl in Hj. rewrite Hn.
    cbn [Nat.leb Nat.add andb].
    replace (j <? numWords)%nat with true by (symmetry; apply Nat.ltb_lt; lia).
    cbn [andb].
    destruct (Nat.ltb_spec (2 * j + 2) (length data)) as [Hin | Hout].
    + assert (Hb : forall k, (k < length data)%nat -> is_byte (nth k data 0)).
      { intros k Hk. rewrite Forall_forall in HB. apply HB. now apply nth_In. }
      replace (S (j * 2)) with (1 + 2 * j)%nat by lia.
      replace (S (j * 2 + 1)) with (2 + 2 * j)%nat by lia.
      rewrite read16be_value by (apply Hb; lia). reflexivity.
    + apply nth_repeat.
Qed.

Lemma GetForcePlotData_snd (p : PM5) (w : World) (blockSize : byte) :
  snd (GetForcePlotData p w blockSize) =
  match snd (sendPMCommand p w CmdSetUserCfg1
               [BuildCommand PMCmdGetForcePlotData
                  [if 32 <? blockSize then 32 else blockSize]]) with
  | Failed e => (None, Some e)
  | Rejected _ => (None, Some ErrCommandFailed)
  | Done resp =>
      match firstData PMCmdGetForcePlotData 1 (CommandData resp) with
      | Some d => (Some (forcePlotWords d), None)
      | None => (None, Some ErrInvalidResponse)
      end
  end.
Proof.
  unfold GetForcePlotData.
  destruct (sendPMCommand p w CmdSetUserCfg1 _) as [[p' tr] out].
  destruct out as [e|resp|resp]; try reflexivity.
  cbn [snd].
  destruct (firstData PMCmdGetForcePlotData 1 (CommandData resp)); reflexivity.
Qed.

(** [GetForcePlotData] asks for at most 32 bytes, whatever block size
    it is given.  When the answer carries, right after a status byte
    that is not a rejection, a force-plot record with at least one data
    byte, it returns words and no error: no word when the first data
    byte, the count of bytes read, is 0; otherwise half that count of
    words, 16 at most, whatever data the record really holds; word [j]
    is the big-endian pair at data offsets [1+2j] and [2+2j] when the
    record holds both bytes, and 0 when it does not. *)
Theorem GetForcePlotData_words
    (p : PM5) (w : World) (blockSize : byte) (f : Frame) (status : byte)
    (d rest pre post : list byte) :
  connected p = true ->
  writeResult w = None ->
  wellFormed f ->
  Contents f = status :: PMCmdGetForcePlotData :: Z.of_nat (length d) :: d ++ rest ->
  (1 <= length d)%nat ->
  Z.land status 0x30 <> 0x10 ->
  Forall (fun b => isStart b = false) pre ->
  readResult w = inr (pre ++ encoded f ++ post) ->
  writtenOf (snd (fst (GetForcePlotData p w blockSize)))
    = Some (encoded (mkFrame false 0 0
              [CmdSetUserCfg1; 3; PMCmdGetForcePlotData; 1; Z.min blockSize 32])) /\
  exists words,
    snd (GetForcePlotData p w blockSize) = (Some words, None) /\
    (nth 0 d 0 = 0 -> words = []) /\
    (nth 0 d 0 <> 0 ->
     length words = Nat.min (Z.to_nat (nth 0 d 0 / 2)) 16 /\
     forall j,
       (j < length words)%nat ->
       nth j words 0 =
       if (2 * j + 2 <? length d)%nat
       then 256 * nth (1 + 2 * j) d 0 + nth (2 + 2 * j) d 0
       else 0).
Proof.
  intros Hc Hw Hwf Hcont Hlen Hst Hpre Hr.
  assert (Hclamp : (if 32 <? blockSize then 32 else blockSize) = Z.min blockSize 32).
  { destruct (Z.ltb_spec 32 blockSize); lia. }
  split.
  - unfold GetForcePlotData. rewrite Hclamp. unfold sendPMCommand.
    destruct (sendCommand_writes p w
                (BuildPMCommand CmdSetUserCfg1
                   [BuildCommand PMCmdGetForcePlotData [Z.min blockSize 32]]) Hc
                (request_fits _ _ [_] ltac:(simpl; lia))) as [Hwr _].
    destruct (sendCommand p w _) as [[p' tr] out]. cbn [fst snd] in Hwr.
    destruct out as [e|resp|resp];
      [| |destruct (firstData PMCmdGetForcePlotData 1 (CommandData resp))];
      cbn [fst snd]; exact Hwr.
  - exists (forcePlotWords d).
    assert (HB : Forall is_byte d).
    { destruct Hwf as (_ & _ & HF & _). rewrite Hcont in HF.
      inversion HF as [|? ? _ HF1]; subst. inversion HF1 as [|? ? _ HF2]; subst.
      inversion HF2 as [|? ? _ HF3]; subst.
      apply Forall_app in HF3. tauto. }
    split; [|exact (forcePlotWords_spec d HB)].
    rewrite GetForcePlotData_snd. unfold sendPMCommand.
    destruct (sendCommand_parsed p w
                (BuildPMCommand CmdSetUserCfg1
                   [BuildCommand PMCmdGetForcePlotData
                      [if 32 <? blockSize then 32 else blockSize]])
                f status _ pre post Hc (request_fits _ _ [_] ltac:(simpl; lia))
                Hw Hwf Hcont Hpre Hr) as (resp & Hcd & ->).
    apply Z.eqb_neq in Hst. rewrite Hst.
    rewrite Hcd, parsePMWrapperData_record by lia.
    unfold firstData. cbn [map find attachPM Command Data].
    rewrite Z.eqb_refl. apply Nat.leb_le in Hlen. rewrite Hlen.
    reflexivity.
Qed.

Lemma GetForcePlotData_words_witness :
  let w := mkWorld 0 0 0 0 None 0
             (inr [0xF1; 0x01; 0x6B; 0x05; 0x06; 0x01; 0x02; 0x03; 0x04; 0x6D; 0xF2]) in
  let p := mkPM5 true false 50 0 in
  let d := [0x06; 0x01; 0x02; 0x03; 0x04] in
  snd (GetForcePlotData p w 200) = (Some [0x0102; 0x0304; 0], None) /\
  writtenOf (snd (fst (GetForcePlotData p w 200)))
    = Some (encoded (mkFrame false 0 0
              [CmdSetUserCfg1; 3; PMCmdGetForcePlotData; 1; 32])).
Proof.
  cbv zeta.
  destruct (GetForcePlotData_words (mkPM5 true false 50 0)
              (mkWorld 0 0 0 0 None 0
                 (inr [0xF1; 0x01; 0x6B; 0x05; 0x06; 0x01; 0x02; 0x03; 0x04; 0x6D; 0xF2]))
              200 (mkFrame false 0 0 [0x01; 0x6B; 0x05; 0x06; 0x01; 0x02; 0x03; 0x04])
              0x01 [0x06; 0x01; 0x02; 0x03; 0x04] [] [] [])
    as [Hwr (words & Hw & _)].
  - reflexivity.
  - reflexivity.
  - unfold wellFormed, is_byte. cbn.
    repeat split; try lia; repeat constructor; lia.
  - reflexivity.
  - simpl. lia.
  - discriminate.
  - constructor.
  - reflexivity.
  - split; [|exact Hwr]. reflexivity.
Defined.

(* ================================================================= *)
(** ** The mock device and the HID reports *)

Lemma slice_cons_nth {A} (l : list A) (lo hi : nat) (d : A) :
  (lo < hi)%nat -> (lo < length l)%nat ->
  slice lo hi l = nth lo l d :: slice (lo + 1) hi l.
Proof.
  intros Hlt Hlen. unfold slice.
  revert lo hi Hlt Hlen. induction l as [|x l IH]; intros lo hi Hlt Hlen.
  - simpl in Hlen. lia.
  - destruct lo as [|lo].
    + destruct hi as [|hi]; [lia|]. simpl. now rewrite Nat.sub_0_r.
    + destruct hi as [|hi]; [lia|]. simpl in *.
      apply (IH lo hi); lia.
Qed.

Lemma slice_empty {A} (l : list A) (lo : nat) : slice lo lo l = [].
Proof. unfold slice. now rewrite Nat.sub_diag. Qed.

(** Any sequence of calls on a mock device, from any state.  What
    [GetWritten] returns afterwards is what it returned before followed
    by the data of the writes that returned no error, in call order.
    The reads that returned data returned, in order and without gap or
    repeat, the responses between the read index before and the read
    index after: a read that times out consumes nothing, closing and
    reopening loses nothing, and a response queued after a timeout is
    delivered by the next read. *)
Theorem MockDevice_session (m : device.MockDevice) (cs : list device.Call) :
  let m' := fst (device.calls m cs) in
  let replies := snd (device.calls m cs) in
  device.GetWritten m' = device.GetWritten m ++ writesDone cs replies /\
  device.responses m' = device.responses m ++ queuedBy cs /\
  (device.respIdx m <= device.respIdx m')%nat /\
  readsDone replies
    = slice (device.respIdx m) (device.respIdx m') (device.responses m') /\
  ((device.respIdx m <= length (device.responses m))%nat ->
   (device.respIdx m' <= length (device.responses m'))%nat).
Proof.
  cbv zeta. unfold device.GetWritten. revert m.
  induction cs as [|c cs IH]; intros m.
  - cbn. rewrite !app_nil_r, slice_empty. repeat split; auto.
  - cbn [device.calls].
    destruct (device.call m c) as [m1 r] eqn:Ec.
    specialize (IH m1).
    destruct (device.calls m1 cs) as [m2 rs]. cbn [fst snd] in *.
    destruct IH as (Hw & Hq & Hmono & Hr & Hinv).
    destruct c as [data| | |data|]; cbn [device.call] in Ec.
    + injection Ec as <- <-.
      cbn [device.QueueResponse device.written device.responses device.respIdx
           writesDone readsDone queuedBy] in *.
      rewrite <- app_assoc in Hq. cbn [app] in Hq.
      repeat split; auto. intros H. apply Hinv. rewrite length_app. simpl. lia.
    + unfold device.Open in Ec.
      destruct (device.isOpen m); injection Ec as <- <-;
        cbn [device.written device.responses device.respIdx
             writesDone readsDone queuedBy] in *;
        repeat split; auto.
    + unfold device.Close in Ec. injection Ec as <- <-.
      cbn [device.written device.responses device.respIdx
           writesDone readsDone queuedBy] in *.
      repeat split; auto.
    + unfold device.Write in Ec.
      destruct (device.isOpen m); cbn [negb] in Ec; injection Ec as <- <-;
        cbn [device.written device.responses device.respIdx
             writesDone readsDone queuedBy] in *.
      * rewrite <- app_assoc in Hw. cbn [app] in Hw. repeat split; auto.
      * repeat split; auto.
    + unfold device.Read in Ec.
      destruct (device.isOpen m); cbn [negb] in Ec.
      * destruct (Nat.leb_spec (length (device.responses m)) (device.respIdx m))
          as [Hge | Hlt]; injection Ec as <- <-;
          cbn [device.written device.responses device.respIdx
               writesDone readsDone queuedBy] in *.
        -- repeat split; auto.
        -- repeat split; auto; try lia.
           rewrite (slice_cons_nth _ _ _ []), <- Hr; try lia.
           f_equal. rewrite Hq, app_nth1 by lia. reflexivity.
      * injection Ec as <- <-.
        cbn [device.written device.responses device.respIdx
             writesDone readsDone queuedBy] in *.
        repeat split; auto.
Qed.

Lemma length_buildReport (data : list byte) :
  length (device.buildReport data) = device.ReportID2Size.
Proof.
  unfold device.buildReport, device.ReportID2Size. cbn [length].
  rewrite length_app, length_firstn, repeat_length.
  destruct (Nat.ltb_spec 120 (length data)); lia.
Qed.

Lemma buildReport_data (data : list byte) :
  slice 1 (1 + Nat.min (length data) 120) (device.buildReport data)
  = firstn 120 data.
Proof.
  unfold device.buildReport, slice. cbn [skipn].
  replace (1 + Nat.min (length data) 120 - 1)%nat
    with (Nat.min (length data) 120) by lia.
  destruct (Nat.ltb_spec 120 (length data)) as [Hlong | Hshort].
  - rewrite Nat.min_r by lia.
    rewrite firstn_app, length_firstn, Nat.min_l by lia.
    rewrite Nat.sub_diag, firstn_O, firstn_firstn, Nat.min_id.
    apply app_nil_r.
  - rewrite Nat.min_l by lia.
    rewrite firstn_app, length_firstn, Nat.min_id, Nat.sub_diag, firstn_O.
    rewrite firstn_firstn, Nat.min_id, app_nil_r.
    rewrite firstn_all, firstn_all2 by lia. reflexivity.
Qed.

Lemma buildReport_padding (data : list byte) (i : nat) :
  (1 + Nat.min (length data) 120 <= i)%nat ->
  nth i (device.buildReport data) 0 = 0.
Proof.
  intros Hi. unfold device.buildReport.
  destruct i as [|i]; [lia|]. cbn [nth].
  set (n := if (120 <? length data)%nat then 120%nat else length data).
  assert (Hn : n = Nat.min (length data) 120).
  { unfold n. destruct (Nat.ltb_spec 120 (length data)); lia. }
  rewrite app_nth2; rewrite length_firstn; [|lia].
  apply nth_repeat.
Qed.

(** The report [USBDevice.Write] builds is always 121 bytes: report
    id 2, the first 120 bytes of the data, zeros after them.  With the
    HID write reporting a positive count, [Write] returns
    [min(len(data), 120)] and no error, so data beyond 120 bytes is
    dropped without an error.  Whatever [EncodeFrame] accepts fits: the
    report carries the whole encoded frame and [Write] returns its
    length. *)
Theorem USBWrite_report :
  (forall data,
     length (device.buildReport data) = 121%nat /\
     nth 0 (device.buildReport data) 0 = 0x02 /\
     slice 1 (1 + Nat.min (length data) 120) (device.buildReport data)
       = firstn 120 data /\
     forall i, (1 + Nat.min (length data) 120 <= i)%nat ->
               nth i (device.buildReport data) 0 = 0) /\
  (forall data wr,
     0 < wr ->
     device.USBWrite true (inr wr) data
     = (Some (device.buildReport data), (Nat.min (length data) 120, None))) /\
  (forall f enc wr,
     EncodeFrame f = Ok enc ->
     0 < wr ->
     device.USBWrite true (inr wr) enc
       = (Some (device.buildReport enc), (length enc, None)) /\
     slice 1 (1 + length enc) (device.buildReport enc) = enc).
Proof.
  assert (Hwrite : forall data wr, 0 < wr ->
            device.USBWrite true (inr wr) data
            = (Some (device.buildReport data),
               (Nat.min (length data) 120, None))).
  { intros data wr Hwr. unfold device.USBWrite. cbn [negb].
    apply Z.ltb_lt in Hwr. rewrite Hwr.
    destruct (Nat.ltb_spec 120 (length data));
      [rewrite Nat.min_r by lia | rewrite Nat.min_l by lia]; reflexivity. }
  split; [|split].
  - intros data. split; [apply length_buildReport|].
    split; [reflexivity|].
    split; [apply buildReport_data | apply buildReport_padding].
  - exact Hwrite.
  - intros f enc wr He Hwr.
    assert (Hlen : (length enc <= 120)%nat).
    { rewrite EncodeFrame_encoded in He.
      destruct (Nat.ltb_spec MaxFrameLength (length (encoded f)));
        [discriminate|].
      injection He as <-. exact H. }
    split.
    + rewrite (Hwrite enc wr Hwr), Nat.min_l by exact Hlen. reflexivity.
    + pose proof (buildReport_data enc) as Hd.
      rewrite Nat.min_l in Hd by exact Hlen.
      rewrite Hd. apply firstn_all2. exact Hlen.
Qed.

(** [USBDevice.Read] strips the report id: of a report of [n] bytes,
    [n] greater than 1, it returns the [n - 1] bytes after the first.
    A report of the id alone is [ErrReadFailed], no byte at all is
    [ErrTimeout].  Reading back the report [Write] builds for up to 120
    bytes of data, with the count [1 + len(data)], returns the data. *)
Theorem USBRead_strips_report_id :
  (forall n buf,
     1 < n <= Z.of_nat (length buf) ->
     exists data,
       device.USBRead true (inr (n, buf)) = inr data /\
       Z.of_nat (length data) = n - 1 /\
       forall i, (i < length data)%nat -> nth i data 0 = nth (1 + i) buf 0) /\
  (forall buf, device.USBRead true (inr (1, buf)) = inl device.ErrReadFailed) /\
  (forall buf, device.USBRead true (inr (0, buf)) = inl device.ErrTimeout) /\
  (forall data,
     (1 <= length data <= 120)%nat ->
     device.USBRead true
       (inr (Z.of_nat (1 + length data), device.buildReport data))
     = inr data).
Proof.
  assert (Hread : forall n buf, 1 < n ->
            device.USBRead true (inr (n, buf)) = inr (slice 1 (Z.to_nat n) buf)).
  { intros n buf Hn. unfold device.USBRead. cbn [negb].
    replace (n =? 0) with false by (symmetry; apply Z.eqb_neq; lia).
    apply Z.ltb_lt in Hn. now rewrite Hn. }
  split; [|split; [|split]].
  - intros n buf [Hn Hle]. exists (slice 1 (Z.to_nat n) buf).
    split; [apply Hread, Hn|].
    assert (Hl : length (slice 1 (Z.to_nat n) buf) = (Z.to_nat n - 1)%nat).
    { unfold slice. rewrite length_firstn, length_skipn. lia. }
    split; [lia|].
    intros i Hi. rewrite Hl in Hi. unfold slice.
    rewrite nth_firstn.
    replace (i <? Z.to_nat n - 1)%nat with true
      by (symmetry; apply Nat.ltb_lt; lia).
    rewrite nth_skipn. reflexivity.
  - reflexivity.
  - reflexivity.
  - intros data Hlen. rewrite Hread by lia.
    rewrite Nat2Z.id.
    pose proof (buildReport_data data) as Hd.
    rewrite Nat.min_l in Hd by lia. rewrite Hd.
    f_equal. apply firstn_all2. lia.
Qed.

(* ================================================================= *)
(** ** Firmware version *)

Lemma GetFirmwareVersion_snd (p : PM5) (w : World) :
  snd (GetFirmwareVersion p w) =
  match snd (sendPMCommand p w CmdGetPMCfg [BuildCommand PMCmdGetFWVersion []]) with
  | Failed e => (None, Some e)
  | Rejected _ => (None, Some ErrCommandFailed)
  | Done resp =>
      if (length (CommandData resp) <? 2)%nat
      then (None, Some ErrInvalidResponse)
      else
        match firstData PMCmdGetFWVersion 16 (CommandData resp) with
        | Some d => (Some (firstn 16 d), None)
        | None => (None, Some ErrInvalidResponse)
        end
  end.
Proof.
  unfold GetFirmwareVersion.
  destruct (sendPMCommand p w CmdGetPMCfg _) as [[p' tr] out].
  destruct out as [e|resp|resp]; try reflexivity.
  cbn [snd]. destruct (length (CommandData resp) <? 2)%nat; [reflexivity|].
  destruct (firstData PMCmdGetFWVersion 16 (CommandData resp)); reflexivity.
Qed.

(** [GetFirmwareVersion] on an answer whose first record is the
    firmware record with at least 16 data bytes: when that record is
    the only one of the answer, the result is [ErrInvalidResponse],
    although the record searched for is there; when anything that
    parses as a record follows it, the result is the first 16 data
    bytes. *)
Theorem GetFirmwareVersion_lone_record
    (p : PM5) (w : World) (f : Frame) (status : byte)
    (d rest pre post : list byte) :
  connected p = true ->
  writeResult w = None ->
  wellFormed f ->
  Contents f = status :: PMCmdGetFWVersion :: Z.of_nat (length d) :: d ++ rest ->
  (16 <= length d)%nat ->
  Z.land status 0x30 <> 0x10 ->
  Forall (fun b => isStart b = false) pre ->
  readResult w = inr (pre ++ encoded f ++ post) ->
  snd (GetFirmwareVersion p w) =
  match parsePMWrapperData rest with
  | [] => (None, Some ErrInvalidResponse)
  | _ :: _ => (Some (firstn 16 d), None)
  end.
Proof.
  intros Hc Hw Hwf Hcont Hlen Hst Hpre Hr.
  rewrite GetFirmwareVersion_snd. unfold sendPMCommand.
  destruct (sendCommand_parsed p w
              (BuildPMCommand CmdGetPMCfg [BuildCommand PMCmdGetFWVersion []])
              f status _ pre post Hc (request_fits _ _ [] ltac:(simpl; lia))
              Hw Hwf Hcont Hpre Hr) as (resp & Hcd & ->).
  apply Z.eqb_neq in Hst. rewrite Hst.
  rewrite Hcd, parsePMWrapperData_record by lia.
  cbn [map length].
  destruct (parsePMWrapperData rest) as [|cr rs]; [reflexivity|].
  cbn [map length Nat.ltb Nat.leb].
  unfold firstData. cbn [find attachPM Command Data].
  rewrite Z.eqb_refl. apply Nat.leb_le in Hlen. rewrite Hlen.
  reflexivity.
Qed.

Lemma GetFirmwareVersion_lone_record_witness :
  let d := [1; 2; 3; 4; 5; 6; 7; 8; 9; 10; 11; 12; 13; 14; 15; 16] in
  let f := mkFrame false 0 0 (0x01 :: PMCmdGetFWVersion :: 16 :: d) in
  let w := mkWorld 60000000 0 0 0 None 0 (inr ([] ++ encoded f ++ [])) in
  snd (GetFirmwareVersion (mkPM5 true false 50000000 0) w)
  = (None, Some ErrInvalidResponse).
Proof.
  cbv zeta.
  apply (GetFirmwareVersion_lone_record (mkPM5 true false 50000000 0) _
           (mkFrame false 0 0
              (0x01 :: PMCmdGetFWVersion :: 16
               :: [1; 2; 3; 4; 5; 6; 7; 8; 9; 10; 11; 12; 13; 14; 15; 16]))
           0x01 [1; 2; 3; 4; 5; 6; 7; 8; 9; 10; 11; 12; 13; 14; 15; 16]
           [] [] []); try reflexivity.
  - unfold wellFormed, is_byte, PMCmdGetFWVersion. simpl.
    repeat split; try lia. repeat constructor; lia.
  - simpl. lia.
  - constructor.
Defined.
